(** * SMP-Sea-Ice: the profile-matching and recalibration notebooks

    A shallow embedding of the notebook cells of [Annex_Matching.ipynb]
    (profile alignment) and of the recalibration notebook (K-fold OLS,
    outlier removal, persisted coefficients), with the properties the
    specification states about them.

    Conventions.
    - A finite float is modelled by the rational it denotes ([Q], exact
      arithmetic); where a value can be NaN (the skill metrics of the
      alignment search, the quantile of an empty series) it is a [float64].
    - Library calls whose result depends on data the notebooks do not
      inspect (numpy's generator, the OLS fit, the SMP instrument library,
      the helpers of the local [smpfunc] package) are the fields of a
      class: [Random], [NumPy], [Matching.SMP], [Recalibration.Library].
    - A raised Python exception is the [inl] branch of [result].
    - A notebook is a list of cells run on a kernel: the frames live in a
      heap and the names point to them, so that an alias and a [copy()]
      differ.

    Contents: [Matching] (the alignment search and its selection), [KFold]
    (the 10-fold split), [Recalibration] (the regression, the persisted
    coefficients, the outlier removal), [Pipeline] (both notebooks:
    exceptions and reproducibility), [Alignment] (the cells of
    [Annex_Matching.ipynb] around the search: the file list, the pit
    heights, the layers, the ranking), [Runs] (the recalibration cells on
    any kernel: loading, files, fold sizes, accumulators, rounding,
    removal). *)

From Stdlib Require Import ZArith QArith Qround Qabs Lia Lqa List Permutation Sorted.
From stdpp Require Import base option list sorting gmap strings.
From Stdlib Require SetoidList SetoidPermutation.

Local Open Scope nat_scope.

(** ** Exceptions *)

Inductive exn : Type :=
| ValueError (msg : string)
| TypeError (msg : string)
| IndexError (msg : string)
| KeyError (msg : string)
| NameError (msg : string)
| FileNotFoundError (msg : string)
| LibraryError (msg : string).

Definition result (A : Type) : Type := exn + A.

Definition ok {A} (a : A) : result A := inr a.
Definition raise {A} (e : exn) : result A := inl e.

Definition rbind {A B} (m : result A) (k : A -> result B) : result B :=
  match m with
  | inl e => inl e
  | inr a => k a
  end.

Notation "'let!' x ':=' m 'in' k" := (rbind m (fun x => k))
  (at level 10, x pattern, m at level 100, k at level 200).

(** A list comprehension or [for] loop whose body may raise: the first
    exception ends it. *)
Fixpoint for_each {A B} (f : A -> result B) (xs : list A) : result (list B) :=
  match xs with
  | [] => ok []
  | x :: xs' =>
      let! y := f x in
      let! ys := for_each f xs' in
      ok (y :: ys)
  end.

(** ** Computations with a state

    A computation may raise and may change a state (the names and objects
    of a notebook kernel, the state of a random generator). When it raises
    it stops, and the state keeps what was done before. *)

Definition prog (S A : Type) : Type := S -> result A * S.

Definition cret {S A} (a : A) : prog S A := fun k => (ok a, k).

Definition cbind {S A B} (m : prog S A) (f : A -> prog S B) : prog S B :=
  fun k =>
    match m k with
    | (inl e, k') => (inl e, k')
    | (inr a, k') => f a k'
    end.

Notation "'let*' x ':=' m 'in' f" := (cbind m (fun x => f))
  (at level 10, x pattern, m at level 100, f at level 200).

(** A computation that leaves the state alone. *)
Definition lift {S A} (m : result A) : prog S A := fun k => (m, k).

(** A list comprehension whose body has effects. *)
Fixpoint for_each_prog {S A B} (f : A -> prog S B) (xs : list A) : prog S (list B) :=
  match xs with
  | [] => cret []
  | x :: xs' =>
      let* y := f x in
      let* ys := for_each_prog f xs' in
      cret (y :: ys)
  end.

(** A [for] loop whose body has effects: the first exception ends it, and
    the state keeps what the iterations before it did. *)
Fixpoint for_loop {S A} (body : A -> prog S unit) (xs : list A) : prog S unit :=
  match xs with
  | [] => cret tt
  | x :: xs' => let* _ := body x in for_loop body xs'
  end.

(** Random generators as numpy has them: the state of a generator, the
    state of one seeded with [seed] ([RandomState(seed)]; [np.random.seed(seed)]
    puts the global generator in that state), and the shuffle. *)
Class Random : Type := {
  rng : Type;
  RandomState : Z -> rng;
  rng_shuffle : rng -> list nat -> list nat * rng
}.

(** What the notebooks take from numpy without looking inside. *)
Class NumPy : Type := {
  np_log : Q -> Q;
  np_sqrt : Q -> Q;
  np_corrcoef : list Q -> list Q -> Q;
  np_std : list Q -> Q
}.

(** ** Floats that may be NaN *)

Inductive float64 : Type :=
| nan
| fin (q : Q).

(** ** NumPy and pandas primitives *)

(** [a[mask]] for a boolean mask as long as [a] *)
Fixpoint select {A} (a : list A) (mask : list bool) : list A :=
  match a, mask with
  | x :: a', b :: mask' => if b then x :: select a' mask' else select a' mask'
  | _, _ => []
  end.

(** [a[idx]] for a list of positions, all in range *)
Definition gather {A} (a : list A) (idx : list nat) : list A :=
  omap (fun i => a !! i) idx.

Definition np_sum (a : list Q) : Q := foldl Qplus 0%Q a.

(** [a.mean()]. (Of an empty array numpy returns NaN with a warning; the
    notebooks average fold results, of which there are ten.) *)
Definition np_mean (a : list Q) : Q :=
  (np_sum a / inject_Z (Z.of_nat (length a)))%Q.

(** Round half to even, the rounding of [np.rint]. *)
Definition rint (x : Q) : Z :=
  let f := Qfloor x in
  match ((x - inject_Z f) ?= 1 # 2)%Q with
  | Lt => f
  | Gt => (f + 1)%Z
  | Eq => if Z.even f then f else (f + 1)%Z
  end.

(** [np.round(x, decimals)]: scale, round half to even, scale back. *)
Definition np_round (x : Q) (decimals : nat) : Q :=
  let scale := inject_Z (10 ^ Z.of_nat decimals) in
  Qred (inject_Z (rint (x * scale)) / scale)%Q.

(** Ascending sort of the values (what [quantile] works on). *)
Fixpoint insert_sorted (x : Q) (l : list Q) : list Q :=
  match l with
  | [] => [x]
  | y :: l' => if Qle_bool x y then x :: l else y :: insert_sorted x l'
  end.

Definition np_sort (a : list Q) : list Q := foldr insert_sorted [] a.

(** [Series.quantile(q)] with the default linear interpolation: position
    [h = (n - 1) * q] in the sorted values, interpolated between the value
    at [floor(h)] and the next one (the last one if there is no next). NaN
    for an empty series. *)
Definition quantile (q : Q) (s : list Q) : float64 :=
  match s with
  | [] => nan
  | _ =>
      let sorted := np_sort s in
      let h := (inject_Z (Z.of_nat (length s - 1)) * q)%Q in
      let lo := Z.to_nat (Qfloor h) in
      let hi := Nat.min (lo + 1) (length s - 1) in
      let x_lo := nth lo sorted 0%Q in
      let x_hi := nth hi sorted 0%Q in
      fin (x_lo + (x_hi - x_lo) * (h - inject_Z (Qfloor h)))%Q
  end.

(** [x < y] on floats: false as soon as one side is NaN. *)
Definition float_lt (x : Q) (y : float64) : bool :=
  match y with
  | nan => false
  | fin b => negb (Qle_bool b x)
  end.

(** [x > y], likewise. *)
Definition float_gt (x : Q) (y : float64) : bool :=
  match y with
  | nan => false
  | fin b => negb (Qle_bool x b)
  end.

(** Elementwise operation on two arrays of one shape. *)
Fixpoint zip_with_same {A B C} (f : A -> B -> C) (a : list A) (b : list B)
    : result (list C) :=
  match a, b with
  | [], [] => ok []
  | x :: a', y :: b' => let! r := zip_with_same f a' b' in ok (f x y :: r)
  | _, _ => raise (ValueError "operands could not be broadcast together")
  end.

(** [a[i]] on a Python list *)
Definition list_item {A} (a : list A) (i : nat) : result A :=
  match a !! i with
  | Some x => ok x
  | None => raise (IndexError "list index out of range")
  end.

(** An arithmetic operation on two one-dimensional numpy arrays: shapes
    must agree, an array of one element is broadcast. *)
Definition broadcast (f : Q -> Q -> Q) (a b : list Q) : result (list Q) :=
  if length a =? length b then ok (zip_with f a b)
  else
    match a, b with
    | [x], _ => ok (map (f x) b)
    | _, [y] => ok (map (fun x => f x y) a)
    | _, _ => raise (ValueError "operands could not be broadcast together")
    end.

(** ** Running a computation backwards from its result *)

Lemma cbind_ok_inv {S A B} (m : prog S A) (f : A -> prog S B) k b k' :
  cbind m f k = (ok b, k') ->
  exists a k1, m k = (ok a, k1) /\ f a k1 = (ok b, k').
Proof.
  unfold cbind. destruct (m k) as [[e|a] k1]; [discriminate|]. eauto.
Qed.

Lemma lift_ok_inv {S A} (m : result A) (k : S) a k' :
  lift m k = (ok a, k') -> k' = k /\ m = ok a.
Proof. unfold lift. intros E. inversion E. auto. Qed.

Lemma cret_inv {S A} (a b : A) (k k' : S) :
  cret a k = (ok b, k') -> k' = k /\ b = a.
Proof. unfold cret. intros E. inversion E. auto. Qed.

Lemma rbind_ok_inv {A B} (m : result A) (f : A -> result B) (b : B) :
  rbind m f = ok b -> exists a, m = ok a /\ f a = ok b.
Proof. destruct m as [e|a]; simpl; [discriminate|eauto]. Qed.

Lemma for_each_ok {A B} (f : A -> result B) (g : A -> B) (xs : list A) :
  (forall x, In x xs -> f x = ok (g x)) -> for_each f xs = ok (map g xs).
Proof.
  induction xs as [|x xs IH]; intros H; simpl.
  - reflexivity.
  - rewrite (H x) by now left. simpl. rewrite IH by (intros; apply H; now right).
    reflexivity.
Qed.

Lemma for_each_length {A B} (f : A -> result B) (xs : list A) (ys : list B) :
  for_each f xs = ok ys -> length ys = length xs.
Proof.
  revert ys. induction xs as [|x xs IH]; intros ys; simpl.
  - intros E. injection E as <-. reflexivity.
  - destruct (f x) as [e|y]; simpl; [discriminate|].
    destruct (for_each f xs) as [e|ys']; simpl; [discriminate|].
    intros E. injection E as <-. simpl. f_equal. now apply IH.
Qed.

Lemma for_each_prog_length {S A B} (f : A -> prog S B) (xs : list A) k ys k' :
  for_each_prog f xs k = (ok ys, k') -> length ys = length xs.
Proof.
  revert k ys k'. induction xs as [|x xs IH]; intros k ys k'; simpl.
  - intros E. apply cret_inv in E as [_ ->]. reflexivity.
  - intros E. apply cbind_ok_inv in E as (y & k1 & _ & E).
    apply cbind_ok_inv in E as (ys' & k2 & E2 & E).
    apply cret_inv in E as [_ ->]. simpl. f_equal. eapply IH, E2.
Qed.

(** * Annex_Matching: selection of the best stretching candidate *)

Module Matching.

(** One row of [retrieved_skill]: the columns ['r','rmse','rmse_corr','mae']. *)
Record skill : Type := {
  r : float64;
  rmse : float64;
  rmse_corr : float64;
  mae : float64
}.

(** [pd.DataFrame(retrieved_skill, columns = [...])]: the rows get the
    default index 0, 1, 2, ... *)
Definition DataFrame (rows : list skill) : list (nat * skill) :=
  combine (seq 0 (length rows)) rows.

(** Order of one sort key. pandas puts NaN last ([na_position='last'])
    whatever the direction. *)
Definition key_cmp (ascending : bool) (x y : float64) : comparison :=
  match x, y with
  | fin a, fin b => if ascending then (a ?= b)%Q else (b ?= a)%Q
  | fin _, nan => Lt
  | nan, fin _ => Gt
  | nan, nan => Eq
  end.

(** Several keys: the first key decides, the next ones break ties. *)
Fixpoint lex_cmp (by_ : list ((skill -> float64) * bool)) (s t : skill) : comparison :=
  match by_ with
  | [] => Eq
  | (col, ascending) :: rest =>
      match key_cmp ascending (col s) (col t) with
      | Eq => lex_cmp rest s t
      | c => c
      end
  end.

(** The sort behind [sort_values] with several keys is stable; a stable
    sort is determined by its order, so insertion stands for it. The
    element inserted comes before its equals: it was before them. *)
Fixpoint insert_row (cmp : skill -> skill -> comparison)
    (x : nat * skill) (l : list (nat * skill)) : list (nat * skill) :=
  match l with
  | [] => [x]
  | y :: l' =>
      match cmp (snd x) (snd y) with
      | Gt => y :: insert_row cmp x l'
      | _ => x :: l
      end
  end.

Definition sort_values (by_ : list (skill -> float64)) (ascending : list bool)
    (df : list (nat * skill)) : list (nat * skill) :=
  foldr (insert_row (lex_cmp (combine by_ ascending))) [] df.

(** [.head(1).index.values] *)
Definition head_index_values (df : list (nat * skill)) : list nat :=
  map fst (firstn 1 df).

(** [int(a)] on an array: only an array of one element converts. *)
Definition int_of_array (a : list nat) : result nat :=
  match a with
  | [k] => ok k
  | _ => raise (TypeError "only size-1 arrays can be converted to Python scalars")
  end.

(** [min_scaling_idx = retrieved_skill.sort_values(['r', 'rmse_corr'],
      ascending=[False, True]).head(1).index.values] *)
Definition min_scaling_idx (retrieved_skill : list (nat * skill)) : list nat :=
  head_index_values (sort_values [r; rmse_corr] [false; true] retrieved_skill).

(** [random_tests[int(min_scaling_idx)]] *)
Definition min_scaling_coeff {A} (random_tests : list A)
    (retrieved_skill : list (nat * skill)) : result A :=
  let! k := int_of_array (min_scaling_idx retrieved_skill) in
  list_item random_tests k.

(** The ranking as the specification words it: higher correlation is
    better; at equal correlation, lower bias-corrected RMSE is better.
    A NaN is worse than any number. *)
Definition r_better (x y : float64) : Prop :=
  match x, y with
  | fin a, fin b => (b < a)%Q
  | fin _, nan => True
  | nan, _ => False
  end.

Definition r_same (x y : float64) : Prop :=
  match x, y with
  | fin a, fin b => (a == b)%Q
  | nan, nan => True
  | _, _ => False
  end.

Definition rmse_no_worse (x y : float64) : Prop :=
  match x, y with
  | fin a, fin b => (a <= b)%Q
  | _, nan => True
  | nan, fin _ => False
  end.

Definition at_least_as_good (s t : skill) : Prop :=
  r_better (r s) (r t) \/ (r_same (r s) (r t) /\ rmse_no_worse (rmse_corr s) (rmse_corr t)).

(** *** The notebook around the selection *)

(** [CUTTER_SIZE], [WINDOW_SIZE], [H_RESAMPLE], [L_RESAMPLE],
    [MAX_STRETCH_LAYER], [MAX_STRETCH_OVERALL], [NUM_TESTS] *)
Definition CUTTER_SIZE : Q := 15.
Definition WINDOW_SIZE : Q := 5.
Definition H_RESAMPLE : Q := 1.
Definition L_RESAMPLE : Q := 50.
Definition MAX_STRETCH_LAYER : Q := 75 # 100.
Definition MAX_STRETCH_OVERALL : Q := 15 # 100.
Definition NUM_TESTS : N := 10000.

(** [smp_df]: the resampled SMP profile. *)
Record smp_frame : Type := {
  distance : list Q;
  density : list Q;
  force_median : list Q;
  l : list Q
}.

(** What the notebook takes from outside: the operating system, the SMP
    instrument library ([snowmicropyn]) and the helpers of the local
    package [smpfunc], whose source is not part of the repository. *)
Class SMP {R : Random} : Type := {
  (** a loaded SMP measurement, a pit density table, a table of samples *)
  Profile : Type;
  pit_frame : Type;
  samples : Type;
  os_listdir : string -> result (list string);
  Profile_load : string -> result Profile;
  preprocess : Profile -> Q -> result Profile;
  (** [p.detect_ground()], [p.detect_surface()]: the value found, and the
      profile with its marker set *)
  detect_ground : Profile -> result (Q * Profile);
  detect_surface : Profile -> result (Q * Profile);
  (** the first half of the matching cell: the pit of the profile, the
      first-guess density ([proksch2015.calc], [loewe2012.calc]) and its
      resampling on a regular grid ([np.interp]) *)
  first_guess : Profile -> result (smp_frame * pit_frame);
  relative_height : pit_frame -> list Q;
  (** Modelled from the spec: [smpfunc.random_stretch] draws the stretch
      factors of the layers from numpy's global generator (the spec's
      stochastic stretching; the generator is the one the notebook seeds)
      and from nothing else. *)
  random_stretch : nat -> Q -> Q -> prog rng (list Q);
  scale_profile : list Q -> list Q -> list Q -> Q -> Q -> result (list Q * list Q);
  extract_samples : list Q -> list Q -> list Q -> Q -> result samples;
  mean_samp : samples -> list Q;
  pd_concat : samples -> pit_frame -> result samples;
  assign_l_force_median : samples -> list Q -> list Q -> result samples;
  calc_skill : samples -> Q -> result skill
}.

(** [sorted] on file names *)
Fixpoint insert_name (x : string) (names : list string) : list string :=
  match names with
  | [] => [x]
  | y :: names' => if String.leb x y then x :: names else y :: insert_name x names'
  end.

Definition sorted (names : list string) : list string := foldr insert_name [] names.

(** [f.endswith(suffix)] *)
Definition endswith (f suffix : string) : bool :=
  String.prefix (String.rev suffix) (String.rev f).

(** [os.path.join(dir, f)] *)
Definition path_join (dir f : string) : string := dir +:+ "/" +:+ f.

Section Annex.

Context {R : Random} {N : NumPy} {S : SMP}.

(** What the matching cell leaves behind. *)
Record search : Type := {
  smp_df : smp_frame;
  density_df : pit_frame;
  random_tests : list (list Q);
  scaled_profiles : list (list Q * list Q);
  compare_profiles : list samples;
  retrieved_skill : list (nat * skill)
}.

(** What the selection cell leaves behind. *)
Record selection : Type := {
  selected_idx : nat;
  selected_coeff : list Q;
  scaled_l : list Q;
  scaled_force_median : list Q;
  matched : samples
}.

(** [np.random.seed(2019)] *)
Definition seed_cell : prog rng unit :=
  fun _ => (ok tt, RandomState 2019).

(** [load_smp] *)
Definition load_smp (smp_file : string) : result Profile :=
  let! p := Profile_load smp_file in
  let! p := preprocess p 0 in
  let! ground := detect_ground p in
  let! surface := detect_surface (snd ground) in
  ok (snd surface).

(** [file_list] and [smp_data = [load_smp(file) for file in file_list]] *)
Definition file_list (input_data : string) : result (list string) :=
  let! names := os_listdir input_data in
  ok (map (path_join input_data)
          (filter (fun f => endswith f ".pnt" = true) (sorted names))).

Definition smp_data_cell (input_data : string) : result (list Profile) :=
  let! files := file_list input_data in
  for_each load_smp files.

(** [np.ceil(len(smp_df.index)/L_RESAMPLE).astype(int)] *)
Definition num_sections (smp_df : smp_frame) : nat :=
  Z.to_nat (Qceiling (inject_Z (Z.of_nat (length (distance smp_df))) / L_RESAMPLE)).

(** The matching cell: [NUM_TESTS] random stretchings, each scaled,
    sampled at the cutter heights and scored. *)
Definition search_cell (num_tests : nat) (smp : Profile) : prog rng search :=
  let* fg := lift (first_guess smp) in
  let smp_df := fst fg in
  let density_df := snd fg in
  let* random_tests :=
    for_each_prog (fun x => random_stretch x MAX_STRETCH_OVERALL MAX_STRETCH_LAYER)
                  (replicate num_tests (num_sections smp_df)) in
  let* scaled_profiles :=
    lift (for_each (fun test => scale_profile test (distance smp_df) (density smp_df)
                                  L_RESAMPLE H_RESAMPLE) random_tests) in
  let* compare_profiles :=
    lift (for_each (fun dr => extract_samples (fst dr) (snd dr)
                                (relative_height density_df) CUTTER_SIZE)
                   scaled_profiles) in
  let* compare_profiles :=
    lift (for_each (fun profile => pd_concat profile density_df) compare_profiles) in
  let* retrieved_skill :=
    lift (for_each (fun profile => calc_skill profile CUTTER_SIZE) compare_profiles) in
  cret {| smp_df := smp_df;
          density_df := density_df;
          random_tests := random_tests;
          scaled_profiles := scaled_profiles;
          compare_profiles := compare_profiles;
          retrieved_skill := DataFrame retrieved_skill |}.

(** The selection cell. *)
Definition selection_cell (s : search) : result selection :=
  let smp_df := smp_df s in
  let density_df := density_df s in
  let min_scaling_idx := min_scaling_idx (retrieved_skill s) in
  let! min_scaling_coeff := min_scaling_coeff (random_tests s) (retrieved_skill s) in
  let! dl := scale_profile min_scaling_coeff (distance smp_df) (l smp_df)
               L_RESAMPLE H_RESAMPLE in
  let! df := scale_profile min_scaling_coeff (distance smp_df) (force_median smp_df)
               L_RESAMPLE H_RESAMPLE in
  let! k := int_of_array min_scaling_idx in
  let! best := list_item (compare_profiles s) k in
  let! sl := extract_samples (fst df) (snd dl) (relative_height density_df) CUTTER_SIZE in
  let! sf := extract_samples (fst df) (snd df) (relative_height density_df) CUTTER_SIZE in
  let! matched := assign_l_force_median best (mean_samp sl) (mean_samp sf) in
  ok {| selected_idx := k;
        selected_coeff := min_scaling_coeff;
        scaled_l := snd dl;
        scaled_force_median := snd df;
        matched := matched |}.

(** [density_k2020 = coeffs[0] + coeffs[1] * np.log(scaled_force_median)
      + coeffs[2] * np.log(scaled_force_median) * scaled_l
      + coeffs[3] * scaled_l] *)
Definition density_k2020 (coeffs scaled_force_median scaled_l : list Q)
    : result (list Q) :=
  let! c0 := list_item coeffs 0 in
  let! c1 := list_item coeffs 1 in
  let s1 := map (fun f => c0 + c1 * np_log f)%Q scaled_force_median in
  let! c2 := list_item coeffs 2 in
  let! t2 := broadcast Qmult (map (fun f => c2 * np_log f)%Q scaled_force_median)
               scaled_l in
  let! s2 := broadcast Qplus s1 t2 in
  let! c3 := list_item coeffs 3 in
  broadcast Qplus s2 (map (Qmult c3) scaled_l).

(** The notebook: seed, load the calibration profiles, take the twelfth
    ([smp_data[11]]), search, select, apply the coefficients. *)
Definition annex_notebook (input_data : string) (coeffs : list Q)
    : prog rng (search * selection * list Q) :=
  let* _ := seed_cell in
  let* smp_data := lift (smp_data_cell input_data) in
  let* smp := lift (list_item smp_data 11) in
  let* s := search_cell (N.to_nat NUM_TESTS) smp in
  let* sel := lift (selection_cell s) in
  let* rho := lift (density_k2020 coeffs (scaled_force_median sel) (scaled_l sel)) in
  cret (s, sel, rho).

End Annex.

(** *** The order of [sort_values] *)

Lemma Qcompare_trans (c : comparison) (x y z : Q) :
  (x ?= y)%Q = c -> (y ?= z)%Q = c -> (x ?= z)%Q = c.
Proof.
  destruct c; intros Hxy Hyz.
  - apply Qeq_alt. apply Qeq_alt in Hxy, Hyz. now rewrite Hxy.
  - apply Qlt_alt. apply Qlt_alt in Hxy, Hyz. now apply Qlt_trans with y.
  - apply Qgt_alt. apply Qgt_alt in Hxy, Hyz. now apply Qlt_trans with y.
Qed.

Lemma Qcompare_eq_l (x y z : Q) :
  (x ?= y)%Q = Eq -> (x ?= z)%Q = (y ?= z)%Q.
Proof. intros H. apply Qeq_alt in H. now rewrite H. Qed.

Lemma Qcompare_eq_r (x y z : Q) :
  (x ?= y)%Q = Eq -> (z ?= x)%Q = (z ?= y)%Q.
Proof. intros H. apply Qeq_alt in H. now rewrite H. Qed.

(** What a comparison must satisfy for "not greater" to be a total
    preorder. *)
Record comparison_laws {A} (cmp : A -> A -> comparison) : Prop := {
  cmp_opp : forall x y, cmp y x = CompOpp (cmp x y);
  cmp_trans : forall c x y z, cmp x y = c -> cmp y z = c -> cmp x z = c;
  cmp_eq_l : forall x y z, cmp x y = Eq -> cmp x z = cmp y z
}.

Lemma key_cmp_laws (ascending : bool) : comparison_laws (key_cmp ascending).
Proof.
  split.
  - intros [|a] [|b]; simpl; try reflexivity.
    destruct ascending; symmetry; apply Qcompare_antisym.
  - intros c [|a] [|b] [|d]; simpl; try congruence.
    destruct ascending; intros; eapply Qcompare_trans; eauto.
  - intros [|a] [|b] [|d]; simpl; try congruence.
    destruct ascending; intros H.
    + now apply Qcompare_eq_l.
    + symmetry. now apply Qcompare_eq_r.
Qed.

Lemma lex_cmp_laws (by_ : list ((skill -> float64) * bool)) :
  comparison_laws (lex_cmp by_).
Proof.
  induction by_ as [|[col asc] rest IH]; simpl.
  - split; intros; simpl; congruence.
  - pose proof (key_cmp_laws asc) as K. split.
    + intros x y. rewrite (cmp_opp _ K (col x) (col y)).
      destruct (key_cmp asc (col x) (col y)); simpl; auto.
      apply (cmp_opp _ IH).
    + intros c x y z.
      destruct (key_cmp asc (col x) (col y)) eqn:Exy;
        destruct (key_cmp asc (col y) (col z)) eqn:Eyz; intros Hxy Hyz;
        try congruence.
      * rewrite (cmp_trans _ K _ _ _ _ Exy Eyz). eapply (cmp_trans _ IH); eauto.
      * rewrite (cmp_eq_l _ K _ _ _ Exy), Eyz. congruence.
      * rewrite (cmp_eq_l _ K _ _ _ Exy), Eyz. congruence.
      * assert (key_cmp asc (col z) (col x) = Gt) as Hzx.
        { rewrite (cmp_opp _ K (col x) (col z)).
          assert (key_cmp asc (col z) (col y) = Eq) as Hzy
            by (rewrite (cmp_opp _ K (col y) (col z)), Eyz; reflexivity).
          rewrite (cmp_opp _ K (col z) (col x)), (cmp_eq_l _ K _ _ _ Hzy).
          rewrite (cmp_opp _ K (col x) (col y)), Exy. reflexivity. }
        rewrite (cmp_opp _ K (col z) (col x)), Hzx. simpl. congruence.
      * rewrite (cmp_trans _ K _ _ _ _ Exy Eyz). congruence.
      * assert (key_cmp asc (col z) (col x) = Lt) as Hzx.
        { assert (key_cmp asc (col z) (col y) = Eq) as Hzy
            by (rewrite (cmp_opp _ K (col y) (col z)), Eyz; reflexivity).
          rewrite (cmp_eq_l _ K _ _ _ Hzy).
          rewrite (cmp_opp _ K (col x) (col y)), Exy. reflexivity. }
        rewrite (cmp_opp _ K (col z) (col x)), Hzx. simpl. congruence.
      * rewrite (cmp_trans _ K _ _ _ _ Exy Eyz). congruence.
    + intros x y z.
      destruct (key_cmp asc (col x) (col y)) eqn:Exy; try congruence.
      intros Hxy. rewrite (cmp_eq_l _ K _ _ _ Exy).
      destruct (key_cmp asc (col y) (col z)); auto.
      now apply (cmp_eq_l _ IH).
Qed.

Definition not_after {A} (cmp : A -> A -> comparison) (x y : A) : Prop :=
  cmp x y <> Gt.

Lemma not_after_trans {A} (cmp : A -> A -> comparison) :
  comparison_laws cmp ->
  forall x y z, not_after cmp x y -> not_after cmp y z -> not_after cmp x z.
Proof.
  intros L x y z Hxy Hyz Hxz. unfold not_after in *.
  destruct (cmp x y) eqn:Exy; try congruence.
  - rewrite (cmp_eq_l _ L _ _ _ Exy) in Hxz. congruence.
  - destruct (cmp y z) eqn:Eyz; try congruence.
    + assert (cmp z y = Eq) as Hzy by (rewrite (cmp_opp _ L y z), Eyz; reflexivity).
      assert (cmp z x = Lt) as Hzx by (rewrite (cmp_opp _ L x z), Hxz; reflexivity).
      rewrite (cmp_eq_l _ L _ _ _ Hzy) in Hzx.
      rewrite (cmp_opp _ L x y), Exy in Hzx. discriminate.
    + rewrite (cmp_trans _ L _ _ _ _ Exy Eyz) in Hxz. discriminate.
Qed.

Lemma not_after_of_Gt {A} (cmp : A -> A -> comparison) :
  comparison_laws cmp -> forall x y, cmp x y = Gt -> not_after cmp y x.
Proof.
  intros L x y H. unfold not_after. rewrite (cmp_opp _ L x y), H. discriminate.
Qed.

Lemma not_after_refl {A} (cmp : A -> A -> comparison) :
  comparison_laws cmp -> forall x, not_after cmp x x.
Proof.
  intros L x H. pose proof (cmp_opp _ L x x) as E. rewrite H in E. discriminate.
Qed.

(** *** The sorted frame *)

Lemma insert_row_In cmp (x z : nat * skill) (l : list (nat * skill)) :
  In z (insert_row cmp x l) <-> z = x \/ In z l.
Proof.
  induction l as [|y l IH]; simpl.
  - intuition.
  - destruct (cmp (snd x) (snd y)); simpl; rewrite ?IH; intuition.
Qed.

Lemma sort_values_In by_ ascending (df : list (nat * skill)) (z : nat * skill) :
  In z (sort_values by_ ascending df) <-> In z df.
Proof.
  unfold sort_values. induction df as [|x df IH]; simpl.
  - tauto.
  - rewrite insert_row_In, IH. intuition.
Qed.

Lemma sort_values_head by_ ascending (df : list (nat * skill)) h rest :
  sort_values by_ ascending df = h :: rest ->
  forall z, In z df ->
    not_after (lex_cmp (combine by_ ascending)) (snd h) (snd z).
Proof.
  unfold sort_values.
  set (cmp := lex_cmp (combine by_ ascending)).
  assert (L : comparison_laws cmp) by apply lex_cmp_laws.
  revert h rest. induction df as [|x df IH]; intros h rest E z Hz.
  - destruct Hz.
  - simpl in E. destruct (foldr (insert_row cmp) [] df) as [|y s] eqn:Es.
    + assert (df = []) as ->.
      { destruct df as [|w df']; auto.
        assert (In w []) as [].
        rewrite <- Es. apply (sort_values_In by_ ascending (w :: df') w). now left. }
      simpl in E. injection E as <- <-. destruct Hz as [<-|[]].
      now apply not_after_refl.
    + simpl in E. destruct (cmp (snd x) (snd y)) eqn:Exy.
      * injection E as <- <-. destruct Hz as [<-|Hz]; [now apply not_after_refl|].
        apply (not_after_trans cmp L _ (snd y)); [unfold not_after; congruence|].
        now apply (IH y s).
      * injection E as <- <-. destruct Hz as [<-|Hz]; [now apply not_after_refl|].
        apply (not_after_trans cmp L _ (snd y)); [unfold not_after; congruence|].
        now apply (IH y s).
      * injection E as <- <-. destruct Hz as [<-|Hz].
        -- now apply not_after_of_Gt.
        -- now apply (IH y s).
Qed.

Lemma In_combine_seq {A} (rows : list A) (start i : nat) (s : A) :
  In (i, s) (combine (seq start (length rows)) rows) <->
  start <= i /\ nth_error rows (i - start) = Some s.
Proof.
  revert start. induction rows as [|x rows IH]; intros start; simpl.
  - split; [tauto|]. intros [_ H]. destruct (i - start); discriminate.
  - rewrite IH. split.
    + intros [E|[Hle H]].
      * injection E as <- <-. rewrite Nat.sub_diag. auto.
      * split; [lia|]. replace (i - start) with (S (i - S start)) by lia. exact H.
    + intros [Hle H]. destruct (i - start) as [|k] eqn:Ek.
      * left. simpl in H. injection H as <-. f_equal. lia.
      * right. split; [lia|]. replace (i - S start) with k by lia. exact H.
Qed.

Lemma In_DataFrame (rows : list skill) (i : nat) (s : skill) :
  In (i, s) (DataFrame rows) <-> nth_error rows i = Some s.
Proof.
  unfold DataFrame. rewrite In_combine_seq, Nat.sub_0_r. intuition lia.
Qed.

Lemma ranking_not_after (s t : skill) :
  not_after (lex_cmp (combine [r; rmse_corr] [false; true])) s t ->
  at_least_as_good s t.
Proof.
  unfold not_after, at_least_as_good. simpl.
  destruct (r s) as [|a], (r t) as [|b]; simpl; try tauto; try congruence.
  - intros H. right. split; [exact I|].
    destruct (rmse_corr s) as [|c], (rmse_corr t) as [|d]; simpl in *;
      try tauto; try congruence.
    apply Qle_alt. destruct (c ?= d)%Q; congruence.
  - destruct (b ?= a)%Q eqn:E.
    + intros H. right. split; [apply Qeq_alt in E; now symmetry|].
      destruct (rmse_corr s) as [|c], (rmse_corr t) as [|d]; simpl in *;
        try tauto; try congruence.
      apply Qle_alt. destruct (c ?= d)%Q; congruence.
    + intros _. left. now apply Qlt_alt.
    + congruence.
Qed.

(** The search always selects one candidate when there is one. *)
Lemma min_scaling_idx_total (skills : list skill) :
  skills <> [] -> exists k, int_of_array (min_scaling_idx (DataFrame skills)) = ok k.
Proof.
  intros Hne. unfold min_scaling_idx, head_index_values.
  destruct (sort_values [r; rmse_corr] [false; true] (DataFrame skills))
    as [|[k s] rest] eqn:E.
  - destruct skills as [|s0 skills]; [congruence|].
    assert (In (0, s0) []) as [].
    rewrite <- E. apply sort_values_In, In_DataFrame. reflexivity.
  - exists k. reflexivity.
Qed.

(** The row that [min_scaling_idx] names is a row of the table and is at
    least as good as every row. *)
Lemma min_scaling_idx_best (skills : list skill) (k : nat) :
  int_of_array (min_scaling_idx (DataFrame skills)) = ok k ->
  exists s, nth_error skills k = Some s /\
    forall i t, nth_error skills i = Some t -> at_least_as_good s t.
Proof.
  unfold min_scaling_idx, head_index_values.
  destruct (sort_values [r; rmse_corr] [false; true] (DataFrame skills))
    as [|[k' s] rest] eqn:E; simpl; [discriminate|].
  intros H. injection H as <-.
  exists s. split.
  - apply In_DataFrame, (sort_values_In [r; rmse_corr] [false; true]).
    rewrite E. now left.
  - intros i t Ht. apply ranking_not_after.
    apply (sort_values_head _ _ _ _ _ E (i, t)). now apply In_DataFrame.
Qed.

Definition sample_skills : list skill :=
  [ {| r := fin (1#2); rmse := fin 40; rmse_corr := fin 30; mae := fin 25 |};
    {| r := fin (9#10); rmse := fin 35; rmse_corr := fin 28; mae := fin 20 |};
    {| r := nan; rmse := fin 50; rmse_corr := fin 10; mae := fin 45 |};
    {| r := fin (9#10); rmse := fin 30; rmse_corr := fin 21; mae := fin 18 |} ].

(** Rows 1 and 3 have the highest correlation; row 3 has the lower
    bias-corrected RMSE of the two; the row with NaN comes last. *)
Example min_scaling_idx_sample :
  min_scaling_idx (DataFrame sample_skills) = [3].
Proof. reflexivity. Qed.

Section AnnexFacts.

Context {R : Random} {N : NumPy} {S : SMP}.

(** C1. The stretching candidate that the alignment search selects is
    greatest under its ranking (correlation [r] descending, ties broken by
    bias-corrected RMSE ascending) among all sampled candidates: there is
    one score per sampled candidate, the selected one is the candidate at
    the selected position, and its score is at least as good as the score
    of every candidate. *)
Theorem selected_candidate_is_best (num_tests : nat) (smp : Profile) (g g' : rng)
    (s : search) (sel : selection) :
  search_cell num_tests smp g = (ok s, g') ->
  selection_cell s = ok sel ->
  exists skills sk,
    retrieved_skill s = DataFrame skills /\
    length skills = length (random_tests s) /\
    length skills = num_tests /\
    nth_error skills (selected_idx sel) = Some sk /\
    random_tests s !! selected_idx sel = Some (selected_coeff sel) /\
    forall i t, nth_error skills i = Some t -> at_least_as_good sk t.
Proof.
  intros Hsearch Hsel. unfold search_cell in Hsearch.
  apply cbind_ok_inv in Hsearch as (fg & g1 & E1 & Hsearch).
  apply lift_ok_inv in E1 as [-> _]. cbv zeta in Hsearch.
  apply cbind_ok_inv in Hsearch as (tests & g2 & Etests & Hsearch).
  apply for_each_prog_length in Etests. rewrite length_replicate in Etests.
  apply cbind_ok_inv in Hsearch as (scaled & g3 & E3 & Hsearch).
  apply lift_ok_inv in E3 as [-> E3]. apply for_each_length in E3.
  apply cbind_ok_inv in Hsearch as (sampled & g4 & E4 & Hsearch).
  apply lift_ok_inv in E4 as [-> E4]. apply for_each_length in E4.
  apply cbind_ok_inv in Hsearch as (compared & g5 & E5 & Hsearch).
  apply lift_ok_inv in E5 as [-> E5]. apply for_each_length in E5.
  apply cbind_ok_inv in Hsearch as (skills & g6 & E6 & Hsearch).
  apply lift_ok_inv in E6 as [-> E6]. apply for_each_length in E6.
  apply cret_inv in Hsearch as [_ ->].
  unfold selection_cell in Hsel. cbv zeta in Hsel. simpl in Hsel.
  apply rbind_ok_inv in Hsel as (coeff & Hcoeff & Hsel).
  apply rbind_ok_inv in Hsel as (dl & _ & Hsel).
  apply rbind_ok_inv in Hsel as (df & _ & Hsel).
  apply rbind_ok_inv in Hsel as (k & Hk & Hsel).
  apply rbind_ok_inv in Hsel as (best & _ & Hsel).
  apply rbind_ok_inv in Hsel as (sl & _ & Hsel).
  apply rbind_ok_inv in Hsel as (sf & _ & Hsel).
  apply rbind_ok_inv in Hsel as (m & _ & Hsel).
  injection Hsel as <-. simpl.
  destruct (min_scaling_idx_best skills k Hk) as (sk & Hsk & Hbest).
  unfold min_scaling_coeff in Hcoeff. rewrite Hk in Hcoeff. simpl in Hcoeff.
  exists skills, sk. repeat split; try assumption; try congruence.
  unfold list_item in Hcoeff.
  destruct (tests !! k) as [c|] eqn:Ec; [|discriminate].
  injection Hcoeff as <-. reflexivity.
Qed.

End AnnexFacts.

End Matching.

(** * K-fold partitioning of the recalibration

    [KFold(n_splits = 10, shuffle = True, random_state = RANDOM_SEED)] and
    [k_fold.split(result)]. The splitter is scikit-learn's, which the
    notebook calls and the repository does not contain; the definitions
    follow the library's procedure: shuffle [arange(n_samples)] with a
    generator seeded by [random_state], cut it into [n_splits] consecutive
    chunks (the first [n_samples % n_splits] one longer), turn each chunk
    into a boolean mask and yield [(indices[~mask], indices[mask])]. *)

Module KFold.

Definition RANDOM_SEED : Z := 2019%Z.

(** [fold_sizes = np.full(n_splits, n_samples // n_splits)];
    [fold_sizes[:n_samples % n_splits] += 1] *)
Definition fold_sizes (n_splits n_samples : nat) : list nat :=
  map (fun i => n_samples / n_splits + (if i <? n_samples mod n_splits then 1 else 0))
      (seq 0 n_splits).

(** [indices[start:stop]] *)
Definition slice {A} (indices : list A) (start stop : nat) : list A :=
  firstn (stop - start) (skipn start indices).

(** The loop of [_iter_test_indices]: [current] runs over the chunk
    boundaries. *)
Fixpoint iter_chunks (indices : list nat) (current : nat) (sizes : list nat)
    : list (list nat) :=
  match sizes with
  | [] => []
  | fold_size :: rest =>
      slice indices current (current + fold_size)
        :: iter_chunks indices (current + fold_size) rest
  end.

(** [test_mask = np.zeros(n_samples, dtype=bool)];
    [test_mask[test_index] = True]. (An index out of range would raise;
    the chunks hold none.) *)
Definition test_mask (n_samples : nat) (test_index : list nat) : list bool :=
  foldr (fun i mask => <[i := true]> mask) (replicate n_samples false) test_index.

(** [KFold(n_splits, shuffle, random_state)]; [random_state] is a seed or
    [None]. *)
Record KFold : Type := {
  n_splits : nat;
  shuffle : bool;
  random_state : option Z
}.

(** [k_fold = KFold(n_splits = 10, shuffle = True, random_state = RANDOM_SEED)] *)
Definition k_fold : KFold :=
  {| n_splits := 10; shuffle := true; random_state := Some RANDOM_SEED |}.

Section Split.

Context {R : Random}.

(** Which permutation a shuffle gives depends on the generator; that it
    is one does not. *)
Hypothesis rng_shuffle_Permutation :
  forall g l, Permutation (fst (rng_shuffle g l)) l.

(** [check_random_state(random_state)]: numpy's global generator for
    [None], a generator of its own, seeded, for a seed. *)
Definition check_random_state (random_state : option Z) (global : rng) : rng :=
  match random_state with
  | None => global
  | Some seed => RandomState seed
  end.

(** [indices = np.arange(n_samples)], shuffled if [shuffle] *)
Definition arranged (kf : KFold) (global : rng) (n_samples : nat) : list nat :=
  if shuffle kf then
    fst (rng_shuffle (check_random_state (random_state kf) global) (seq 0 n_samples))
  else seq 0 n_samples.

(** The global generator afterwards: it has moved only if it did the
    shuffle. *)
Definition global_after (kf : KFold) (global : rng) (n_samples : nat) : rng :=
  match shuffle kf, random_state kf with
  | true, None => snd (rng_shuffle global (seq 0 n_samples))
  | _, _ => global
  end.

Definition iter_test_indices (kf : KFold) (global : rng) (n_samples : nat)
    : list (list nat) :=
  iter_chunks (arranged kf global n_samples) 0 (fold_sizes (n_splits kf) n_samples).

(** [split]: the pairs [(train_idx, test_idx)], in fold order. *)
Definition split (kf : KFold) (n_samples : nat) : prog rng (list (list nat * list nat)) :=
  fun global =>
    if n_samples <? n_splits kf then
      (raise (ValueError "Cannot have number of splits greater than the number of samples"),
       global)
    else
      (ok (map (fun test_index =>
                  let mask := test_mask n_samples test_index in
                  let indices := seq 0 n_samples in
                  (select indices (map negb mask), select indices mask))
               (iter_test_indices kf global n_samples)),
       global_after kf global n_samples).

(** [k_fold.split(result)] for a frame of [n_samples] rows, with numpy's
    global generator in the state [global]. *)
Definition k_fold_split (global : rng) (n_samples : nat)
    : result (list (list nat * list nat)) :=
  fst (split k_fold n_samples global).

(** *** Sizes and chunks *)

Lemma fold_sizes_sum_upto (q rm m : nat) :
  list_sum (map (fun i => q + (if i <? rm then 1 else 0)) (seq 0 m)) = m * q + Nat.min m rm.
Proof.
  induction m as [|m IH].
  - reflexivity.
  - rewrite seq_S, map_app, list_sum_app, IH. cbn -[Nat.min Nat.mul Nat.ltb].
    destruct (Nat.ltb_spec m rm); lia.
Qed.

Lemma fold_sizes_sum (n_splits n_samples : nat) :
  0 < n_splits -> list_sum (fold_sizes n_splits n_samples) = n_samples.
Proof.
  intros Hpos. unfold fold_sizes. rewrite fold_sizes_sum_upto.
  pose proof (Nat.mod_upper_bound n_samples n_splits).
  pose proof (Nat.div_mod_eq n_samples n_splits). lia.
Qed.

Lemma fold_sizes_length (n_splits n_samples : nat) :
  length (fold_sizes n_splits n_samples) = n_splits.
Proof. unfold fold_sizes. now rewrite length_map, length_seq. Qed.

Lemma iter_chunks_length indices current sizes :
  length (iter_chunks indices current sizes) = length sizes.
Proof.
  revert current. induction sizes as [|sz rest IH]; intros current; simpl; auto.
Qed.

Lemma iter_chunks_concat (indices : list nat) (current : nat) (sizes : list nat) :
  concat (iter_chunks indices current sizes)
  = slice indices current (current + list_sum sizes).
Proof.
  revert current. induction sizes as [|sz rest IH]; intros current; simpl.
  - unfold slice. now replace (current + 0 - current) with 0 by lia.
  - rewrite IH. unfold slice.
    replace (current + sz - current) with sz by lia.
    replace (current + sz + list_sum rest - (current + sz)) with (list_sum rest) by lia.
    replace (current + (sz + list_sum rest) - current) with (sz + list_sum rest) by lia.
    rewrite <- (take_take_drop (skipn current indices) sz (list_sum rest)).
    now rewrite drop_drop.
Qed.

Lemma arranged_Permutation (kf : KFold) (global : rng) (n_samples : nat) :
  Permutation (arranged kf global n_samples) (seq 0 n_samples).
Proof.
  unfold arranged. destruct (shuffle kf); [apply rng_shuffle_Permutation|reflexivity].
Qed.

Lemma iter_test_indices_concat (kf : KFold) (global : rng) (n_samples : nat) :
  0 < n_splits kf ->
  concat (iter_test_indices kf global n_samples) = arranged kf global n_samples.
Proof.
  intros Hpos. unfold iter_test_indices.
  rewrite iter_chunks_concat, fold_sizes_sum by assumption.
  unfold slice. simpl. rewrite Nat.sub_0_r.
  apply firstn_all2.
  rewrite (Permutation_length (arranged_Permutation kf global _)), length_seq. lia.
Qed.

(** *** Masks *)

Lemma test_mask_length n_samples test_index :
  length (test_mask n_samples test_index) = n_samples.
Proof.
  unfold test_mask. induction test_index as [|a t IH]; simpl.
  - apply length_replicate.
  - now rewrite length_insert.
Qed.

Lemma test_mask_lookup n_samples test_index (i : nat) :
  i < n_samples ->
  test_mask n_samples test_index !! i = Some (bool_decide (i ∈ test_index)).
Proof.
  intros Hi. unfold test_mask. induction test_index as [|a t IH]; simpl.
  - rewrite lookup_replicate_2 by assumption. reflexivity.
  - destruct (decide (a = i)) as [->|Hne].
    + rewrite list_lookup_insert_eq.
      * f_equal. symmetry. apply bool_decide_eq_true. apply list_elem_of_In. now left.
      * fold (test_mask n_samples t). now rewrite test_mask_length.
    + rewrite list_lookup_insert_ne by assumption. rewrite IH. f_equal.
      apply bool_decide_ext. rewrite !list_elem_of_In. simpl. intuition.
Qed.

Lemma In_select_seq (mask : list bool) (start n i : nat) :
  length mask = n ->
  In i (select (seq start n) mask) <->
  start <= i < start + n /\ mask !! (i - start) = Some true.
Proof.
  revert start mask. induction n as [|n IH]; intros start mask Hlen.
  - simpl. split; [tauto|lia].
  - destruct mask as [|b mask]; [discriminate|]. simpl in Hlen.
    injection Hlen as Hlen. simpl.
    assert (In i (select (seq (S start) n) mask) <->
            S start <= i < S start + n /\ mask !! (i - S start) = Some true) as IH'
      by now apply IH.
    destruct b; simpl; rewrite IH'.
    + split.
      * intros [<-|[Hr Hl]].
        -- rewrite Nat.sub_diag. split; [lia|reflexivity].
        -- split; [lia|]. replace (i - start) with (S (i - S start)) by lia. exact Hl.
      * intros [Hr Hl]. destruct (decide (start = i)) as [->|Hne]; [now left|].
        right. split; [lia|].
        replace (i - start) with (S (i - S start)) in Hl by lia. exact Hl.
    + split.
      * intros [Hr Hl]. split; [lia|].
        replace (i - start) with (S (i - S start)) by lia. exact Hl.
      * intros [Hr Hl]. destruct (decide (start = i)) as [->|Hne].
        -- rewrite Nat.sub_diag in Hl. discriminate.
        -- split; [lia|].
           replace (i - start) with (S (i - S start)) in Hl by lia. exact Hl.
Qed.

Lemma In_test_idx n_samples test_index (i : nat) :
  In i (select (seq 0 n_samples) (test_mask n_samples test_index)) <->
  i < n_samples /\ In i test_index.
Proof.
  rewrite In_select_seq by apply test_mask_length. rewrite Nat.sub_0_r.
  split.
  - intros [Hr Hl]. split; [lia|]. rewrite test_mask_lookup in Hl by lia.
    injection Hl as Hl. apply bool_decide_eq_true in Hl. now apply list_elem_of_In.
  - intros [Hr Hin]. split; [lia|]. rewrite test_mask_lookup by lia.
    f_equal. apply bool_decide_eq_true. now apply list_elem_of_In.
Qed.

Lemma In_train_idx n_samples test_index (i : nat) :
  In i (select (seq 0 n_samples) (map negb (test_mask n_samples test_index))) <->
  i < n_samples /\ ~ In i test_index.
Proof.
  rewrite In_select_seq by (rewrite length_map; apply test_mask_length).
  rewrite Nat.sub_0_r. split.
  - intros [Hr Hl]. split; [lia|].
    change (negb <$> test_mask n_samples test_index) with
      (map negb (test_mask n_samples test_index)) in Hl.
    rewrite (list_lookup_fmap negb), test_mask_lookup in Hl by lia.
    simpl in Hl. injection Hl as Hl. apply negb_true_iff in Hl.
    apply bool_decide_eq_false in Hl. now rewrite <- list_elem_of_In.
  - intros [Hr Hin]. split; [lia|].
    rewrite (list_lookup_fmap negb), test_mask_lookup by lia.
    simpl. f_equal. apply negb_true_iff. apply bool_decide_eq_false.
    now rewrite list_elem_of_In.
Qed.

Lemma select_In {A} (indices : list A) (mask : list bool) (x : A) :
  In x (select indices mask) -> In x indices.
Proof.
  revert mask. induction indices as [|y l IH]; intros [|b mask]; simpl; try tauto.
  destruct b; simpl; intros H.
  - destruct H as [H|H]; [now left|right; eauto].
  - right; eauto.
Qed.

Lemma select_NoDup {A} (indices : list A) (mask : list bool) :
  List.NoDup indices -> List.NoDup (select indices mask).
Proof.
  revert mask. induction indices as [|y l IH]; intros [|b mask] Hnd; simpl;
    try constructor.
  inversion Hnd as [|? ? Hy Hl]; subst. destruct b.
  - constructor; [|now apply IH].
    intros H. apply Hy. now apply select_In in H.
  - now apply IH.
Qed.

(** *** Chunks of a duplicate-free list are disjoint *)

Lemma concat_NoDup_disjoint (chunks : list (list nat)) :
  List.NoDup (concat chunks) ->
  forall j1 j2 c1 c2 i,
    nth_error chunks j1 = Some c1 -> nth_error chunks j2 = Some c2 ->
    j1 <> j2 -> In i c1 -> ~ In i c2.
Proof.
  induction chunks as [|c chunks IH]; intros Hnd j1 j2 c1 c2 i H1 H2 Hne Hi1 Hi2.
  - destruct j1; discriminate.
  - simpl in Hnd. apply NoDup_ListNoDup, NoDup_app in Hnd as (Hc & Hdisj & Hrest).
    apply NoDup_ListNoDup in Hrest.
    destruct j1 as [|j1], j2 as [|j2]; simpl in H1, H2.
    + congruence.
    + injection H1 as <-. apply (Hdisj i); [now apply list_elem_of_In|].
      apply list_elem_of_In, in_concat. exists c2. split; [|assumption].
      now apply nth_error_In with j2.
    + injection H2 as <-. apply (Hdisj i); [now apply list_elem_of_In|].
      apply list_elem_of_In, in_concat. exists c1. split; [|assumption].
      now apply nth_error_In with j1.
    + apply (IH Hrest j1 j2 c1 c2 i); auto.
Qed.

Lemma arranged_NoDup (kf : KFold) (global : rng) (n_samples : nat) :
  List.NoDup (arranged kf global n_samples).
Proof.
  eapply Permutation_NoDup.
  - apply Permutation_sym, arranged_Permutation.
  - apply List.seq_NoDup.
Qed.

Lemma arranged_In (kf : KFold) (global : rng) (n_samples i : nat) :
  In i (arranged kf global n_samples) <-> i < n_samples.
Proof.
  split.
  - intros H. apply (Permutation_in _ (arranged_Permutation kf global _)) in H.
    apply in_seq in H. lia.
  - intros H.
    apply (Permutation_in _ (Permutation_sym (arranged_Permutation kf global _))).
    apply in_seq. lia.
Qed.

Lemma split_ok_inv (kf : KFold) (global : rng) (n_samples : nat) folds :
  fst (split kf n_samples global) = ok folds ->
  n_splits kf <= n_samples /\
  folds = map (fun test_index =>
                 (select (seq 0 n_samples) (map negb (test_mask n_samples test_index)),
                  select (seq 0 n_samples) (test_mask n_samples test_index)))
              (iter_test_indices kf global n_samples).
Proof.
  unfold split. destruct (Nat.ltb_spec n_samples (n_splits kf)); [discriminate|].
  simpl. intros E. split; [assumption|]. unfold ok in E. congruence.
Qed.

Lemma split_lookup (kf : KFold) (global : rng) (n_samples : nat) folds j tr te :
  fst (split kf n_samples global) = ok folds ->
  nth_error folds j = Some (tr, te) ->
  exists chunk,
    nth_error (iter_test_indices kf global n_samples) j = Some chunk /\
    tr = select (seq 0 n_samples) (map negb (test_mask n_samples chunk)) /\
    te = select (seq 0 n_samples) (test_mask n_samples chunk).
Proof.
  intros Hs. apply split_ok_inv in Hs as [_ ->]. rewrite nth_error_map.
  destruct (nth_error (iter_test_indices kf global n_samples) j) as [chunk|];
    cbn [option_map]; [|discriminate].
  intros E. exists chunk. split; [reflexivity|]. split; congruence.
Qed.

Lemma chunk_in_range (kf : KFold) (global : rng) (n_samples : nat) j chunk i :
  0 < n_splits kf ->
  nth_error (iter_test_indices kf global n_samples) j = Some chunk ->
  In i chunk -> i < n_samples.
Proof.
  intros Hpos Hj Hi. apply (arranged_In kf global).
  rewrite <- (iter_test_indices_concat kf) by assumption.
  apply in_concat. exists chunk. split; [|assumption].
  now apply nth_error_In with j.
Qed.

(** C2. The 10-fold partitioning of the recalibration: [split] yields its
    ten folds for every frame of at least ten rows (below that the
    splitter raises), and whenever it yields them the ten test index sets
    are pairwise disjoint, their union is the full set of row indices,
    and in each fold the training set is the complement of the test set.
    Test and training sets list no index twice. *)
Theorem k_fold_covers_every_row_once (global : rng) (n_samples : nat) :
  (10 <= n_samples -> exists folds, k_fold_split global n_samples = ok folds) /\
  forall folds, k_fold_split global n_samples = ok folds ->
    length folds = 10 /\
    (forall j1 j2 tr1 te1 tr2 te2 i,
        nth_error folds j1 = Some (tr1, te1) ->
        nth_error folds j2 = Some (tr2, te2) ->
        j1 <> j2 -> In i te1 -> ~ In i te2) /\
    (forall i, i < n_samples <->
        exists j tr te, nth_error folds j = Some (tr, te) /\ In i te) /\
    (forall j tr te, nth_error folds j = Some (tr, te) ->
        List.NoDup te /\ List.NoDup tr /\
        forall i, In i tr <-> i < n_samples /\ ~ In i te).
Proof.
  assert (Hpos : 0 < n_splits k_fold) by (simpl; lia).
  split.
  { intros Hn. unfold k_fold_split, split.
    destruct (Nat.ltb_spec n_samples (n_splits k_fold)); [simpl in *; lia|].
    simpl. eauto. }
  intros folds Hs. unfold k_fold_split in Hs.
  split; [|split; [|split]].
  - apply split_ok_inv in Hs as [_ ->].
    rewrite length_map. unfold iter_test_indices.
    now rewrite iter_chunks_length, fold_sizes_length.
  - intros j1 j2 tr1 te1 tr2 te2 i H1 H2 Hne Hi1 Hi2.
    destruct (split_lookup _ _ _ _ _ _ _ Hs H1) as (c1 & Hc1 & _ & ->).
    destruct (split_lookup _ _ _ _ _ _ _ Hs H2) as (c2 & Hc2 & _ & ->).
    apply In_test_idx in Hi1 as [_ Hi1]. apply In_test_idx in Hi2 as [_ Hi2].
    assert (List.NoDup (concat (iter_test_indices k_fold global n_samples))) as Hnd
      by (rewrite iter_test_indices_concat by assumption; apply arranged_NoDup).
    exact (concat_NoDup_disjoint _ Hnd j1 j2 c1 c2 i Hc1 Hc2 Hne Hi1 Hi2).
  - intros i. split.
    + intros Hi. apply (arranged_In k_fold global) in Hi as Hin.
      rewrite <- (iter_test_indices_concat k_fold) in Hin by assumption.
      apply in_concat in Hin as (chunk & Hchunk & Hic).
      apply In_nth_error in Hchunk as [j Hj].
      apply split_ok_inv in Hs as [_ ->].
      eexists j, _, _. split.
      * rewrite nth_error_map, Hj. reflexivity.
      * apply In_test_idx. auto.
    + intros (j & tr & te & Hj & Hi).
      destruct (split_lookup _ _ _ _ _ _ _ Hs Hj) as (c & Hc & _ & ->).
      now apply In_test_idx in Hi as [Hi _].
  - intros j tr te Hj.
    destruct (split_lookup _ _ _ _ _ _ _ Hs Hj) as (c & Hc & -> & ->).
    split; [apply select_NoDup, List.seq_NoDup|].
    split; [apply select_NoDup, List.seq_NoDup|].
    intros i. rewrite In_train_idx, In_test_idx.
    split; [|tauto]. intros [Hi Hn]. split; [assumption|]. tauto.
Qed.

End Split.

Section SplitFacts.

Context {R : Random}.

(** A seeded generator never needs the global one. *)
Lemma split_seeded (kf : KFold) (seed : Z) (n_samples : nat) (g1 g2 : rng) :
  random_state kf = Some seed ->
  fst (split kf n_samples g1) = fst (split kf n_samples g2) /\
  snd (split kf n_samples g1) = g1.
Proof.
  intros Hseed. unfold split, iter_test_indices, arranged, global_after.
  rewrite Hseed. simpl.
  destruct (n_samples <? n_splits kf); simpl; [auto|].
  split; [reflexivity|]. destruct (shuffle kf); reflexivity.
Qed.

End SplitFacts.

(** A generator to run the splitter on: its state is a counter, its
    shuffle reverses the list. *)
Definition toy_random : Random :=
  {| rng := Z;
     RandomState := fun seed => seed;
     rng_shuffle := fun g l => (rev l, (g + 1)%Z) |}.

Lemma toy_shuffle_Permutation (g : @rng toy_random) (l : list nat) :
  Permutation (fst (@rng_shuffle toy_random g l)) l.
Proof. apply Permutation_sym, Permutation_rev. Qed.

Example k_fold_split_12 :
  @k_fold_split toy_random 0%Z 12 =
    ok [ ([0; 1; 2; 3; 4; 5; 6; 7; 8; 9], [10; 11]);
         ([0; 1; 2; 3; 4; 5; 6; 7; 10; 11], [8; 9]);
         ([0; 1; 2; 3; 4; 5; 6; 8; 9; 10; 11], [7]);
         ([0; 1; 2; 3; 4; 5; 7; 8; 9; 10; 11], [6]);
         ([0; 1; 2; 3; 4; 6; 7; 8; 9; 10; 11], [5]);
         ([0; 1; 2; 3; 5; 6; 7; 8; 9; 10; 11], [4]);
         ([0; 1; 2; 4; 5; 6; 7; 8; 9; 10; 11], [3]);
         ([0; 1; 3; 4; 5; 6; 7; 8; 9; 10; 11], [2]);
         ([0; 2; 3; 4; 5; 6; 7; 8; 9; 10; 11], [1]);
         ([1; 2; 3; 4; 5; 6; 7; 8; 9; 10; 11], [0]) ].
Proof. reflexivity. Qed.

Example k_fold_split_too_few :
  @k_fold_split toy_random 0%Z 9 =
    raise (ValueError "Cannot have number of splits greater than the number of samples").
Proof. reflexivity. Qed.

Lemma k_fold_covers_every_row_once_witness :
  (10 <= 23 -> exists folds, @k_fold_split toy_random 0%Z 23 = ok folds) /\
  forall folds, @k_fold_split toy_random 0%Z 23 = ok folds ->
    length folds = 10 /\
    (forall j1 j2 tr1 te1 tr2 te2 i,
        nth_error folds j1 = Some (tr1, te1) ->
        nth_error folds j2 = Some (tr2, te2) ->
        j1 <> j2 -> In i te1 -> ~ In i te2) /\
    (forall i, i < 23 <->
        exists j tr te, nth_error folds j = Some (tr, te) /\ In i te) /\
    (forall j tr te, nth_error folds j = Some (tr, te) ->
        List.NoDup te /\ List.NoDup tr /\
        forall i, In i tr <-> i < 23 /\ ~ In i te).
Proof.
  apply (@k_fold_covers_every_row_once toy_random toy_shuffle_Permutation 0%Z 23).
Defined.

End KFold.

(** * The recalibration notebook *)

Module Recalibration.

(** ** Data frames

    A frame has its row labels and its columns by name; numeric columns
    ([RHO], [force_log], [l], [mean_samp], ...) and text columns
    ([ice_type], [TYPE], [campaign]) are kept apart. A series is the list
    of its values; every series a cell combines comes from frames with one
    index, so that pandas' alignment on labels is the identity. *)

Record frame : Type := {
  index : list nat;
  num_cols : gmap string (list Q);
  txt_cols : gmap string (list string)
}.

(** [len(df)] *)
Definition len (df : frame) : nat := length (index df).

(** [df[col]] *)
Definition getitem (df : frame) (col : string) : result (list Q) :=
  match num_cols df !! col with
  | Some s => ok s
  | None => raise (KeyError col)
  end.

(** [df[col] = values]: the column is added or replaced, in place for the
    object; here the updated object is returned. *)
Definition setitem (df : frame) (col : string) (values : list Q) : result frame :=
  if length values =? len df then
    ok {| index := index df;
          num_cols := <[col := values]> (num_cols df);
          txt_cols := txt_cols df |}
  else raise (ValueError "Length of values does not match length of index").

(** [df[mask]]: a new frame with the rows where [mask] holds. *)
Definition filter_rows (df : frame) (mask : list bool) : result frame :=
  if length mask =? len df then
    ok {| index := select (index df) mask;
          num_cols := (fun c => select c mask) <$> num_cols df;
          txt_cols := (fun c => select c mask) <$> txt_cols df |}
  else raise (IndexError "Item wrong length").

(** [df.iloc[idx]]: a new frame with the rows at the positions [idx];
    pandas checks the positions against the length of the frame first. *)
Definition iloc (df : frame) (idx : list nat) : result frame :=
  if forallb (fun i => i <? len df) idx then
    ok {| index := gather (index df) idx;
          num_cols := (fun c => gather c idx) <$> num_cols df;
          txt_cols := (fun c => gather c idx) <$> txt_cols df |}
  else raise (IndexError "positional indexers are out-of-bounds").

(** [df.copy()]: a new object with the same content. *)
Definition copy (df : frame) : frame :=
  {| index := index df; num_cols := num_cols df; txt_cols := txt_cols df |}.

(** ** The fitted model

    [ols(formula, data).fit().params.values]: patsy orders the terms of
    [force_log + force_log * l] by degree, so that the parameters come as
    Intercept, [force_log], [l], [force_log:l]. *)
Record ols_params : Type := {
  Intercept : Q;
  coef_force_log : Q;
  coef_l : Q;
  coef_force_log_l : Q
}.

Definition values (p : ols_params) : list Q :=
  [Intercept p; coef_force_log p; coef_l p; coef_force_log_l p].

(** [model.predict(exog=dict(force_log=..., l=...))]: the design row
    [1, force_log, l, force_log * l] times the parameters. *)
Definition predict (p : ols_params) (force_log l : list Q) : result (list Q) :=
  zip_with_same
    (fun f li => (Intercept p * 1 + coef_force_log p * f + coef_l p * li
                  + coef_force_log_l p * (f * li))%Q)
    force_log l.

(** What the notebook takes from statsmodels and scipy without looking
    inside: the OLS fit and the p-value of [stats.pearsonr]. *)
Class Library : Type := {
  ols_fit : string -> frame -> result ols_params;
  pearsonr_p : list Q -> list Q -> Q
}.

(** ** Arrays of parameters *)

Inductive ndarray : Type :=
| Arr1 (a : list Q)
| Arr2 (rows : list (list Q)).

(** [np.vstack((params, row))] *)
Definition vstack (params : ndarray) (row : list Q) : result ndarray :=
  match params with
  | Arr1 a =>
      if length a =? length row then ok (Arr2 [a; row])
      else raise (ValueError "all the input array dimensions must match exactly")
  | Arr2 rows =>
      if forallb (fun r => length r =? length row) rows then ok (Arr2 (rows ++ [row]))
      else raise (ValueError "all the input array dimensions must match exactly")
  end.

(** [params[:,k]] *)
Definition column (params : option ndarray) (k : nat) : result (list Q) :=
  match params with
  | None => raise (TypeError "'NoneType' object is not subscriptable")
  | Some (Arr1 _) => raise (IndexError "too many indices for array")
  | Some (Arr2 rows) =>
      for_each (fun row => match row !! k with
                           | Some x => ok x
                           | None => raise (IndexError "index is out of bounds for axis 1")
                           end) rows
  end.

(** ** The coefficients and the density estimate *)

Definition formula_a : string := "RHO ~ force_log + force_log * l".
Definition formula_b : string := "RHO ~ force_log + force_log * l + l".

Section Coefficients.

Context {N : NumPy}.

(** [[np.round(params[:,0].mean(),2), np.round(params[:,1].mean(),2),
      np.round(params[:,3].mean(),2), np.round(params[:,2].mean(),2)]] *)
Definition model_coeff (params : option ndarray) : result (list Q) :=
  let! c0 := column params 0 in
  let! c1 := column params 1 in
  let! c3 := column params 3 in
  let! c2 := column params 2 in
  ok [np_round (np_mean c0) 2; np_round (np_mean c1) 2;
      np_round (np_mean c3) 2; np_round (np_mean c2) 2].

(** [var_coeffs], the same with [std] for [mean]. *)
Definition var_coeffs (params : option ndarray) : result (list Q) :=
  let! c0 := column params 0 in
  let! c1 := column params 1 in
  let! c3 := column params 3 in
  let! c2 := column params 2 in
  ok [np_round (np_std c0) 2; np_round (np_std c1) 2;
      np_round (np_std c3) 2; np_round (np_std c2) 2].

(** [coeff[0] + (coeff[1]*df['force_log']) + (coeff[2]*df['force_log']*df['l'])
      + coeff[3]*df['l']] *)
Definition apply_coeff (coeff : list Q) (df : frame) : result (list Q) :=
  let! c0 := list_item coeff 0 in
  let! c1 := list_item coeff 1 in
  let! force_log := getitem df "force_log" in
  let! c2 := list_item coeff 2 in
  let! force_log' := getitem df "force_log" in
  let! l := getitem df "l" in
  let! t2 := zip_with_same Qmult (map (Qmult c2) force_log') l in
  let! s2 := zip_with_same Qplus (map (fun x => c0 + c1 * x)%Q force_log) t2 in
  let! c3 := list_item coeff 3 in
  let! l' := getitem df "l" in
  zip_with_same Qplus s2 (map (Qmult c3) l').

End Coefficients.

(** ** The notebook kernel

    Names are bound to values; a frame is an object on the heap and a name
    holds a reference to it, so that two names can share one frame. A cell
    is a computation on the kernel; when a statement raises, the cell stops
    there and the kernel keeps what the statements before it did. *)

Definition loc : Type := nat.

Inductive value : Type :=
| VFrame (l : loc)
| VSeries (s : list Q)
| VFloat (x : float64)
| VInt (n : Z)
| VList (l : list Q)
| VArray (a : ndarray)
| VNone.

(** What [pickle] and [to_pickle] leave in a file. *)
Inductive pickled : Type :=
| PList (l : list Q)
| PFrame (df : frame).

Record kernel : Type := {
  heap : gmap loc frame;
  vars : gmap string value;
  files : gmap string pickled
}.

Definition cell (A : Type) : Type := prog kernel A.

(** Reading a name *)
Definition lookup_var (x : string) : cell value :=
  fun k =>
    match vars k !! x with
    | Some v => (ok v, k)
    | None => (raise (NameError x), k)
    end.

(** [x = v] *)
Definition assign (x : string) (v : value) : cell unit :=
  fun k => (ok tt, {| heap := heap k; vars := <[x := v]> (vars k); files := files k |}).

(** A new object *)
Definition alloc (df : frame) : cell loc :=
  fun k =>
    let l := fresh (dom (heap k)) in
    (ok l, {| heap := <[l := df]> (heap k); vars := vars k; files := files k |}).

(** Writing an object in place *)
Definition store (l : loc) (df : frame) : cell unit :=
  fun k => (ok tt, {| heap := <[l := df]> (heap k); vars := vars k; files := files k |}).

(** [pickle.dump(obj, open(filename, 'wb'))] *)
Definition pickle_dump (filename : string) (obj : pickled) : cell unit :=
  fun k => (ok tt, {| heap := heap k; vars := vars k;
                     files := <[filename := obj]> (files k) |}).

(** The frame a name refers to, with its address *)
Definition frame_ref (x : string) : cell (loc * frame) :=
  let* v := lookup_var x in
  match v with
  | VFrame l =>
      fun k => match heap k !! l with
               | Some df => (ok (l, df), k)
               | None => (raise (NameError x), k)
               end
  | _ => lift (raise (TypeError "not a DataFrame"))
  end.

Definition frame_of (x : string) : cell frame :=
  let* p := frame_ref x in cret (snd p).

Definition series_of (x : string) : cell (list Q) :=
  let* v := lookup_var x in
  match v with
  | VSeries s => cret s
  | _ => lift (raise (TypeError "not a Series"))
  end.

Definition list_of (x : string) : cell (list Q) :=
  let* v := lookup_var x in
  match v with
  | VList l => cret l
  | _ => lift (raise (TypeError "not a list"))
  end.

Definition params_of (x : string) : cell (option ndarray) :=
  let* v := lookup_var x in
  match v with
  | VArray a => cret (Some a)
  | VNone => cret None
  | _ => lift (raise (TypeError "not an array"))
  end.

(** [x[col]] *)
Definition column_of (x col : string) : cell (list Q) :=
  let* df := frame_of x in lift (getitem df col).

(** [x[col] = values]: the object [x] refers to changes; every name that
    refers to it sees the change. *)
Definition setitem_of (x col : string) (values : list Q) : cell unit :=
  let* p := frame_ref x in
  let* df' := lift (setitem (snd p) col values) in
  store (fst p) df'.

(** Cells run one after the other; the first exception ends the run. *)
Fixpoint run_all (cells : list (cell unit)) : cell unit :=
  match cells with
  | [] => cret tt
  | c :: cells' => let* _ := c in run_all cells'
  end.

(** ** The cells *)

Definition smp_pit_filtered : string := "./output/smp_pit_filtered.pkl".
Definition density_k20a_coeffs : string := "./output/density_k20a_coeffs.pkl".
Definition density_k20b_coeffs : string := "./output/density_k20b_coeffs.pkl".

(** [pd.read_pickle(filename)] *)
Definition read_pickle (filename : string) : cell frame :=
  fun k =>
    match files k !! filename with
    | Some (PFrame df) => (ok df, k)
    | Some (PList _) => (raise (TypeError "not a DataFrame"), k)
    | None => (raise (FileNotFoundError filename), k)
    end.

(** A one-dimensional array under a name, whichever way it was built *)
Definition array_of (x : string) : cell (list Q) :=
  let* v := lookup_var x in
  match v with
  | VArray (Arr1 a) => cret a
  | VList a => cret a
  | VSeries a => cret a
  | _ => lift (raise (TypeError "not a one-dimensional array"))
  end.

Section Cells.

Context {R : Random} {N : NumPy} {L : Library}.

(** The state of numpy's global generator while the notebook runs. *)
Variable global : rng.

(** [result = pd.read_pickle('./output/smp_pit_filtered.pkl')];
    [result['force_log'] = np.log(result['force_median'])] *)
Definition cell_load : cell unit :=
  let* df := read_pickle smp_pit_filtered in
  let* l := alloc df in
  let* _ := assign "result" (VFrame l) in
  let* force_median := column_of "result" "force_median" in
  setitem_of "result" "force_log" (map np_log force_median).

(** [rmse = []; error = []; r = []; params = None] *)
Definition cv_begin : cell unit :=
  let* _ := assign "rmse" (VList []) in
  let* _ := assign "error" (VList []) in
  let* _ := assign "r" (VList []) in
  assign "params" VNone.

(** The body of [for train_idx, test_idx in k_fold.split(data)]. The
    accumulators are names of the kernel, bound again statement by
    statement; [train], [test], [model_rho] and [predict_rho] are read by
    no other cell and are left out of the kernel. *)
Definition cv_body (data formula : string) (fold : list nat * list nat) : cell unit :=
  (* train = data.iloc[train_idx]; test = data.iloc[test_idx] *)
  let* df := frame_of data in
  let* train := lift (iloc df (fst fold)) in
  let* df' := frame_of data in
  let* test := lift (iloc df' (snd fold)) in
  (* model_rho = ols(formula, train).fit() *)
  let* model_rho := lift (ols_fit formula train) in
  (* predict_rho = model_rho.predict(exog=dict(force_log=test['force_log'],
                                               l=test['l'])) *)
  let* test_force_log := lift (getitem test "force_log") in
  let* test_l := lift (getitem test "l") in
  let* predict_rho := lift (predict model_rho test_force_log test_l) in
  (* rmse = np.append(rmse, np.sqrt(np.mean((predict_rho - test['RHO'])**2))) *)
  let* rmse := array_of "rmse" in
  let* test_RHO := lift (getitem test "RHO") in
  let* diff := lift (zip_with_same Qminus predict_rho test_RHO) in
  let* _ := assign "rmse"
              (VArray (Arr1 (rmse ++ [np_sqrt (np_mean (map (fun d => d ^ 2)%Q diff))]))) in
  (* r = np.append(r, np.corrcoef(predict_rho, test['RHO'])[1][0]) *)
  let* r := array_of "r" in
  let* test_RHO1 := lift (getitem test "RHO") in
  let* _ := assign "r" (VArray (Arr1 (r ++ [np_corrcoef predict_rho test_RHO1]))) in
  (* error = np.append(error, predict_rho - test['RHO']) *)
  let* error := array_of "error" in
  let* test_RHO2 := lift (getitem test "RHO") in
  let* diff2 := lift (zip_with_same Qminus predict_rho test_RHO2) in
  let* _ := assign "error" (VArray (Arr1 (error ++ diff2))) in
  (* if params is None: params = model_rho.params.values
     else: params = np.vstack((params, model_rho.params.values)) *)
  let* params := params_of "params" in
  match params with
  | None => assign "params" (VArray (Arr1 (values model_rho)))
  | Some p =>
      let* stacked := lift (vstack p (values model_rho)) in
      assign "params" (VArray stacked)
  end.

(** The K-fold cell over the frame [data]:
    [k_fold = KFold(n_splits = 10, shuffle = True, random_state = RANDOM_SEED)],
    the accumulators, and the loop over [k_fold.split(data)]. *)
Definition cell_kfold (data formula : string) : cell unit :=
  let* _ := cv_begin in
  let* df := frame_of data in
  let* folds := lift (KFold.k_fold_split global (len df)) in
  for_loop (cv_body data formula) folds.

(** [k20x_rmse = rmse.mean()]; [k20x_bias = error.mean()];
    [k20x_r2 = r.mean()**2]; the prints read [len(data)] and
    [data.RHO.mean()]. *)
Definition cell_stats (prefix data : string) : cell unit :=
  let* rmse := array_of "rmse" in
  let* _ := assign (prefix +:+ "_rmse") (VFloat (fin (np_mean rmse))) in
  let* error := array_of "error" in
  let* _ := assign (prefix +:+ "_bias") (VFloat (fin (np_mean error))) in
  let* r := array_of "r" in
  let* _ := assign (prefix +:+ "_r2") (VFloat (fin (np_mean r ^ 2)%Q)) in
  let* _ := frame_of data in
  let* _ := column_of data "RHO" in
  cret tt.

(** [model_k20x_coeff = [...]]; [var_coeffs = [...]];
    [pickle.dump(model_k20x_coeff, open(filename, 'wb'))] *)
Definition cell_coeff (name filename : string) : cell unit :=
  let* params := params_of "params" in
  let* coeff := lift (model_coeff params) in
  let* _ := assign name (VList coeff) in
  let* params' := params_of "params" in
  let* var := lift (var_coeffs params') in
  let* _ := assign "var_coeffs" (VList var) in
  let* coeff' := list_of name in
  pickle_dump filename (PList coeff').

(** [k20x_rho = coeff[0] + (coeff[1]*data['force_log']) + ...] *)
Definition cell_apply (target coeff data : string) : cell unit :=
  let* c := list_of coeff in
  let* df := frame_of data in
  let* rho := lift (apply_coeff c df) in
  assign target (VSeries rho).

(** The outlier cell. *)
Definition cell_outliers : cell unit :=
  (* result_lim = result.copy() *)
  let* result := frame_of "result" in
  let* l_lim := alloc (copy result) in
  let* _ := assign "result_lim" (VFrame l_lim) in
  (* result_lim['f_l'] = (result_lim['l'])*result_lim['force_log'] *)
  let* l := column_of "result_lim" "l" in
  let* force_log := column_of "result_lim" "force_log" in
  let* f_l := lift (zip_with_same Qmult l force_log) in
  let* _ := setitem_of "result_lim" "f_l" f_l in
  (* result_lim['abs_error'] = np.abs(k20a_rho - result_lim['RHO']) *)
  let* k20a_rho := series_of "k20a_rho" in
  let* RHO := column_of "result_lim" "RHO" in
  let* diff := lift (zip_with_same Qminus k20a_rho RHO) in
  let* _ := setitem_of "result_lim" "abs_error" (map Qabs diff) in
  (* q_95 = result_lim['abs_error'].quantile(0.95) *)
  let* abs_error := column_of "result_lim" "abs_error" in
  let q_95 := quantile (95 # 100) abs_error in
  let* _ := assign "q_95" (VFloat q_95) in
  (* result_lim = result_lim[result_lim['abs_error'] < q_95] *)
  let* df := frame_of "result_lim" in
  let* abs_error' := column_of "result_lim" "abs_error" in
  let* kept := lift (filter_rows df (map (fun e => float_lt e q_95) abs_error')) in
  let* l_kept := alloc kept in
  let* _ := assign "result_lim" (VFrame l_kept) in
  (* n_removed  = len(result) - len(result_lim) *)
  let* result' := frame_of "result" in
  let* result_lim' := frame_of "result_lim" in
  let* _ := assign "n_removed"
              (VInt (Z.of_nat (len result') - Z.of_nat (len result_lim'))) in
  (* print('Error threshold: %i kg m^-3' % q_95) *)
  match q_95 with
  | nan => lift (raise (ValueError "cannot convert float NaN to integer"))
  | fin _ => cret tt
  end.

(** The P15 statistics at the head of the Figure 4 cell. *)
Definition cell_p2015 : cell unit :=
  let* mean_samp := column_of "result" "mean_samp" in
  let* RHO := column_of "result" "RHO" in
  let* diff := lift (zip_with_same Qminus mean_samp RHO) in
  let* _ := assign "p2015_rmse"
              (VFloat (fin (np_sqrt (np_mean (map (fun d => d ^ 2)%Q diff))))) in
  let* err := column_of "result" "error" in
  let* _ := assign "p2015_bias" (VFloat (fin (np_mean err))) in
  let* mean_samp1 := column_of "result" "mean_samp" in
  let* RHO1 := column_of "result" "RHO" in
  let* _ := assign "p2015_r2" (VFloat (fin (np_corrcoef mean_samp1 RHO1 ^ 2)%Q)) in
  let* mean_samp2 := column_of "result" "mean_samp" in
  let* _ := assign "p2015_n" (VInt (Z.of_nat (length mean_samp2))) in
  let* mean_samp3 := column_of "result" "mean_samp" in
  let* RHO3 := column_of "result" "RHO" in
  assign "p2015_p" (VFloat (fin (pearsonr_p mean_samp3 RHO3))).

(** The last cells: the K20b estimate and its errors become columns of
    [result_lim]. *)
Definition cell_metrics : cell unit :=
  let* k20b_rho := series_of "k20b_rho" in
  let* _ := setitem_of "result_lim" "model_rho" k20b_rho in
  let* k20b_rho1 := series_of "k20b_rho" in
  let* RHO := column_of "result_lim" "RHO" in
  let* diff := lift (zip_with_same Qminus k20b_rho1 RHO) in
  let* _ := setitem_of "result_lim" "abs_error" (map Qabs diff) in
  let* k20b_rho2 := series_of "k20b_rho" in
  let* RHO2 := column_of "result_lim" "RHO" in
  let* diff2 := lift (zip_with_same Qminus k20b_rho2 RHO2) in
  setitem_of "result_lim" "error" diff2.

(** The notebook from the first K-fold cell on (figures left out: they
    read data and write image files only). *)
Definition recalibration_a : list (cell unit) :=
  [ cell_kfold "result" formula_a;
    cell_stats "k20a" "result";
    cell_coeff "model_k20a_coeff" density_k20a_coeffs;
    cell_apply "k20a_rho" "model_k20a_coeff" "result" ].

Definition recalibration_b : list (cell unit) :=
  [ cell_kfold "result_lim" formula_b;
    cell_stats "k20b" "result_lim";
    cell_coeff "model_k20b_coeff" density_k20b_coeffs;
    cell_apply "k20b_rho" "model_k20b_coeff" "result_lim" ].

Definition notebook : list (cell unit) :=
  cell_load :: recalibration_a ++ cell_outliers :: recalibration_b
    ++ [cell_p2015; cell_metrics].

End Cells.

(** ** Facts: the coefficient vector *)

(** The columns of the stacked parameters are the fitted parameters, in
    patsy's order. *)
Lemma column_stack (P : list ols_params) :
  column (Some (Arr2 (map values P))) 0 = ok (map Intercept P) /\
  column (Some (Arr2 (map values P))) 1 = ok (map coef_force_log P) /\
  column (Some (Arr2 (map values P))) 2 = ok (map coef_l P) /\
  column (Some (Arr2 (map values P))) 3 = ok (map coef_force_log_l P).
Proof.
  unfold column. repeat split.
  - rewrite (for_each_ok _ (fun row => nth 0 row 0%Q)), map_map; [reflexivity|].
    intros row Hrow. apply in_map_iff in Hrow as (p & <- & _). reflexivity.
  - rewrite (for_each_ok _ (fun row => nth 1 row 0%Q)), map_map; [reflexivity|].
    intros row Hrow. apply in_map_iff in Hrow as (p & <- & _). reflexivity.
  - rewrite (for_each_ok _ (fun row => nth 2 row 0%Q)), map_map; [reflexivity|].
    intros row Hrow. apply in_map_iff in Hrow as (p & <- & _). reflexivity.
  - rewrite (for_each_ok _ (fun row => nth 3 row 0%Q)), map_map; [reflexivity|].
    intros row Hrow. apply in_map_iff in Hrow as (p & <- & _). reflexivity.
Qed.

(** The vector as the notebook builds it: intercept, force term,
    interaction term, length term. *)
Definition persisted_coeff (P : list ols_params) : list Q :=
  [ np_round (np_mean (map Intercept P)) 2;
    np_round (np_mean (map coef_force_log P)) 2;
    np_round (np_mean (map coef_force_log_l P)) 2;
    np_round (np_mean (map coef_l P)) 2 ].

(** The vector in the order the specification gives: intercept, force
    term, length term, interaction term. *)
Definition claimed_coeff (P : list ols_params) : list Q :=
  [ np_round (np_mean (map Intercept P)) 2;
    np_round (np_mean (map coef_force_log P)) 2;
    np_round (np_mean (map coef_l P)) 2;
    np_round (np_mean (map coef_force_log_l P)) 2 ].

Lemma model_coeff_stack (P : list ols_params) :
  model_coeff (Some (Arr2 (map values P))) = ok (persisted_coeff P).
Proof.
  unfold model_coeff. destruct (column_stack P) as (-> & -> & -> & ->).
  reflexivity.
Qed.

Lemma model_coeff_length (params : option ndarray) (coeff : list Q) :
  model_coeff params = ok coeff -> length coeff = 4.
Proof.
  unfold model_coeff.
  destruct (column params 0); simpl; [discriminate|].
  destruct (column params 1); simpl; [discriminate|].
  destruct (column params 3); simpl; [discriminate|].
  destruct (column params 2); simpl; [discriminate|].
  intros E. injection E as <-. reflexivity.
Qed.

(** ** Facts: what a cell leaves alone *)

(** A computation that only reads the kernel. *)
Definition reads {A} (m : cell A) : Prop :=
  forall k, snd (m k) = k.

(** A computation that leaves one part of the kernel as it was. *)
Definition keeps {T A} (part : kernel -> T) (m : cell A) : Prop :=
  forall k, part (snd (m k)) = part k.

Create HintDb keeps discriminated.

Lemma reads_cret {A} (a : A) : reads (cret a).
Proof. intros k. reflexivity. Qed.

Lemma reads_lift {A} (m : result A) : reads (lift m).
Proof. intros k. reflexivity. Qed.

Lemma reads_cbind {A B} (m : cell A) (f : A -> cell B) :
  reads m -> (forall a, reads (f a)) -> reads (cbind m f).
Proof.
  intros Hm Hf k. unfold cbind. specialize (Hm k).
  destruct (m k) as [[e|a] k1]; simpl in *; [assumption|].
  rewrite (Hf a k1). assumption.
Qed.

Lemma reads_lookup_var x : reads (lookup_var x).
Proof. intros k. unfold lookup_var. destruct (vars k !! x); reflexivity. Qed.

Lemma reads_read_pickle f : reads (read_pickle f).
Proof.
  intros k. unfold read_pickle. destruct (files k !! f) as [[]|]; reflexivity.
Qed.

#[export] Hint Resolve reads_cret reads_lift reads_lookup_var reads_read_pickle : keeps.

Ltac reads_step :=
  match goal with
  | |- reads (cbind _ _) => apply reads_cbind; [|intros ?]
  | |- reads (match ?v with _ => _ end) => destruct v
  | |- reads (fun k => match heap k !! ?l with _ => _ end) =>
      let k := fresh "k" in intros k; destruct (heap k !! l); reflexivity
  | |- reads _ => solve [auto with keeps]
  end.

Lemma reads_frame_ref x : reads (frame_ref x).
Proof. unfold frame_ref. repeat reads_step. Qed.

#[export] Hint Resolve reads_frame_ref : keeps.

Lemma reads_frame_of x : reads (frame_of x).
Proof. unfold frame_of. repeat reads_step. Qed.

Lemma reads_series_of x : reads (series_of x).
Proof. unfold series_of. repeat reads_step. Qed.

Lemma reads_list_of x : reads (list_of x).
Proof. unfold list_of. repeat reads_step. Qed.

Lemma reads_params_of x : reads (params_of x).
Proof. unfold params_of. repeat reads_step. Qed.

Lemma reads_array_of x : reads (array_of x).
Proof. unfold array_of. repeat reads_step. Qed.

#[export] Hint Resolve reads_frame_of reads_series_of reads_list_of
  reads_params_of reads_array_of : keeps.

Lemma reads_column_of x col : reads (column_of x col).
Proof. unfold column_of. repeat reads_step. Qed.

#[export] Hint Resolve reads_column_of : keeps.

Lemma reads_ok_inv {A} (m : cell A) k a k' :
  reads m -> m k = (ok a, k') -> k' = k.
Proof. intros H E. specialize (H k). rewrite E in H. exact H. Qed.

Lemma reads_keeps {T A} (part : kernel -> T) (m : cell A) :
  reads m -> keeps part m.
Proof. intros H k. now rewrite H. Qed.

Lemma keeps_cbind {T A B} (part : kernel -> T) (m : cell A) (f : A -> cell B) :
  keeps part m -> (forall a, keeps part (f a)) -> keeps part (cbind m f).
Proof.
  intros Hm Hf k. unfold cbind. specialize (Hm k).
  destruct (m k) as [[e|a] k1]; simpl in *; [assumption|].
  rewrite (Hf a k1). assumption.
Qed.

Lemma keeps_for_loop {T A} (part : kernel -> T) (body : A -> cell unit) (xs : list A) :
  (forall x, keeps part (body x)) -> keeps part (for_loop body xs).
Proof.
  intros Hbody. induction xs as [|x xs IH]; simpl.
  - intros k. reflexivity.
  - apply keeps_cbind; [apply Hbody|intros _; apply IH].
Qed.

(** Files: only [pickle_dump] writes one. *)
Lemma keeps_files_assign x v : keeps files (assign x v).
Proof. intros k. reflexivity. Qed.

Lemma keeps_files_alloc df : keeps files (alloc df).
Proof. intros k. reflexivity. Qed.

Lemma keeps_files_store l df : keeps files (store l df).
Proof. intros k. reflexivity. Qed.

(** Names: only [assign] binds one. *)
Lemma keeps_var_assign x y v :
  x <> y -> keeps (fun k => vars k !! x) (assign y v).
Proof. intros Hne k. simpl. now apply lookup_insert_ne. Qed.

Lemma keeps_vars_alloc df : keeps vars (alloc df).
Proof. intros k. reflexivity. Qed.

Lemma keeps_vars_store l df : keeps vars (store l df).
Proof. intros k. reflexivity. Qed.

Lemma keeps_vars_pickle_dump f obj : keeps vars (pickle_dump f obj).
Proof. intros k. reflexivity. Qed.

Lemma keeps_var_of_vars {A} x (m : cell A) :
  keeps vars m -> keeps (fun k => vars k !! x) m.
Proof. intros H k. simpl. now rewrite H. Qed.

(** Objects: [alloc] makes a new one, [store] writes one. *)
Lemma keeps_heap_assign x v : keeps heap (assign x v).
Proof. intros k. reflexivity. Qed.

Lemma keeps_heap_pickle_dump f obj : keeps heap (pickle_dump f obj).
Proof. intros k. reflexivity. Qed.

#[export] Hint Resolve keeps_files_assign keeps_files_alloc keeps_files_store
  keeps_vars_alloc keeps_vars_store keeps_vars_pickle_dump
  keeps_heap_assign keeps_heap_pickle_dump : keeps.

(** One step of a straight-line proof that a cell keeps something. *)
Ltac keeps_step :=
  match goal with
  | |- keeps _ (cbind _ _) => apply keeps_cbind; [|intros ?]
  | |- keeps _ (for_loop _ _) => apply keeps_for_loop; intros ?
  | |- keeps _ (match ?v with _ => _ end) => destruct v
  | |- keeps (fun k => vars k !! _) (assign _ _) =>
      apply keeps_var_assign; cbn; discriminate
  | |- keeps _ _ => solve [auto with keeps]
  | |- keeps _ _ => solve [apply reads_keeps; auto with keeps]
  | |- keeps (fun k => vars k !! _) _ =>
      solve [apply keeps_var_of_vars; auto with keeps]
  end.

Lemma keeps_files_setitem_of x col vs : keeps files (setitem_of x col vs).
Proof. unfold setitem_of. repeat keeps_step. Qed.

Lemma keeps_vars_setitem_of x col vs : keeps vars (setitem_of x col vs).
Proof. unfold setitem_of. repeat keeps_step. Qed.

#[export] Hint Resolve keeps_files_setitem_of keeps_vars_setitem_of : keeps.

Section CellFacts.

Context {R : Random} {N : NumPy} {L : Library}.

(** The state of numpy's global generator while the notebook runs. *)
Variable global : rng.

Lemma keeps_files_cell_load : keeps files cell_load.
Proof. unfold cell_load. repeat keeps_step. Qed.

Lemma keeps_files_cell_kfold data formula : keeps files (cell_kfold global data formula).
Proof. unfold cell_kfold, cv_begin, cv_body. repeat keeps_step. Qed.

Lemma keeps_heap_cell_kfold data formula : keeps heap (cell_kfold global data formula).
Proof. unfold cell_kfold, cv_begin, cv_body. repeat keeps_step. Qed.

(** The loop binds its accumulators and no other name. *)
Lemma keeps_var_cv_body data formula fold x :
  x <> "rmse" -> x <> "r" -> x <> "error" -> x <> "params" ->
  keeps (fun k => vars k !! x) (cv_body data formula fold).
Proof.
  intros Hrmse Hr Herror Hparams. unfold cv_body.
  repeat first [keeps_step | apply keeps_var_assign; congruence].
Qed.

Lemma keeps_heap_cv_body data formula fold : keeps heap (cv_body data formula fold).
Proof. unfold cv_body. repeat keeps_step. Qed.

Lemma keeps_files_cell_stats prefix data : keeps files (cell_stats prefix data).
Proof. unfold cell_stats. repeat keeps_step. Qed.

Lemma keeps_heap_cell_stats prefix data : keeps heap (cell_stats prefix data).
Proof. unfold cell_stats. repeat keeps_step. Qed.

Lemma keeps_files_cell_apply target coeff data :
  keeps files (cell_apply target coeff data).
Proof. unfold cell_apply. repeat keeps_step. Qed.

Lemma keeps_heap_cell_apply target coeff data :
  keeps heap (cell_apply target coeff data).
Proof. unfold cell_apply. repeat keeps_step. Qed.

Lemma keeps_heap_cell_coeff name filename : keeps heap (cell_coeff name filename).
Proof. unfold cell_coeff. repeat keeps_step. Qed.

Lemma keeps_files_cell_outliers : keeps files cell_outliers.
Proof. unfold cell_outliers. repeat keeps_step. Qed.

Lemma keeps_files_cell_p2015 : keeps files cell_p2015.
Proof. unfold cell_p2015. repeat keeps_step. Qed.

Lemma keeps_heap_cell_p2015 : keeps heap cell_p2015.
Proof. unfold cell_p2015. repeat keeps_step. Qed.

Lemma keeps_files_cell_metrics : keeps files cell_metrics.
Proof. unfold cell_metrics. repeat keeps_step. Qed.

(** The statistics cells bind [k20a_rmse], [k20a_bias], [k20a_r2] (or
    the [k20b] ones): not [params]. *)
Lemma keeps_params_cell_stats_a data :
  keeps (fun k => vars k !! "params") (cell_stats "k20a" data).
Proof. unfold cell_stats. repeat keeps_step. Qed.

Lemma keeps_params_cell_stats_b data :
  keeps (fun k => vars k !! "params") (cell_stats "k20b" data).
Proof. unfold cell_stats. repeat keeps_step. Qed.

End CellFacts.

(** ** Facts: the K-fold loop *)

(** What [params] holds after the folds fitted so far. *)
Definition stack (P : list ols_params) : option ndarray :=
  match P with
  | [] => None
  | [p] => Some (Arr1 (values p))
  | _ => Some (Arr2 (map values P))
  end.

(** The value the name [params] holds. *)
Definition params_value (p : option ndarray) : value :=
  match p with
  | Some a => VArray a
  | None => VNone
  end.

(** The parameters [p] are those fitted on the training rows of [fold]. *)
Definition fitted {L : Library} (formula : string) (data : frame)
    (fold : list nat * list nat) (p : ols_params) : Prop :=
  exists train, iloc data (fst fold) = ok train /\ ols_fit formula train = ok p.

Lemma stack_snoc (P : list ols_params) (model : ols_params) params' :
  match stack P with
  | None => ok (Arr1 (values model))
  | Some p => vstack p (values model)
  end = ok params' ->
  Some params' = stack (P ++ [model]).
Proof.
  destruct P as [|p [|q P]]; simpl.
  - intros E. injection E as <-. reflexivity.
  - intros E. injection E as <-. reflexivity.
  - destruct (forallb _ _); [|discriminate].
    intros E. injection E as <-. rewrite map_app. reflexivity.
Qed.

(** Running a straight-line cell backwards from its result. *)

Lemma assign_inv x v k (u : unit) k' :
  assign x v k = (ok u, k') ->
  k' = {| heap := heap k; vars := <[x := v]> (vars k); files := files k |}.
Proof. unfold assign. intros E. inversion E. reflexivity. Qed.

Lemma alloc_inv df k l k' :
  alloc df k = (ok l, k') ->
  l = fresh (dom (heap k)) /\
  k' = {| heap := <[l := df]> (heap k); vars := vars k; files := files k |}.
Proof. unfold alloc. intros E. inversion E. auto. Qed.

Lemma store_inv l df k (u : unit) k' :
  store l df k = (ok u, k') ->
  k' = {| heap := <[l := df]> (heap k); vars := vars k; files := files k |}.
Proof. unfold store. intros E. inversion E. reflexivity. Qed.

Lemma lookup_var_ok_inv x k v k' :
  lookup_var x k = (ok v, k') -> k' = k /\ vars k !! x = Some v.
Proof.
  unfold lookup_var. destruct (vars k !! x); intros E; [|discriminate].
  inversion E. auto.
Qed.

Lemma frame_ref_ok_inv x k l df k' :
  frame_ref x k = (ok (l, df), k') ->
  k' = k /\ vars k !! x = Some (VFrame l) /\ heap k !! l = Some df.
Proof.
  unfold frame_ref. intros E. apply cbind_ok_inv in E as (v & k1 & E1 & E).
  apply lookup_var_ok_inv in E1 as [-> Hv].
  destruct v; try discriminate.
  destruct (heap k !! l0) eqn:Eh; [|discriminate].
  inversion E; subst. auto.
Qed.

Lemma frame_of_ok_inv x k df k' :
  frame_of x k = (ok df, k') ->
  k' = k /\ exists l, vars k !! x = Some (VFrame l) /\ heap k !! l = Some df.
Proof.
  unfold frame_of. intros E. apply cbind_ok_inv in E as ([l df'] & k1 & E1 & E).
  apply frame_ref_ok_inv in E1 as (-> & Hv & Hh).
  apply cret_inv in E as [-> ->]. eauto.
Qed.

Lemma column_of_ok_inv x col k c k' :
  column_of x col k = (ok c, k') ->
  k' = k /\ exists l df, vars k !! x = Some (VFrame l) /\ heap k !! l = Some df /\
                         getitem df col = ok c.
Proof.
  unfold column_of. intros E. apply cbind_ok_inv in E as (df & k1 & E1 & E).
  apply frame_of_ok_inv in E1 as (-> & l & Hv & Hh).
  apply lift_ok_inv in E as [-> Hc]. eauto 6.
Qed.

Lemma series_of_ok_inv x k c k' :
  series_of x k = (ok c, k') -> k' = k /\ vars k !! x = Some (VSeries c).
Proof.
  unfold series_of. intros E. apply cbind_ok_inv in E as (v & k1 & E1 & E).
  apply lookup_var_ok_inv in E1 as [-> Hv].
  destruct v; try discriminate. apply cret_inv in E as [-> ->]. auto.
Qed.

Lemma list_of_ok_inv x k c k' :
  list_of x k = (ok c, k') -> k' = k /\ vars k !! x = Some (VList c).
Proof.
  unfold list_of. intros E. apply cbind_ok_inv in E as (v & k1 & E1 & E).
  apply lookup_var_ok_inv in E1 as [-> Hv].
  destruct v; try discriminate. apply cret_inv in E as [-> ->]. auto.
Qed.

Lemma params_of_ok_inv x k p k' :
  params_of x k = (ok p, k') ->
  k' = k /\
  vars k !! x = Some (match p with Some a => VArray a | None => VNone end).
Proof.
  unfold params_of. intros E. apply cbind_ok_inv in E as (v & k1 & E1 & E).
  apply lookup_var_ok_inv in E1 as [-> Hv].
  destruct v; try discriminate; apply cret_inv in E as [-> ->]; auto.
Qed.

Lemma setitem_of_ok_inv x col vs k (u : unit) k' :
  setitem_of x col vs k = (ok u, k') ->
  exists l df df',
    vars k !! x = Some (VFrame l) /\ heap k !! l = Some df /\
    setitem df col vs = ok df' /\
    k' = {| heap := <[l := df']> (heap k); vars := vars k; files := files k |}.
Proof.
  unfold setitem_of. intros E. apply cbind_ok_inv in E as ([l df] & k1 & E1 & E).
  apply frame_ref_ok_inv in E1 as (-> & Hv & Hh).
  apply cbind_ok_inv in E as (df' & k2 & E2 & E).
  apply lift_ok_inv in E2 as [-> Hs]. apply store_inv in E. simpl in *.
  eauto 8.
Qed.

(** ** Facts: from the refit to the persisted coefficients *)

(** A computation that has written no file when it raises. *)
Definition raises_before_writing {A} (m : cell A) : Prop :=
  forall k e k', m k = (raise e, k') -> files k' = files k.

Lemma raises_before_writing_keeps {A} (m : cell A) :
  keeps files m -> raises_before_writing m.
Proof. intros H k e k' E. specialize (H k). now rewrite E in H. Qed.

Lemma raises_before_writing_cbind {A B} (m : cell A) (f : A -> cell B) :
  keeps files m -> (forall a, raises_before_writing (f a)) ->
  raises_before_writing (cbind m f).
Proof.
  intros Hm Hf k e k'. unfold cbind. specialize (Hm k).
  destruct (m k) as [[e1|a] k1]; simpl in *.
  - intros E. injection E as <- <-. assumption.
  - intros E. rewrite (Hf a k1 e k' E). assumption.
Qed.

Lemma raises_before_writing_pickle_dump f obj :
  raises_before_writing (pickle_dump f obj).
Proof. intros k e k'. unfold pickle_dump. discriminate. Qed.

Section RefitFacts.

Context {R : Random} {N : NumPy} {L : Library}.

(** The state of numpy's global generator while the notebook runs. *)
Variable global : rng.

Lemma cv_begin_inv k (u : unit) k' :
  cv_begin k = (ok u, k') ->
  k' = {| heap := heap k;
          vars := <["params" := VNone]>
                    (<["r" := VList []]>
                       (<["error" := VList []]> (<["rmse" := VList []]> (vars k))));
          files := files k |}.
Proof. unfold cv_begin, cbind, assign. simpl. intros E. inversion E. reflexivity. Qed.

(** A name that holds a frame after the accumulators were bound is none
    of them, and held the frame before. *)
Lemma cv_begin_data k k0 data l :
  cv_begin k = (ok tt, k0) ->
  vars k0 !! data = Some (VFrame l) ->
  (data <> "rmse" /\ data <> "r" /\ data <> "error" /\ data <> "params") /\
  vars k !! data = Some (VFrame l) /\
  heap k0 = heap k /\
  vars k0 !! "params" = Some VNone.
Proof.
  intros E Hv. apply cv_begin_inv in E as ->. simpl in *.
  assert (data <> "params") as Hparams
    by (intros ->; rewrite lookup_insert_eq in Hv; discriminate).
  rewrite lookup_insert_ne in Hv by congruence.
  assert (data <> "r") as Hr
    by (intros ->; rewrite lookup_insert_eq in Hv; discriminate).
  rewrite lookup_insert_ne in Hv by congruence.
  assert (data <> "error") as Herror
    by (intros ->; rewrite lookup_insert_eq in Hv; discriminate).
  rewrite lookup_insert_ne in Hv by congruence.
  assert (data <> "rmse") as Hrmse
    by (intros ->; rewrite lookup_insert_eq in Hv; discriminate).
  rewrite lookup_insert_ne in Hv by congruence.
  rewrite lookup_insert_eq. auto 8.
Qed.

(** One iteration: the parameters fitted on the training rows of the fold
    are stacked under those of the folds before. *)
Lemma cv_body_ok_inv data formula fold k k' l df P0 :
  vars k !! data = Some (VFrame l) ->
  heap k !! l = Some df ->
  vars k !! "params" = Some (params_value (stack P0)) ->
  cv_body data formula fold k = (ok tt, k') ->
  exists model,
    fitted formula df fold model /\
    vars k' !! "params" = Some (params_value (stack (P0 ++ [model]))).
Proof.
  intros Hv Hh Hp E. unfold cv_body in E.
  apply cbind_ok_inv in E as (df1 & k1 & E1 & E).
  apply frame_of_ok_inv in E1 as (-> & l1 & Hv1 & Hh1).
  assert (df1 = df) as -> by congruence.
  apply cbind_ok_inv in E as (train & k1 & E1 & E).
  apply lift_ok_inv in E1 as [-> Htrain].
  apply cbind_ok_inv in E as (df2 & k1 & E1 & E).
  apply frame_of_ok_inv in E1 as (-> & _).
  apply cbind_ok_inv in E as (test & k1 & E1 & E).
  apply lift_ok_inv in E1 as [-> _].
  apply cbind_ok_inv in E as (model & k1 & E1 & E).
  apply lift_ok_inv in E1 as [-> Hfit].
  apply cbind_ok_inv in E as (fl & k1 & E1 & E). apply lift_ok_inv in E1 as [-> _].
  apply cbind_ok_inv in E as (lc & k1 & E1 & E). apply lift_ok_inv in E1 as [-> _].
  apply cbind_ok_inv in E as (pr & k1 & E1 & E). apply lift_ok_inv in E1 as [-> _].
  apply cbind_ok_inv in E as (rmse & k1 & E1 & E).
  apply (reads_ok_inv _ _ _ _ (reads_array_of _)) in E1 as ->.
  apply cbind_ok_inv in E as (rho & k1 & E1 & E). apply lift_ok_inv in E1 as [-> _].
  apply cbind_ok_inv in E as (diff & k1 & E1 & E). apply lift_ok_inv in E1 as [-> _].
  apply cbind_ok_inv in E as ([] & k1 & E1 & E). apply assign_inv in E1 as ->.
  apply cbind_ok_inv in E as (r & k1 & E1 & E).
  apply (reads_ok_inv _ _ _ _ (reads_array_of _)) in E1 as ->.
  apply cbind_ok_inv in E as (rho1 & k1 & E1 & E). apply lift_ok_inv in E1 as [-> _].
  apply cbind_ok_inv in E as ([] & k1 & E1 & E). apply assign_inv in E1 as ->.
  apply cbind_ok_inv in E as (error & k1 & E1 & E).
  apply (reads_ok_inv _ _ _ _ (reads_array_of _)) in E1 as ->.
  apply cbind_ok_inv in E as (rho2 & k1 & E1 & E). apply lift_ok_inv in E1 as [-> _].
  apply cbind_ok_inv in E as (diff2 & k1 & E1 & E). apply lift_ok_inv in E1 as [-> _].
  apply cbind_ok_inv in E as ([] & k1 & E1 & E). apply assign_inv in E1 as ->.
  apply cbind_ok_inv in E as (params & k1 & E1 & E).
  apply params_of_ok_inv in E1 as [-> Hparams]. simpl in Hparams.
  rewrite !lookup_insert_ne in Hparams by discriminate.
  rewrite Hp in Hparams.
  assert (stack P0 = params) as Hstack.
  { injection Hparams as Hparams. destruct (stack P0), params; simpl in Hparams; congruence. }
  exists model. split; [exists train; split; assumption|].
  destruct params as [p|].
  - apply cbind_ok_inv in E as (stacked & k1 & E1 & E).
    apply lift_ok_inv in E1 as [-> Hstacked].
    apply assign_inv in E as ->. simpl. rewrite lookup_insert_eq.
    rewrite <- (stack_snoc P0 model stacked); [reflexivity|].
    rewrite Hstack. assumption.
  - apply assign_inv in E as ->. simpl. rewrite lookup_insert_eq.
    destruct P0 as [|p [|q P0]]; try discriminate. reflexivity.
Qed.

(** The loop: one row of parameters per fold, in fold order. *)
Lemma for_loop_cv data formula l df folds :
  data <> "rmse" -> data <> "r" -> data <> "error" -> data <> "params" ->
  forall k k' P0,
    vars k !! data = Some (VFrame l) ->
    heap k !! l = Some df ->
    vars k !! "params" = Some (params_value (stack P0)) ->
    for_loop (cv_body data formula) folds k = (ok tt, k') ->
    exists P, Forall2 (fitted formula df) folds P /\
              vars k' !! "params" = Some (params_value (stack (P0 ++ P))).
Proof.
  intros Hrmse Hr Herror Hparams.
  induction folds as [|fold folds IH]; intros k k' P0 Hv Hh Hp E; simpl in E.
  - apply cret_inv in E as [-> _]. exists []. rewrite app_nil_r.
    split; [constructor|assumption].
  - apply cbind_ok_inv in E as ([] & k1 & E1 & E).
    pose proof (keeps_var_cv_body data formula fold data Hrmse Hr Herror Hparams k) as Hv1.
    pose proof (keeps_heap_cv_body data formula fold k) as Hh1.
    rewrite E1 in Hv1, Hh1. simpl in Hv1, Hh1.
    destruct (cv_body_ok_inv _ _ _ _ _ _ _ _ Hv Hh Hp E1) as (model & Hfit & Hp1).
    destruct (IH k1 k' (P0 ++ [model])) as (P & HP & Hfin);
      [congruence|congruence|assumption|assumption|].
    exists (model :: P). split; [now constructor|].
    rewrite Hfin, <- app_assoc. reflexivity.
Qed.

(** After the cell [params] stacks the parameters fitted on the training
    rows of the ten folds, one row per fold, in fold order. *)
Lemma cell_kfold_ok data formula k k' :
  cell_kfold global data formula k = (ok tt, k') ->
  exists l df folds P,
    vars k !! data = Some (VFrame l) /\
    heap k !! l = Some df /\
    KFold.k_fold_split global (len df) = ok folds /\
    length P = 10 /\
    Forall2 (fitted formula df) folds P /\
    vars k' !! "params" = Some (VArray (Arr2 (map values P))).
Proof.
  unfold cell_kfold. intros E.
  apply cbind_ok_inv in E as ([] & k0 & E0 & E).
  apply cbind_ok_inv in E as (df & k1 & E1 & E).
  apply frame_of_ok_inv in E1 as (-> & l & Hv0 & Hh0).
  destruct (cv_begin_data _ _ _ _ E0 Hv0)
    as ((Hrmse & Hr & Herror & Hparams) & Hv & Hheap & Hp0).
  apply cbind_ok_inv in E as (folds & k1 & E1 & E).
  apply lift_ok_inv in E1 as [-> Hfolds].
  apply (for_loop_cv data formula l df folds Hrmse Hr Herror Hparams _ _ []) in E
    as (P & HP & Hfin); try assumption.
  assert (length folds = 10) as Hlen.
  { apply KFold.split_ok_inv in Hfolds as [_ ->]. rewrite length_map.
    unfold KFold.iter_test_indices.
    now rewrite KFold.iter_chunks_length, KFold.fold_sizes_length. }
  assert (length P = 10) as HlenP by (apply Forall2_length in HP; lia).
  exists l, df, folds, P. rewrite <- Hheap. repeat split; try assumption.
  simpl in Hfin. rewrite Hfin.
  destruct P as [|p [|q P]]; simpl in HlenP; try discriminate. reflexivity.
Qed.

(** An iteration whose fit raises: the exception is that of the body, and
    the kernel stays as the statements before the fit left it. *)
Lemma cv_body_fit_raises data formula fold k l df train test e :
  vars k !! data = Some (VFrame l) ->
  heap k !! l = Some df ->
  iloc df (fst fold) = ok train ->
  iloc df (snd fold) = ok test ->
  ols_fit formula train = raise e ->
  cv_body data formula fold k = (raise e, k).
Proof.
  intros Hv Hh Htrain Htest Hfit.
  assert (frame_of data k = (ok df, k)) as Hdf.
  { unfold frame_of, frame_ref, lookup_var, cbind, cret. rewrite Hv. simpl.
    rewrite Hh. reflexivity. }
  unfold cv_body, cbind, lift. unfold ok, raise in *.
  rewrite Hdf. cbv beta iota. rewrite Htrain. cbv beta iota.
  rewrite Hdf. cbv beta iota. rewrite Htest. cbv beta iota.
  rewrite Hfit. reflexivity.
Qed.

Lemma cell_coeff_ok name filename k k' :
  name <> "var_coeffs" ->
  cell_coeff name filename k = (ok tt, k') ->
  exists params coeff,
    vars k !! "params" =
      Some (match params with Some a => VArray a | None => VNone end) /\
    model_coeff params = ok coeff /\
    files k' = <[filename := PList coeff]> (files k).
Proof.
  intros Hname. unfold cell_coeff. intros E.
  apply cbind_ok_inv in E as (params & k1 & E1 & E).
  apply params_of_ok_inv in E1 as [-> Hparams].
  apply cbind_ok_inv in E as (coeff & k2 & E2 & E).
  apply lift_ok_inv in E2 as [-> Hcoeff].
  apply cbind_ok_inv in E as ([] & k3 & E3 & E).
  apply assign_inv in E3 as ->.
  apply cbind_ok_inv in E as (params' & k4 & E4 & E).
  apply params_of_ok_inv in E4 as [-> _].
  apply cbind_ok_inv in E as (var & k5 & E5 & E).
  apply lift_ok_inv in E5 as [-> _].
  apply cbind_ok_inv in E as ([] & k6 & E6 & E).
  apply assign_inv in E6 as ->.
  apply cbind_ok_inv in E as (coeff' & k7 & E7 & E).
  apply list_of_ok_inv in E7 as [-> Hcoeff'].
  simpl in Hcoeff'.
  rewrite lookup_insert_ne, lookup_insert_eq in Hcoeff' by congruence.
  injection Hcoeff' as <-.
  unfold pickle_dump in E. inversion E; subst. simpl.
  exists params, coeff. auto.
Qed.

Lemma cell_coeff_raises_before_writing name filename :
  raises_before_writing (cell_coeff name filename).
Proof.
  unfold cell_coeff.
  repeat (apply raises_before_writing_cbind; [solve [repeat keeps_step]|intros ?]).
  apply raises_before_writing_pickle_dump.
Qed.

End RefitFacts.

(** ** Facts: the density estimate *)

Lemma zip_with_same_ok {A B C} (f : A -> B -> C) (a : list A) (b : list B) :
  length a = length b -> zip_with_same f a b = ok (zip_with f a b).
Proof.
  revert b. induction a as [|x a IH]; intros [|y b] Hlen; simpl in *; try discriminate.
  - reflexivity.
  - rewrite IH by lia. reflexivity.
Qed.

Lemma broadcast_same (f : Q -> Q -> Q) (a b : list Q) :
  length a = length b -> broadcast f a b = ok (zip_with f a b).
Proof. intros H. unfold broadcast. rewrite H, Nat.eqb_refl. reflexivity. Qed.

Lemma bilinear_lookup (c0 c1 c2 c3 : Q) (xs ls : list Q) (i : nat) (x lv : Q) :
  xs !! i = Some x -> ls !! i = Some lv ->
  zip_with Qplus
    (zip_with Qplus (map (fun x => c0 + c1 * x)%Q xs)
                    (zip_with Qmult (map (Qmult c2) xs) ls))
    (map (Qmult c3) ls) !! i
  = Some (c0 + c1 * x + c2 * x * lv + c3 * lv)%Q.
Proof.
  intros Hx Hl.
  change (map (fun x => c0 + c1 * x)%Q xs) with ((fun x => c0 + c1 * x)%Q <$> xs).
  change (map (Qmult c2) xs) with (Qmult c2 <$> xs).
  change (map (Qmult c3) ls) with (Qmult c3 <$> ls).
  rewrite !lookup_zip_with, !list_lookup_fmap, Hx, Hl. reflexivity.
Qed.

Lemma bilinear_length (c0 c1 c2 c3 : Q) (xs ls : list Q) :
  length xs = length ls ->
  length (zip_with Qplus
            (zip_with Qplus (map (fun x => c0 + c1 * x)%Q xs)
                            (zip_with Qmult (map (Qmult c2) xs) ls))
            (map (Qmult c3) ls)) = length xs.
Proof.
  intros H. rewrite !length_zip_with, !length_map. lia.
Qed.

(** C5. For every SMP sample with median force [F] and length scale
    [L], the density estimate that a coefficient vector [c] gives is
    [c[0] + c[1]*ln(F) + c[2]*ln(F)*L + c[3]*L], one value per sample: both
    for [density_k2020] of the matching notebook (on the scaled arrays) and
    for [k20a_rho] of the recalibration (on the columns of the frame, where
    [force_log] holds [ln(F)]). *)
Theorem density_estimate_is_bilinear {N : NumPy}
    (c0 c1 c2 c3 : Q) (rest : list Q) (force_median l : list Q) :
  length force_median = length l ->
  (exists rho,
      Matching.density_k2020 (c0 :: c1 :: c2 :: c3 :: rest) force_median l = ok rho /\
      length rho = length force_median /\
      forall i F Lv, force_median !! i = Some F -> l !! i = Some Lv ->
        rho !! i = Some (c0 + c1 * np_log F + c2 * np_log F * Lv + c3 * Lv)%Q) /\
  (forall df,
      getitem df "force_log" = ok (map np_log force_median) ->
      getitem df "l" = ok l ->
      exists rho,
        apply_coeff (c0 :: c1 :: c2 :: c3 :: rest) df = ok rho /\
        length rho = length force_median /\
        forall i F Lv, force_median !! i = Some F -> l !! i = Some Lv ->
          rho !! i = Some (c0 + c1 * np_log F + c2 * np_log F * Lv + c3 * Lv)%Q).
Proof.
  intros Hlen. split.
  - unfold Matching.density_k2020. simpl.
    rewrite (broadcast_same Qmult) by (rewrite length_map; assumption). simpl.
    rewrite (broadcast_same Qplus) by (rewrite length_zip_with, !length_map; lia).
    simpl.
    rewrite (broadcast_same Qplus)
      by (rewrite !length_zip_with, !length_map; lia).
    eexists. split; [reflexivity|]. split.
    + rewrite !length_zip_with, !length_map. lia.
    + intros i F Lv HF HL.
      change (map (fun f => c0 + c1 * np_log f)%Q force_median)
        with ((fun f => c0 + c1 * np_log f)%Q <$> force_median).
      change (map (fun f => c2 * np_log f)%Q force_median)
        with ((fun f => c2 * np_log f)%Q <$> force_median).
      change (map (Qmult c3) l) with (Qmult c3 <$> l).
      rewrite !lookup_zip_with, !list_lookup_fmap, HF, HL. reflexivity.
  - intros df Hfl Hl. unfold apply_coeff. simpl. rewrite Hfl, Hl. simpl.
    rewrite (zip_with_same_ok Qmult) by (rewrite !length_map; assumption). simpl.
    rewrite (zip_with_same_ok Qplus) by (rewrite length_zip_with, !length_map; lia).
    simpl.
    rewrite (zip_with_same_ok Qplus)
      by (rewrite !length_zip_with, !length_map; lia).
    eexists. split; [reflexivity|]. split.
    + rewrite bilinear_length by (rewrite length_map; assumption).
      apply length_map.
    + intros i F Lv HF HL. apply bilinear_lookup; [|assumption].
      change (map np_log force_median) with (np_log <$> force_median).
      rewrite list_lookup_fmap, HF. reflexivity.
Qed.

(** ** The refit and what it persists *)

Section Refit.

Context {R : Random} {N : NumPy} {L : Library}.

(** The state of numpy's global generator while the notebook runs. *)
Variable global : rng.

(** The three cells from the K-fold loop to [pickle.dump]. *)
Definition refit (data formula prefix name filename : string) : list (cell unit) :=
  [ cell_kfold global data formula; cell_stats prefix data; cell_coeff name filename ].

Lemma refit_then_persist data formula prefix name filename k res k' :
  keeps (fun k => vars k !! "params") (cell_stats prefix data) ->
  name <> "var_coeffs" ->
  run_all (refit data formula prefix name filename) k = (res, k') ->
  (res = ok tt ->
     exists l df folds P,
       vars k !! data = Some (VFrame l) /\
       heap k !! l = Some df /\
       KFold.k_fold_split global (len df) = ok folds /\
       length P = 10 /\
       Forall2 (fitted formula df) folds P /\
       files k' = <[filename := PList (persisted_coeff P)]> (files k)) /\
  (forall e, res = raise e -> files k' = files k).
Proof.
  intros Hkeep Hname. unfold refit, run_all, cbind.
  pose proof (keeps_files_cell_kfold global data formula k) as F1.
  destruct (cell_kfold global data formula k) as [[e1|[]] k1] eqn:E1; simpl in F1.
  { intros E. inversion E; subst. split; [discriminate|]. intros; assumption. }
  pose proof (keeps_files_cell_stats prefix data k1) as F2.
  pose proof (Hkeep k1) as V2.
  destruct (cell_stats prefix data k1) as [[e2|[]] k2] eqn:E2; simpl in F2, V2.
  { intros E. inversion E; subst. split; [discriminate|]. intros; congruence. }
  destruct (cell_coeff name filename k2) as [[e3|[]] k3] eqn:E3.
  { intros E. inversion E; subst. split; [discriminate|]. intros _ _.
    rewrite (cell_coeff_raises_before_writing name filename _ _ _ E3). congruence. }
  unfold cret. intros E. inversion E; subst. split; [|discriminate]. intros _.
  apply cell_kfold_ok in E1 as (l & df & folds & P & Hv & Hh & Hfolds & HlenP & Hfit & Hp).
  apply (cell_coeff_ok _ _ _ _ Hname) in E3 as (params & coeff & Hp3 & Hc & Hf).
  rewrite V2, Hp in Hp3.
  assert (params = Some (Arr2 (map values P))) as ->
    by (destruct params; congruence).
  rewrite model_coeff_stack in Hc. injection Hc as <-.
  exists l, df, folds, P. repeat split; try assumption. congruence.
Qed.


(** C4 (amended). When the coefficient cell reaches [pickle.dump], what
    it persists is a vector of exactly 4 numbers; with [params] the
    parameters fitted on the folds, they come in the order intercept,
    force term, interaction term, length term. *)
Theorem persisted_vector_order (name filename : string) (k k' : kernel) :
  name <> "var_coeffs" ->
  cell_coeff name filename k = (ok tt, k') ->
  (exists a b c d, files k' !! filename = Some (PList [a; b; c; d])) /\
  (forall P, vars k !! "params" = Some (VArray (Arr2 (map values P))) ->
     files k' !! filename =
       Some (PList [ np_round (np_mean (map Intercept P)) 2;
                     np_round (np_mean (map coef_force_log P)) 2;
                     np_round (np_mean (map coef_force_log_l P)) 2;
                     np_round (np_mean (map coef_l P)) 2 ])).
Proof.
  intros Hname E.
  apply (cell_coeff_ok _ _ _ _ Hname) in E as (params & coeff & Hp & Hc & ->).
  rewrite lookup_insert_eq. split.
  - pose proof (model_coeff_length _ _ Hc) as Hlen.
    destruct coeff as [|a [|b [|c [|d [|]]]]]; simpl in Hlen; try discriminate.
    eauto.
  - intros P HP. rewrite HP in Hp.
    assert (params = Some (Arr2 (map values P))) as ->
      by (destruct params; congruence).
    rewrite model_coeff_stack in Hc. injection Hc as <-. reflexivity.
Qed.

End Refit.

(** ** Facts: the outlier cell *)

Section OutlierFacts.

Context {N : NumPy} {L : Library}.

Lemma setitem_ok_inv df col vs df' :
  setitem df col vs = ok df' ->
  length vs = len df /\
  df' = {| index := index df; num_cols := <[col := vs]> (num_cols df); txt_cols := txt_cols df |}.
Proof.
  unfold setitem. destruct (Nat.eqb_spec (length vs) (len df)); [|discriminate].
  intros E. inversion E. auto.
Qed.

Lemma filter_rows_ok_inv df mask df' :
  filter_rows df mask = ok df' ->
  length mask = len df /\
  df' = {| index := select (index df) mask;
           num_cols := (fun c => select c mask) <$> num_cols df;
           txt_cols := (fun c => select c mask) <$> txt_cols df |}.
Proof.
  unfold filter_rows. destruct (Nat.eqb_spec (length mask) (len df)); [|discriminate].
  intros E. inversion E. auto.
Qed.

(** The frame a name refers to, once the state is known. *)
Ltac known_frame Hv Hh :=
  simpl in Hv, Hh;
  rewrite ?lookup_insert_eq in Hv; injection Hv as <-;
  rewrite ?lookup_insert_eq in Hh; injection Hh as <-.

Lemma cell_outliers_ok k k' :
  cell_outliers k = (ok tt, k') ->
  exists l df f_l k20a_rho RHO diff q_95 l_kept kept,
    vars k !! "result" = Some (VFrame l) /\ heap k !! l = Some df /\
    vars k !! "k20a_rho" = Some (VSeries k20a_rho) /\
    getitem df "RHO" = ok RHO /\
    zip_with_same Qminus k20a_rho RHO = ok diff /\
    quantile (95 # 100) (map Qabs diff) = fin q_95 /\
    filter_rows
      {| index := index df;
         num_cols := <["abs_error" := map Qabs diff]> (<["f_l" := f_l]> (num_cols df));
         txt_cols := txt_cols df |}
      (map (fun e => float_lt e (fin q_95)) (map Qabs diff)) = ok kept /\
    l_kept <> l /\
    heap k' !! l = Some df /\
    heap k' !! l_kept = Some kept /\
    vars k' = <["n_removed" := VInt (Z.of_nat (len df) - Z.of_nat (len kept))]>
                (<["result_lim" := VFrame l_kept]>
                   (<["q_95" := VFloat (fin q_95)]>
                      (<["result_lim" := VFrame (fresh (dom (heap k)))]> (vars k)))).
Proof.
  unfold cell_outliers. intros E.
  apply cbind_ok_inv in E as (df & k1 & E1 & E).
  apply frame_of_ok_inv in E1 as (-> & l & Hv & Hh).
  apply cbind_ok_inv in E as (l_lim & k2 & E2 & E).
  apply alloc_inv in E2 as [Hl_lim ->].
  assert (l_lim <> l) as Hne.
  { rewrite Hl_lim. intros Heq. apply (is_fresh (dom (heap k))). rewrite Heq.
    apply elem_of_dom. eauto. }
  apply cbind_ok_inv in E as ([] & k3 & E3 & E).
  apply assign_inv in E3 as ->. simpl in E.
  apply cbind_ok_inv in E as (lcol & k4 & E4 & E).
  apply column_of_ok_inv in E4 as (-> & l1 & df1 & Hv1 & Hh1 & Hlcol).
  known_frame Hv1 Hh1.
  apply cbind_ok_inv in E as (flcol & k5 & E5 & E).
  apply column_of_ok_inv in E5 as (-> & l1 & df1 & Hv1 & Hh1 & Hflcol).
  known_frame Hv1 Hh1.
  apply cbind_ok_inv in E as (f_l & k6 & E6 & E).
  apply lift_ok_inv in E6 as [-> Hf_l].
  apply cbind_ok_inv in E as ([] & k7 & E7 & E).
  apply setitem_of_ok_inv in E7 as (l1 & df1 & df1' & Hv1 & Hh1 & Hset1 & ->).
  known_frame Hv1 Hh1.
  apply setitem_ok_inv in Hset1 as [Hlen1 ->]. simpl in E.
  apply cbind_ok_inv in E as (k20a_rho & k8 & E8 & E).
  apply series_of_ok_inv in E8 as [-> Hrho]. simpl in Hrho.
  rewrite lookup_insert_ne in Hrho by discriminate.
  apply cbind_ok_inv in E as (RHO & k9 & E9 & E).
  apply column_of_ok_inv in E9 as (-> & l1 & df1 & Hv1 & Hh1 & HRHO).
  known_frame Hv1 Hh1.
  unfold getitem in HRHO. simpl in HRHO.
  rewrite lookup_insert_ne in HRHO by discriminate.
  apply cbind_ok_inv in E as (diff & k10 & E10 & E).
  apply lift_ok_inv in E10 as [-> Hdiff].
  apply cbind_ok_inv in E as ([] & k11 & E11 & E).
  apply setitem_of_ok_inv in E11 as (l1 & df1 & df1' & Hv1 & Hh1 & Hset2 & ->).
  known_frame Hv1 Hh1.
  apply setitem_ok_inv in Hset2 as [Hlen2 ->]. simpl in E.
  apply cbind_ok_inv in E as (abs_error & k12 & E12 & E).
  apply column_of_ok_inv in E12 as (-> & l1 & df1 & Hv1 & Hh1 & Habs).
  known_frame Hv1 Hh1.
  unfold getitem in Habs. simpl in Habs. rewrite lookup_insert_eq in Habs.
  injection Habs as <-.
  apply cbind_ok_inv in E as ([] & k13 & E13 & E).
  apply assign_inv in E13 as ->. simpl in E.
  apply cbind_ok_inv in E as (df2 & k14 & E14 & E).
  apply frame_of_ok_inv in E14 as (-> & l1 & Hv1 & Hh1).
  simpl in Hv1, Hh1. rewrite lookup_insert_ne, lookup_insert_eq in Hv1 by discriminate.
  injection Hv1 as <-. rewrite lookup_insert_eq in Hh1. injection Hh1 as <-.
  apply cbind_ok_inv in E as (abs_error' & k15 & E15 & E).
  apply column_of_ok_inv in E15 as (-> & l1 & df1 & Hv1 & Hh1 & Habs).
  simpl in Hv1, Hh1. rewrite lookup_insert_ne, lookup_insert_eq in Hv1 by discriminate.
  injection Hv1 as <-. rewrite lookup_insert_eq in Hh1. injection Hh1 as <-.
  unfold getitem in Habs. simpl in Habs. rewrite lookup_insert_eq in Habs.
  injection Habs as <-.
  apply cbind_ok_inv in E as (kept & k16 & E16 & E).
  apply lift_ok_inv in E16 as [-> Hkept].
  apply cbind_ok_inv in E as (l_kept & k17 & E17 & E).
  apply alloc_inv in E17 as [Hl_kept ->]. simpl in Hl_kept, E.
  assert (l_kept <> l) as Hne'.
  { rewrite Hl_kept. intros Heq.
    match type of Heq with fresh (dom ?h) = _ => apply (is_fresh (dom h)) end.
    rewrite Heq. apply elem_of_dom.
    rewrite !lookup_insert_ne by congruence. eauto. }
  apply cbind_ok_inv in E as ([] & k18 & E18 & E).
  apply assign_inv in E18 as ->. simpl in E.
  apply cbind_ok_inv in E as (result' & k19 & E19 & E).
  apply frame_of_ok_inv in E19 as (-> & l1 & Hv1 & Hh1).
  simpl in Hv1, Hh1. rewrite !lookup_insert_ne in Hv1 by discriminate.
  rewrite Hv in Hv1. injection Hv1 as <-.
  rewrite !lookup_insert_ne in Hh1 by congruence.
  rewrite Hh in Hh1. injection Hh1 as <-.
  apply cbind_ok_inv in E as (result_lim' & k20 & E20 & E).
  apply frame_of_ok_inv in E20 as (-> & l1 & Hv1 & Hh1).
  simpl in Hv1, Hh1. rewrite lookup_insert_eq in Hv1. injection Hv1 as <-.
  rewrite lookup_insert_eq in Hh1. injection Hh1 as <-.
  apply cbind_ok_inv in E as ([] & k21 & E21 & E).
  apply assign_inv in E21 as ->. simpl in E.
  destruct (quantile (95 # 100) (map Qabs diff)) as [|q_95] eqn:Eq; [discriminate|].
  apply cret_inv in E as [-> _]. simpl.
  exists l, df, f_l, k20a_rho, RHO, diff, q_95, l_kept, kept.
  repeat split; try assumption.
  - rewrite !lookup_insert_ne by congruence. assumption.
  - apply lookup_insert_eq.
  - rewrite Hl_lim. reflexivity.
Qed.

End OutlierFacts.


(** ** Facts: the original frame after the outlier cell *)

Lemma run_all_keeps {T} (part : kernel -> T) (cells : list (cell unit)) :
  Forall (keeps part) cells -> keeps part (run_all cells).
Proof.
  induction 1 as [|c cells Hc _ IH]; simpl.
  - apply reads_keeps, reads_cret.
  - apply keeps_cbind; auto.
Qed.

Lemma run_all_snoc_ok_inv (cells : list (cell unit)) (c : cell unit) k k2 :
  run_all (cells ++ [c]) k = (ok tt, k2) ->
  exists k1, run_all cells k = (ok tt, k1) /\ c k1 = (ok tt, k2).
Proof.
  revert k. induction cells as [|c0 cells IH]; intros k; simpl.
  - intros E. apply cbind_ok_inv in E as ([] & k1 & E1 & E).
    apply cret_inv in E as [-> _]. exists k. split; [reflexivity|assumption].
  - intros E. apply cbind_ok_inv in E as ([] & k1 & E1 & E).
    destruct (IH _ E) as (k1' & Hrun & Hc). exists k1'. split; [|assumption].
    unfold cbind. rewrite E1. assumption.
Qed.

(** Two names for one object: a column set through one is seen through
    the other. This is what [result.copy()] avoids. *)
Example alias_shares_object :
  let k := {| heap := {[ 0 := {| index := [0; 1]; num_cols := ∅; txt_cols := ∅ |} ]};
              vars := {[ "a" := VFrame 0; "b" := VFrame 0 ]};
              files := ∅ |} in
  fst ((let* _ := setitem_of "a" "x" [1; 2]%Q in column_of "b" "x") k) = ok [1; 2]%Q.
Proof. vm_compute. reflexivity. Qed.

(** [result] refers to the object at [l], which holds [df]. *)
Definition result_intact (l : loc) (df : frame) (k : kernel) : Prop :=
  vars k !! "result" = Some (VFrame l) /\ heap k !! l = Some df.

(** Moreover [result_lim] refers to another object. *)
Definition lim_apart (l : loc) (df : frame) (k : kernel) : Prop :=
  result_intact l df k /\
  exists l_lim, l_lim <> l /\ vars k !! "result_lim" = Some (VFrame l_lim).

(** A computation that maintains a property of the kernel, whether it
    returns or raises. *)
Definition preserves {A} (I : kernel -> Prop) (m : cell A) : Prop :=
  forall k, I k -> I (snd (m k)).

Lemma preserves_reads {A} (I : kernel -> Prop) (m : cell A) :
  reads m -> preserves I m.
Proof. intros H k Hk. now rewrite H. Qed.

Lemma preserves_cbind {A B} (I : kernel -> Prop) (m : cell A) (f : A -> cell B) :
  preserves I m -> (forall a, preserves I (f a)) -> preserves I (cbind m f).
Proof.
  intros Hm Hf k Hk. unfold cbind. specialize (Hm k Hk).
  destruct (m k) as [[e|a] k1]; simpl in *; [assumption|].
  now apply Hf.
Qed.

Lemma preserves_lim_assign l df x v :
  x <> "result" -> x <> "result_lim" -> preserves (lim_apart l df) (assign x v).
Proof.
  intros H1 H2 k [[Hv Hh] (l1 & Hne & Hl)].
  unfold lim_apart, result_intact. simpl.
  split; [split; [|assumption]|].
  - rewrite lookup_insert_ne by congruence. assumption.
  - exists l1. split; [assumption|]. rewrite lookup_insert_ne by congruence. assumption.
Qed.

Lemma preserves_lim_setitem l df col vs :
  preserves (lim_apart l df) (setitem_of "result_lim" col vs).
Proof.
  intros k Hk. unfold setitem_of, cbind.
  pose proof (reads_frame_ref "result_lim" k) as Hr.
  destruct (frame_ref "result_lim" k) as [[e|[l2 df2]] k1] eqn:E; simpl in Hr;
    subst k1; simpl; [assumption|].
  apply frame_ref_ok_inv in E as (_ & Hl2 & _).
  destruct Hk as [[Hv Hh] (l1 & Hne & Hl)].
  rewrite Hl in Hl2. injection Hl2 as <-.
  unfold lift. destruct (setitem df2 col vs) as [e|df2']; simpl.
  - split; [split; assumption|eauto].
  - split; [split; [assumption|]|eauto].
    simpl. rewrite lookup_insert_ne by congruence. assumption.
Qed.

(** [result_lim = <a new frame>]: the new object is not the one [result]
    refers to. *)
Lemma preserves_alloc_assign {A} l df d (rest : cell A) :
  preserves (lim_apart l df) rest ->
  forall k, result_intact l df k ->
    lim_apart l df
      (snd ((let* l' := alloc d in
             let* _ := assign "result_lim" (VFrame l') in rest) k)).
Proof.
  intros Hrest k [Hv Hh]. unfold cbind, alloc, assign. simpl.
  apply Hrest.
  assert (fresh (dom (heap k)) <> l) as Hne.
  { intros Heq. apply (is_fresh (dom (heap k))). rewrite Heq.
    apply elem_of_dom. eauto. }
  unfold lim_apart, result_intact. simpl.
  split; [split|].
  - rewrite lookup_insert_ne by discriminate. assumption.
  - rewrite lookup_insert_ne by assumption. assumption.
  - eexists. split; [exact Hne|]. apply lookup_insert_eq.
Qed.

Ltac preserves_step :=
  match goal with
  | |- preserves (lim_apart _ _)
         (cbind (alloc _) (fun _ => cbind (assign "result_lim" _) _)) =>
      let k := fresh "k" in let Hk := fresh "Hk" in
      intros k Hk; apply preserves_alloc_assign; [|exact (proj1 Hk)]
  | |- preserves _ (cbind _ _) => apply preserves_cbind; [|intros ?]
  | |- preserves _ (match ?v with _ => _ end) => destruct v
  | |- preserves _ (setitem_of "result_lim" _ _) => apply preserves_lim_setitem
  | |- preserves _ (assign _ _) => apply preserves_lim_assign; discriminate
  | |- preserves _ _ => solve [apply preserves_reads; auto with keeps]
  end.

(** Whatever the outlier cell does, and wherever it stops, [result] and
    its object are as before. *)
Lemma cell_outliers_keeps_result_always (l : loc) (df : frame) (k : kernel) :
  result_intact l df k -> result_intact l df (snd (cell_outliers k)).
Proof.
  intros Hk. unfold cell_outliers. unfold cbind at 1.
  pose proof (reads_frame_of "result" k) as Hr.
  destruct (frame_of "result" k) as [[e|r] k1]; simpl in Hr; subst k1;
    [assumption|].
  apply preserves_alloc_assign; [|assumption].
  repeat preserves_step.
Qed.

Section FrameFacts.

Context {R : Random} {N : NumPy} {L : Library}.

(** The state of numpy's global generator while the notebook runs. *)
Variable global : rng.

(** No cell of the second recalibration binds [result]. *)
Lemma keeps_result_recalibration_b :
  Forall (keeps (fun k => vars k !! "result")) (recalibration_b global).
Proof.
  unfold recalibration_b. repeat constructor.
  - unfold cell_kfold, cv_begin, cv_body. repeat keeps_step.
  - unfold cell_stats. repeat keeps_step.
  - unfold cell_coeff. repeat keeps_step.
  - unfold cell_apply. repeat keeps_step.
Qed.

(** Nor does one write a frame. *)
Lemma keeps_heap_recalibration_b : Forall (keeps heap) (recalibration_b global).
Proof.
  unfold recalibration_b. repeat constructor.
  - apply (keeps_heap_cell_kfold global).
  - apply keeps_heap_cell_stats.
  - apply keeps_heap_cell_coeff.
  - apply keeps_heap_cell_apply.
Qed.

Lemma keeps_result_cell_p2015 : keeps (fun k => vars k !! "result") cell_p2015.
Proof. unfold cell_p2015. repeat keeps_step. Qed.

(** The P15 statistics, from the frame [result] refers to. *)
Lemma cell_p2015_ok k k' l df :
  vars k !! "result" = Some (VFrame l) -> heap k !! l = Some df ->
  cell_p2015 k = (ok tt, k') ->
  exists mean_samp RHO err diff,
    getitem df "mean_samp" = ok mean_samp /\
    getitem df "RHO" = ok RHO /\
    getitem df "error" = ok err /\
    zip_with_same Qminus mean_samp RHO = ok diff /\
    vars k' !! "p2015_rmse"
      = Some (VFloat (fin (np_sqrt (np_mean (map (fun d => d ^ 2)%Q diff))))) /\
    vars k' !! "p2015_bias" = Some (VFloat (fin (np_mean err))) /\
    vars k' !! "p2015_r2" = Some (VFloat (fin (np_corrcoef mean_samp RHO ^ 2)%Q)) /\
    vars k' !! "p2015_n" = Some (VInt (Z.of_nat (length mean_samp))) /\
    vars k' !! "p2015_p" = Some (VFloat (fin (pearsonr_p mean_samp RHO))).
Proof.
  intros Hv Hh. unfold cell_p2015. intros E.
  apply cbind_ok_inv in E as (mean_samp & k1 & E1 & E).
  apply column_of_ok_inv in E1 as (-> & l1 & df1 & Hv1 & Hh1 & Hms).
  rewrite Hv in Hv1. injection Hv1 as <-. rewrite Hh in Hh1. injection Hh1 as <-.
  apply cbind_ok_inv in E as (RHO & k2 & E2 & E).
  apply column_of_ok_inv in E2 as (-> & l1 & df1 & Hv1 & Hh1 & HRHO).
  rewrite Hv in Hv1. injection Hv1 as <-. rewrite Hh in Hh1. injection Hh1 as <-.
  apply cbind_ok_inv in E as (diff & k3 & E3 & E).
  apply lift_ok_inv in E3 as [-> Hdiff].
  apply cbind_ok_inv in E as ([] & k4 & E4 & E).
  apply assign_inv in E4 as ->.
  apply cbind_ok_inv in E as (err & k5 & E5 & E).
  apply column_of_ok_inv in E5 as (-> & l1 & df1 & Hv1 & Hh1 & Herr).
  simpl in Hv1, Hh1. rewrite lookup_insert_ne in Hv1 by discriminate.
  rewrite Hv in Hv1. injection Hv1 as <-. rewrite Hh in Hh1. injection Hh1 as <-.
  apply cbind_ok_inv in E as ([] & k6 & E6 & E).
  apply assign_inv in E6 as ->.
  apply cbind_ok_inv in E as (ms1 & k7 & E7 & E).
  apply column_of_ok_inv in E7 as (-> & l1 & df1 & Hv1 & Hh1 & Hms1).
  simpl in Hv1, Hh1. rewrite !lookup_insert_ne in Hv1 by discriminate.
  rewrite Hv in Hv1. injection Hv1 as <-. rewrite Hh in Hh1. injection Hh1 as <-.
  apply cbind_ok_inv in E as (RHO1 & k8 & E8 & E).
  apply column_of_ok_inv in E8 as (-> & l1 & df1 & Hv1 & Hh1 & HRHO1).
  simpl in Hv1, Hh1. rewrite !lookup_insert_ne in Hv1 by discriminate.
  rewrite Hv in Hv1. injection Hv1 as <-. rewrite Hh in Hh1. injection Hh1 as <-.
  apply cbind_ok_inv in E as ([] & k9 & E9 & E).
  apply assign_inv in E9 as ->.
  apply cbind_ok_inv in E as (ms2 & k10 & E10 & E).
  apply column_of_ok_inv in E10 as (-> & l1 & df1 & Hv1 & Hh1 & Hms2).
  simpl in Hv1, Hh1. rewrite !lookup_insert_ne in Hv1 by discriminate.
  rewrite Hv in Hv1. injection Hv1 as <-. rewrite Hh in Hh1. injection Hh1 as <-.
  apply cbind_ok_inv in E as ([] & k11 & E11 & E).
  apply assign_inv in E11 as ->.
  apply cbind_ok_inv in E as (ms3 & k12 & E12 & E).
  apply column_of_ok_inv in E12 as (-> & l1 & df1 & Hv1 & Hh1 & Hms3).
  simpl in Hv1, Hh1. rewrite !lookup_insert_ne in Hv1 by discriminate.
  rewrite Hv in Hv1. injection Hv1 as <-. rewrite Hh in Hh1. injection Hh1 as <-.
  apply cbind_ok_inv in E as (RHO3 & k13 & E13 & E).
  apply column_of_ok_inv in E13 as (-> & l1 & df1 & Hv1 & Hh1 & HRHO3).
  simpl in Hv1, Hh1. rewrite !lookup_insert_ne in Hv1 by discriminate.
  rewrite Hv in Hv1. injection Hv1 as <-. rewrite Hh in Hh1. injection Hh1 as <-.
  apply assign_inv in E as ->. simpl.
  rewrite Hms in Hms1, Hms2, Hms3. rewrite HRHO in HRHO1, HRHO3.
  injection Hms1 as <-. injection Hms2 as <-. injection Hms3 as <-.
  injection HRHO1 as <-. injection HRHO3 as <-.
  exists mean_samp, RHO, err, diff.
  repeat split; try assumption.
  - rewrite !lookup_insert_ne by discriminate. apply lookup_insert_eq.
  - rewrite !lookup_insert_ne by discriminate. apply lookup_insert_eq.
  - rewrite !lookup_insert_ne by discriminate. apply lookup_insert_eq.
  - rewrite !lookup_insert_ne by discriminate. apply lookup_insert_eq.
  - apply lookup_insert_eq.
Qed.

(** C10. Outlier removal leaves the original matched dataset as it was:
    the cell works on a copy, so that after it [result] refers to the same
    object with the same rows and columns, and [result_lim] to another
    object; and the P15 statistics, computed after the second
    recalibration, are those of the full unfiltered frame. *)
Theorem outlier_removal_keeps_result (k k1 : kernel) (l : loc) (df : frame) :
  vars k !! "result" = Some (VFrame l) ->
  heap k !! l = Some df ->
  cell_outliers k = (ok tt, k1) ->
  (vars k1 !! "result" = Some (VFrame l) /\
   heap k1 !! l = Some df /\
   exists l_lim, vars k1 !! "result_lim" = Some (VFrame l_lim) /\ l_lim <> l) /\
  (forall k2,
      run_all (recalibration_b global ++ [cell_p2015]) k1 = (ok tt, k2) ->
      vars k2 !! "result" = Some (VFrame l) /\
      heap k2 !! l = Some df /\
      exists mean_samp RHO err diff,
        getitem df "mean_samp" = ok mean_samp /\
        getitem df "RHO" = ok RHO /\
        getitem df "error" = ok err /\
        zip_with_same Qminus mean_samp RHO = ok diff /\
        vars k2 !! "p2015_rmse"
          = Some (VFloat (fin (np_sqrt (np_mean (map (fun d => d ^ 2)%Q diff))))) /\
        vars k2 !! "p2015_bias" = Some (VFloat (fin (np_mean err))) /\
        vars k2 !! "p2015_r2" = Some (VFloat (fin (np_corrcoef mean_samp RHO ^ 2)%Q)) /\
        vars k2 !! "p2015_n" = Some (VInt (Z.of_nat (length mean_samp))) /\
        vars k2 !! "p2015_p" = Some (VFloat (fin (pearsonr_p mean_samp RHO)))).
Proof.
  intros Hv Hh E.
  apply cell_outliers_ok in E
    as (l' & df' & f_l & rho & RHO & diff & q & l_kept & kept
        & Hv' & Hh' & _ & _ & _ & _ & _ & Hne & Hh1 & Hkept & Hvars).
  rewrite Hv in Hv'. injection Hv' as <-. rewrite Hh in Hh'. injection Hh' as <-.
  assert (vars k1 !! "result" = Some (VFrame l)) as Hv1
    by (rewrite Hvars, !lookup_insert_ne by discriminate; assumption).
  split.
  - split; [assumption|]. split; [assumption|].
    exists l_kept. split; [|assumption].
    rewrite Hvars, lookup_insert_ne, lookup_insert_eq by discriminate. reflexivity.
  - intros k2 Erun. apply run_all_snoc_ok_inv in Erun as (k1' & Erun & Ep).
    pose proof (run_all_keeps _ _ keeps_result_recalibration_b k1) as Kv.
    pose proof (run_all_keeps _ _ keeps_heap_recalibration_b k1) as Kh.
    rewrite Erun in Kv, Kh. simpl in Kv, Kh.
    assert (vars k1' !! "result" = Some (VFrame l)) as Hv1' by congruence.
    assert (heap k1' !! l = Some df) as Hh1' by congruence.
    pose proof (keeps_result_cell_p2015 k1') as Kv2.
    pose proof (keeps_heap_cell_p2015 k1') as Kh2.
    rewrite Ep in Kv2, Kh2. simpl in Kv2, Kh2.
    split; [congruence|]. split; [congruence|].
    exact (cell_p2015_ok _ _ _ _ Hv1' Hh1' Ep).
Qed.

End FrameFacts.

(** ** Facts: what the outlier cell removes *)

Lemma select_length_le {A} (a : list A) (mask : list bool) :
  length (select a mask) <= length a.
Proof.
  revert mask. induction a as [|x a IH]; intros [|b mask]; simpl; try lia.
  specialize (IH mask). destruct b; simpl; lia.
Qed.

Lemma select_sublist {A} (a : list A) (mask : list bool) :
  sublist (select a mask) a.
Proof.
  revert mask. induction a as [|x a IH]; intros [|b mask]; simpl.
  - constructor.
  - constructor.
  - apply sublist_nil_l.
  - destruct b; [apply sublist_skip|apply sublist_cons]; apply IH.
Qed.

(** The largest number of rows that the 0.95 quantile lets go:
    [ceil(0.05 * n)]. *)
Definition removal_bound (n : nat) : Z :=
  Qceiling ((5 # 100) * inject_Z (Z.of_nat n)).

(** *** Sorting and the quantile *)

Lemma insert_sorted_Permutation (x : Q) (l : list Q) :
  Permutation (insert_sorted x l) (x :: l).
Proof.
  induction l as [|y l IH]; simpl.
  - reflexivity.
  - destruct (Qle_bool x y); [reflexivity|].
    rewrite IH. apply perm_swap.
Qed.

Lemma np_sort_Permutation (a : list Q) : Permutation (np_sort a) a.
Proof.
  unfold np_sort. induction a as [|x a IH]; simpl.
  - reflexivity.
  - rewrite insert_sorted_Permutation. now constructor.
Qed.

Lemma insert_sorted_Sorted (x : Q) (l : list Q) :
  StronglySorted Qle l -> StronglySorted Qle (insert_sorted x l).
Proof.
  induction 1 as [|y l Hl IH Hy]; simpl.
  - repeat constructor.
  - destruct (Qle_bool x y) eqn:E.
    + apply Qle_bool_iff in E. constructor; [now constructor|].
      constructor; [assumption|].
      eapply Forall_impl; [exact Hy|]. intros z Hz. now apply Qle_trans with y.
    + assert (y <= x)%Q as Hyx.
      { apply Qlt_le_weak, Qnot_le_lt. intros H. apply Qle_bool_iff in H. congruence. }
      constructor; [assumption|].
      apply Forall_forall. intros z Hz. apply list_elem_of_In in Hz.
      apply (Permutation_in _ (insert_sorted_Permutation x l)) in Hz.
      destruct Hz as [<-|Hz]; [assumption|].
      rewrite Forall_forall in Hy. apply Hy. now apply list_elem_of_In.
Qed.

Lemma np_sort_Sorted (a : list Q) : StronglySorted Qle (np_sort a).
Proof.
  unfold np_sort. induction a as [|x a IH]; simpl.
  - constructor.
  - now apply insert_sorted_Sorted.
Qed.

Lemma sorted_nth_le (l : list Q) :
  StronglySorted Qle l ->
  forall i j, i <= j < length l -> (nth i l 0 <= nth j l 0)%Q.
Proof.
  induction 1 as [|y l Hl IH Hy]; intros i j Hij; simpl in *.
  - lia.
  - destruct i as [|i], j as [|j]; try lia.
    + apply Qle_refl.
    + rewrite Forall_forall in Hy. apply Hy, list_elem_of_In, nth_In. lia.
    + apply IH. lia.
Qed.

Definition count_if (p : Q -> bool) (l : list Q) : nat := length (List.filter p l).

Lemma count_if_Permutation p l l' : Permutation l l' -> count_if p l = count_if p l'.
Proof.
  unfold count_if. induction 1; simpl; auto.
  - destruct (p x); simpl; auto.
  - destruct (p x), (p y); simpl; auto.
  - congruence.
Qed.

Lemma count_if_app p l l' : count_if p (l ++ l') = count_if p l + count_if p l'.
Proof. unfold count_if. now rewrite List.filter_app, length_app. Qed.

Lemma count_if_le p l : count_if p l <= length l.
Proof. unfold count_if. apply List.filter_length_le. Qed.

Lemma count_if_none p l : (forall x, In x l -> p x = false) -> count_if p l = 0.
Proof.
  unfold count_if. induction l as [|x l IH]; intros H; simpl; auto.
  rewrite (H x) by now left. apply IH. intros; apply H; now right.
Qed.

(** In a sorted list at most the elements after position [i] exceed a
    bound that is at least the element at [i]. *)
Lemma sorted_count_above (l : list Q) (i : nat) (v : Q) :
  StronglySorted Qle l -> i < length l -> (nth i l 0 <= v)%Q ->
  count_if (fun e => float_gt e (fin v)) l <= length l - S i.
Proof.
  intros Hs Hi Hv.
  rewrite <- (firstn_skipn (S i) l) at 1. rewrite count_if_app.
  rewrite count_if_none.
  - pose proof (count_if_le (fun e => float_gt e (fin v)) (skipn (S i) l)) as H.
    rewrite length_skipn in H. lia.
  - intros x Hx. simpl. apply negb_false_iff, Qle_bool_iff.
    apply Qle_trans with (nth i l 0%Q); [|assumption].
    apply (In_nth _ _ 0%Q) in Hx as (j & Hj & <-).
    rewrite length_firstn in Hj.
    rewrite nth_firstn. destruct (Nat.ltb_spec j (S i)); [|lia].
    apply sorted_nth_le; [assumption|lia].
Qed.

Lemma quantile_nonempty (q : Q) (s : list Q) :
  s <> [] ->
  quantile q s =
    let sorted := np_sort s in
    let h := (inject_Z (Z.of_nat (length s - 1)) * q)%Q in
    fin (nth (Z.to_nat (Qfloor h)) sorted 0
         + (nth (Nat.min (Z.to_nat (Qfloor h) + 1) (length s - 1)) sorted 0
            - nth (Z.to_nat (Qfloor h)) sorted 0)
           * (h - inject_Z (Qfloor h)))%Q.
Proof. destruct s; [congruence|reflexivity]. Qed.

Lemma quantile_above_lower (s : list Q) :
  s <> [] ->
  exists v, quantile (95 # 100) s = fin v /\
            Z.to_nat (Z.of_nat (length s - 1) * 95 / 100) < length s /\
            (nth (Z.to_nat (Z.of_nat (length s - 1) * 95 / 100)) (np_sort s) 0 <= v)%Q.
Proof.
  intros Hne. rewrite (quantile_nonempty _ _ Hne). cbv zeta.
  assert (0 < length s) as Hpos by (destruct s; [congruence|simpl; lia]).
  set (m := Z.of_nat (length s - 1)).
  set (h := (inject_Z m * (95 # 100))%Q).
  assert (Qfloor h = (m * 95 / 100)%Z) as Hfl by reflexivity.
  assert (0 <= m)%Z as Hm by lia.
  assert (0 <= Qfloor h <= m)%Z as Hlo.
  { rewrite Hfl. split; [apply Z.div_pos; lia|].
    apply Z.div_le_upper_bound; lia. }
  rewrite <- Hfl.
  eexists. split; [reflexivity|]. split; [lia|].
  set (x_lo := nth (Z.to_nat (Qfloor h)) (np_sort s) 0%Q).
  set (x_hi := nth (Nat.min (Z.to_nat (Qfloor h) + 1) (length s - 1)) (np_sort s) 0%Q).
  assert (x_lo <= x_hi)%Q as Hx.
  { apply sorted_nth_le; [apply np_sort_Sorted|].
    rewrite (Permutation_length (np_sort_Permutation s)). lia. }
  assert (0 <= h - inject_Z (Qfloor h))%Q as Hg.
  { pose proof (Qfloor_le h). lra. }
  assert (0 <= (x_hi - x_lo) * (h - inject_Z (Qfloor h)))%Q as Hprod.
  { apply Qmult_le_0_compat; [lra|assumption]. }
  lra.
Qed.

(** With the rule of the notebook's text (an outlier has an error above
    the 0.95 quantile), the rows removed are at most [ceil(0.05 * n)]. *)
Lemma documented_rule_within_bound (s : list Q) :
  (Z.of_nat (count_if (fun e => float_gt e (quantile (95 # 100) s)) s)
   <= removal_bound (length s))%Z.
Proof.
  destruct (decide (s = [])) as [->|Hne]; [vm_compute; discriminate|].
  destruct (quantile_above_lower s Hne) as (v & -> & Hlo & Hv).
  rewrite (count_if_Permutation _ _ _ (Permutation_sym (np_sort_Permutation s))).
  pose proof (sorted_count_above (np_sort s)
                (Z.to_nat (Z.of_nat (length s - 1) * 95 / 100)) v (np_sort_Sorted s)) as H.
  rewrite (Permutation_length (np_sort_Permutation s)) in H.
  specialize (H Hlo Hv).
  assert (removal_bound (length s) = (- (- (5 * Z.of_nat (length s)) / 100))%Z) as ->
    by reflexivity.
  set (n := length s) in *.
  assert (Z.to_nat (Z.of_nat (n - 1) * 95 / 100) = Z.to_nat ((Z.of_nat n - 1) * 95 / 100))
    as E by (f_equal; f_equal; lia).
  rewrite E in *.
  assert (0 <= (Z.of_nat n - 1) * 95 / 100)%Z by (apply Z.div_pos; lia).
  Z.div_mod_to_equations. lia.
Qed.

Section RemovalFacts.

Context {N : NumPy} {L : Library}.

(** The filtered frame holds rows of the input and nothing else: its
    index and its columns are those of [result] at the rows kept, so that
    it is no longer than [result]. *)
Lemma outliers_filtered_is_subset (k k' : kernel) :
  cell_outliers k = (ok tt, k') ->
  exists l df l_lim kept mask,
    vars k !! "result" = Some (VFrame l) /\ heap k !! l = Some df /\
    vars k' !! "result_lim" = Some (VFrame l_lim) /\ heap k' !! l_lim = Some kept /\
    index kept = select (index df) mask /\
    sublist (index kept) (index df) /\
    len kept <= len df /\
    (forall name c, num_cols df !! name = Some c ->
       name <> "f_l" -> name <> "abs_error" ->
       num_cols kept !! name = Some (select c mask)) /\
    (forall name c, txt_cols df !! name = Some c ->
       txt_cols kept !! name = Some (select c mask)) /\
    vars k' !! "n_removed" = Some (VInt (Z.of_nat (len df) - Z.of_nat (len kept))).
Proof.
  intros E.
  apply cell_outliers_ok in E
    as (l & df & f_l & rho & RHO & diff & q & l_kept & kept
        & Hv & Hh & _ & _ & _ & _ & Hfilter & Hne & Hh1 & Hkept & Hvars).
  apply filter_rows_ok_inv in Hfilter as [Hlen Hk].
  exists l, df, l_kept, kept, (map (fun e => float_lt e (fin q)) (map Qabs diff)).
  rewrite Hk in *. clear Hk. simpl.
  repeat split; try assumption.
  - rewrite Hvars, lookup_insert_ne, lookup_insert_eq by discriminate. reflexivity.
  - apply select_sublist.
  - apply select_length_le.
  - intros name c Hc Hn1 Hn2. simpl.
    rewrite lookup_fmap, !lookup_insert_ne, Hc by congruence. reflexivity.
  - intros name c Hc. simpl. rewrite lookup_fmap, Hc. reflexivity.
  - rewrite Hvars, lookup_insert_eq. reflexivity.
Qed.

Lemma select_map_length {A} (p : Q -> bool) (a : list A) (s : list Q) :
  length a = length s -> length (select a (map p s)) = count_if p s.
Proof.
  unfold count_if. revert a. induction s as [|x s IH]; intros [|y a] Hlen;
    simpl in *; try discriminate; auto.
  destruct (p x); simpl; rewrite IH by lia; reflexivity.
Qed.

Lemma count_if_negb (p : Q -> bool) (s : list Q) :
  count_if p s + count_if (fun e => negb (p e)) s = length s.
Proof.
  unfold count_if. induction s as [|x s IH]; simpl; auto.
  destruct (p x); simpl; lia.
Qed.

(** What the cell counts as removed: the rows whose absolute error is not
    strictly below the quantile, the rows at the quantile among them. *)
Lemma cell_outliers_n_removed (k k' : kernel) :
  cell_outliers k = (ok tt, k') ->
  exists abs_error q,
    quantile (95 # 100) abs_error = fin q /\
    vars k' !! "n_removed"
      = Some (VInt (Z.of_nat (count_if (fun e => negb (float_lt e (fin q))) abs_error))).
Proof.
  intros E.
  apply cell_outliers_ok in E
    as (l & df & f_l & rho & RHO & diff & q & l_kept & kept
        & Hv & Hh & _ & _ & _ & Hq & Hfilter & Hne & Hh1 & Hkept & Hvars).
  apply filter_rows_ok_inv in Hfilter as [Hlen Hk].
  exists (map Qabs diff), q. split; [assumption|].
  rewrite Hvars, lookup_insert_eq. do 2 f_equal.
  rewrite Hk. unfold len in *. simpl in *.
  rewrite length_map in Hlen.
  rewrite select_map_length by congruence.
  pose proof (count_if_negb (fun e => float_lt e (fin q)) (map Qabs diff)) as Hc.
  simpl in Hc. lia.
Qed.

End RemovalFacts.

(** ** A run on an example *)

(** Stand-ins for the numerical library, to run the cells: a "fit" that
    takes the mean of [RHO] for intercept and the spreads of the two
    regressors for slopes. *)
Definition toy_numpy : NumPy :=
  {| np_log := fun x => (x - 1)%Q;
     np_sqrt := fun x => x;
     np_corrcoef := fun _ _ => 0%Q;
     np_std := fun _ => 0%Q |}.

Definition toy_fit (formula : string) (train : frame) : result ols_params :=
  let! rho := getitem train "RHO" in
  let! fl := getitem train "force_log" in
  let! lc := getitem train "l" in
  ok {| Intercept := np_mean rho;
        coef_force_log := np_mean fl;
        coef_l := np_mean lc;
        coef_force_log_l := (np_mean fl * np_mean lc)%Q |}.

Definition toy_library : Library :=
  {| ols_fit := toy_fit;
     pearsonr_p := fun _ _ => 0%Q |}.

Definition sample_result : frame :=
  {| index := seq 0 12;
     num_cols :=
       {[ "RHO" := [250; 300; 320; 280; 350; 400; 310; 290; 330; 360; 270; 340]%Q;
          "force_median" := [2; 3; 3; 2; 4; 5; 3; 2; 4; 4; 2; 4]%Q;
          "force_log" := [1; 2; 2; 1; 3; 4; 2; 1; 3; 3; 1; 3]%Q;
          "l" := [1#2; 1#4; 1#4; 1#2; 1#5; 1#10; 1#4; 1#2; 1#5; 1#5; 1#2; 1#5]%Q;
          "mean_samp" := [260; 310; 300; 290; 340; 380; 300; 300; 320; 350; 280; 330]%Q;
          "error" := [10; 10; -20; 10; -10; -20; -10; 10; -10; -10; 10; -10]%Q ]};
     txt_cols :=
       {[ "ice_type" := ["f"; "f"; "f"; "m"; "m"; "m"; "f"; "f"; "m"; "m"; "f"; "m"] ]} |}.

Definition sample_kernel : kernel :=
  {| heap := {[ 0 := sample_result ]};
     vars := {[ "result" := VFrame 0 ]};
     files := ∅ |}.

(** Parameters as ten folds could give them: intercept 1, force term 2,
    length term 3, interaction term 4 in every fold. *)
Definition sample_params : list ols_params :=
  replicate 10 {| Intercept := 1; coef_force_log := 2; coef_l := 3;
                  coef_force_log_l := 4 |}.

Definition sample_params_kernel : kernel :=
  {| heap := ∅;
     vars := {[ "params" := VArray (Arr2 (map values sample_params)) ]};
     files := ∅ |}.

(** C4, as the specification states it, fails: with the length term 3
    and the interaction term 4 the persisted vector is [1; 2; 4; 3], the
    interaction term before the length term. *)
Lemma persisted_vector_order_counterexample :
  let run := @cell_coeff toy_numpy "model_k20a_coeff" density_k20a_coeffs
               sample_params_kernel in
  fst run = ok tt /\
  files (snd run) !! density_k20a_coeffs = Some (PList [1; 2; 4; 3]%Q) /\
  claimed_coeff sample_params = [1; 2; 3; 4]%Q /\
  files (snd run) !! density_k20a_coeffs <> Some (PList (claimed_coeff sample_params)).
Proof.
  assert (files (snd (@cell_coeff toy_numpy "model_k20a_coeff" density_k20a_coeffs
                        sample_params_kernel)) !! density_k20a_coeffs
          = Some (PList [1; 2; 4; 3]%Q)) as E by (vm_compute; reflexivity).
  cbv zeta. split; [vm_compute; reflexivity|]. split; [exact E|].
  split; [vm_compute; reflexivity|].
  rewrite E. vm_compute. discriminate.
Qed.

Lemma persisted_vector_order_witness :
  exists k',
    @cell_coeff toy_numpy "model_k20a_coeff" density_k20a_coeffs sample_params_kernel
    = (ok tt, k') /\
    (exists a b c d, files k' !! density_k20a_coeffs = Some (PList [a; b; c; d])) /\
    (forall P,
       vars sample_params_kernel !! "params" = Some (VArray (Arr2 (map values P))) ->
       files k' !! density_k20a_coeffs =
         Some (PList [ np_round (np_mean (map Intercept P)) 2;
                       np_round (np_mean (map coef_force_log P)) 2;
                       np_round (np_mean (map coef_force_log_l P)) 2;
                       np_round (np_mean (map coef_l P)) 2 ])).
Proof.
  eexists. split; [vm_compute; reflexivity|].
  apply (@persisted_vector_order toy_numpy "model_k20a_coeff" density_k20a_coeffs
           sample_params_kernel).
  - discriminate.
  - vm_compute. reflexivity.
Defined.

Lemma density_estimate_is_bilinear_witness :
  length [2; 3]%Q = length [5; 7]%Q /\
  (exists rho,
      @Matching.density_k2020 toy_numpy [10; 20; 30; 40]%Q [2; 3]%Q [5; 7]%Q = ok rho /\
      length rho = 2 /\
      forall i F Lv, [2; 3]%Q !! i = Some F -> [5; 7]%Q !! i = Some Lv ->
        rho !! i = Some (10 + 20 * @np_log toy_numpy F
                         + 30 * @np_log toy_numpy F * Lv + 40 * Lv)%Q).
Proof.
  split; [reflexivity|].
  apply (@density_estimate_is_bilinear toy_numpy 10 20 30 40 [] [2; 3]%Q [5; 7]%Q).
  reflexivity.
Defined.


(** A frame of twenty comparisons in which the comparison with the
    largest error was entered twice (rows 18 and 19). *)
Definition tie_result : frame :=
  {| index := seq 0 20;
     num_cols :=
       {[ "RHO" := [301; 302; 303; 304; 305; 306; 307; 308; 309; 310;
                    311; 312; 313; 314; 315; 316; 317; 318; 320; 320]%Q;
          "force_log" := replicate 20 0%Q;
          "l" := replicate 20 1%Q ]};
     txt_cols := ∅ |}.

Definition tie_kernel : kernel :=
  {| heap := {[ 0 := tie_result ]};
     vars := {[ "result" := VFrame 0; "model_k20a_coeff" := VList [300; 0; 0; 0]%Q ]};
     files := ∅ |}.

(** C3 on this frame: the 0.95 quantile of the absolute errors is 20,
    the error of the two tied rows; the cell keeps the rows with an error
    strictly below it and so removes both, where [ceil(0.05 * 20)] is 1. *)
Lemma outlier_removal_exceeds_bound :
  let run := @run_all [ @cell_apply "k20a_rho" "model_k20a_coeff" "result";
                        @cell_outliers ] tie_kernel in
  fst run = ok tt /\
  vars (snd run) !! "q_95" = Some (VFloat (fin (Qmake 2000 100))) /\
  vars (snd run) !! "n_removed" = Some (VInt 2) /\
  removal_bound 20 = 1%Z.
Proof. vm_compute. repeat split; reflexivity. Qed.

(** The kernel at the outlier cell of a run on the sample: a fresh kernel
    with the sample in the pickle of Part 1, after the cells before. *)
Definition sample_start : kernel :=
  {| heap := ∅; vars := ∅; files := {[ smp_pit_filtered := PFrame sample_result ]} |}.

Definition sample_before_outliers : kernel :=
  snd (run_all (@cell_load toy_numpy
                  :: @recalibration_a KFold.toy_random toy_numpy toy_library 0%Z)
         sample_start).

Example sample_notebook_runs :
  fst (run_all (@notebook KFold.toy_random toy_numpy toy_library 0%Z) sample_start)
  = ok tt.
Proof. vm_compute. reflexivity. Qed.

Lemma outlier_removal_keeps_result_witness :
  exists df k1,
    vars sample_before_outliers !! "result" = Some (VFrame 0) /\
    heap sample_before_outliers !! 0 = Some df /\
    cell_outliers sample_before_outliers = (ok tt, k1) /\
    (vars k1 !! "result" = Some (VFrame 0) /\
     heap k1 !! 0 = Some df /\
     exists l_lim, vars k1 !! "result_lim" = Some (VFrame l_lim) /\ l_lim <> 0) /\
    (forall k2,
        run_all (@recalibration_b KFold.toy_random toy_numpy toy_library 0%Z
                   ++ [@cell_p2015 toy_numpy toy_library])
          k1 = (ok tt, k2) ->
        vars k2 !! "result" = Some (VFrame 0) /\
        heap k2 !! 0 = Some df /\
        exists mean_samp RHO err diff,
          getitem df "mean_samp" = ok mean_samp /\
          getitem df "RHO" = ok RHO /\
          getitem df "error" = ok err /\
          zip_with_same Qminus mean_samp RHO = ok diff /\
          vars k2 !! "p2015_rmse"
            = Some (VFloat (fin (@np_sqrt toy_numpy
                                   (np_mean (map (fun d => d ^ 2)%Q diff))))) /\
          vars k2 !! "p2015_bias" = Some (VFloat (fin (np_mean err))) /\
          vars k2 !! "p2015_r2"
            = Some (VFloat (fin (@np_corrcoef toy_numpy mean_samp RHO ^ 2)%Q)) /\
          vars k2 !! "p2015_n" = Some (VInt (Z.of_nat (length mean_samp))) /\
          vars k2 !! "p2015_p"
            = Some (VFloat (fin (@pearsonr_p toy_library mean_samp RHO)))).
Proof.
  eexists _, _.
  split; [vm_compute; reflexivity|].
  split; [vm_compute; reflexivity|].
  split; [vm_compute; reflexivity|].
  apply (@outlier_removal_keeps_result KFold.toy_random toy_numpy toy_library 0%Z
           sample_before_outliers).
  - vm_compute. reflexivity.
  - vm_compute. reflexivity.
  - vm_compute. reflexivity.
Defined.

End Recalibration.

(** * The two notebooks as a whole: exceptions and reproducibility *)

Module Pipeline.

Import Recalibration.

(** ** An exception goes through a loop *)

Lemma for_each_raise {A B} (f : A -> result B) (before after : list A) (x : A)
    (ys : list B) (e : exn) :
  for_each f before = ok ys -> f x = raise e ->
  for_each f (before ++ x :: after) = raise e.
Proof.
  revert ys. induction before as [|b before IH]; intros ys; simpl.
  - intros _ ->. reflexivity.
  - destruct (f b) as [e'|y]; simpl; [discriminate|].
    destruct (for_each f before) as [e'|ys']; simpl; [discriminate|].
    intros _ Hx. rewrite (IH ys' eq_refl Hx). reflexivity.
Qed.

Lemma for_loop_raise {S A} (body : A -> prog S unit) (before after : list A)
    (x : A) (k k1 k2 : S) (e : exn) :
  for_loop body before k = (ok tt, k1) -> body x k1 = (raise e, k2) ->
  for_loop body (before ++ x :: after) k = (raise e, k2).
Proof.
  revert k. induction before as [|b before IH]; intros k; simpl.
  - intros E Hx. apply cret_inv in E as [-> _]. unfold cbind. rewrite Hx. reflexivity.
  - unfold cbind. destruct (body b k) as [[e'|[]] k']; [discriminate|]. apply IH.
Qed.

Lemma run_all_raise (c : cell unit) (rest : list (cell unit)) k e k' :
  c k = (raise e, k') -> run_all (c :: rest) k = (raise e, k').
Proof. intros E. simpl. unfold cbind. rewrite E. reflexivity. Qed.

Lemma run_all_ext (cells1 cells2 : list (cell unit)) :
  Forall2 (fun c1 c2 => forall k, c1 k = c2 k) cells1 cells2 ->
  forall k, run_all cells1 k = run_all cells2 k.
Proof.
  induction 1 as [|c1 c2 cells1 cells2 Hc _ IH]; intros k; simpl.
  - reflexivity.
  - unfold cbind. rewrite Hc. destruct (c2 k) as [[e|[]] k1]; [reflexivity|apply IH].
Qed.

(** ** The order of the directory listing does not matter *)

Lemma insert_name_Permutation (x : string) (names : list string) :
  Permutation (Matching.insert_name x names) (x :: names).
Proof.
  induction names as [|y names IH]; simpl.
  - reflexivity.
  - destruct (String.leb x y); [reflexivity|]. rewrite IH. apply perm_swap.
Qed.

Lemma sorted_Permutation (names : list string) :
  Permutation (Matching.sorted names) names.
Proof.
  unfold Matching.sorted. induction names as [|x names IH]; simpl.
  - reflexivity.
  - rewrite insert_name_Permutation. now constructor.
Qed.

Lemma insert_name_Sorted (x : string) (names : list string) :
  StronglySorted String.le names ->
  StronglySorted String.le (Matching.insert_name x names).
Proof.
  induction 1 as [|y names Hs IH Hy]; simpl.
  - repeat constructor.
  - destruct (String.leb x y) eqn:E.
    + constructor; [now constructor|]. constructor.
      * unfold String.le. now rewrite E.
      * eapply Forall_impl; [exact Hy|]. intros z Hz.
        transitivity y; [|assumption]. unfold String.le. now rewrite E.
    + assert (String.le y x) as Hyx.
      { destruct (total String.le x y) as [H|H]; [|assumption].
        unfold String.le in H. rewrite E in H. destruct H. }
      constructor; [assumption|].
      apply Forall_forall. intros z Hz. apply list_elem_of_In in Hz.
      apply (Permutation_in _ (insert_name_Permutation x names)) in Hz.
      destruct Hz as [<-|Hz]; [assumption|].
      rewrite Forall_forall in Hy. apply Hy. now apply list_elem_of_In.
Qed.

Lemma sorted_Sorted (names : list string) :
  StronglySorted String.le (Matching.sorted names).
Proof.
  unfold Matching.sorted. induction names as [|x names IH]; simpl.
  - constructor.
  - now apply insert_name_Sorted.
Qed.

(** [sorted(os.listdir(...))]: whatever order the operating system lists
    the directory in, the files are loaded in one order. *)
Lemma sorted_order_independent (names1 names2 : list string) :
  Permutation names1 names2 -> Matching.sorted names1 = Matching.sorted names2.
Proof.
  intros H. apply (StronglySorted_unique String.le); try apply sorted_Sorted.
  rewrite !sorted_Permutation. assumption.
Qed.

Section Notebooks.

Context {R : Random} {N : NumPy} {S : Matching.SMP} {L : Library}.

(** ** Exceptions *)

(** C8. No operation of the pipeline catches an exception or tries
    again: whatever an operation raises is what its cell raises, and
    nothing else is produced.
    - File loading: an exception of [os.listdir], of [Profile.load], of
      [preprocess], of [detect_ground] or of [detect_surface] is the
      exception of [load_smp] and of the cell that builds [smp_data].
    - Regression fitting: an exception of the OLS fit in some fold is the
      exception of the loop body, of the K-fold loop and of its cell; the
      kernel is as the folds before left it (no later fold runs, nothing
      is put in place of the failed fit) and the cells after it do not
      run.
    - Alignment scoring: an exception of [calc_skill] on some candidate is
      the exception of the matching cell. *)
Theorem exceptions_propagate (e : exn) :
  (* file loading *)
  (forall file,
      (Matching.Profile_load file = raise e -> Matching.load_smp file = raise e) /\
      (forall p, Matching.Profile_load file = ok p ->
                 Matching.preprocess p 0 = raise e ->
                 Matching.load_smp file = raise e) /\
      (forall p p', Matching.Profile_load file = ok p ->
                    Matching.preprocess p 0 = ok p' ->
                    Matching.detect_ground p' = raise e ->
                    Matching.load_smp file = raise e) /\
      (forall p p' ground, Matching.Profile_load file = ok p ->
                    Matching.preprocess p 0 = ok p' ->
                    Matching.detect_ground p' = ok ground ->
                    Matching.detect_surface (snd ground) = raise e ->
                    Matching.load_smp file = raise e)) /\
  (forall input_data,
      (Matching.os_listdir input_data = raise e ->
       Matching.smp_data_cell input_data = raise e) /\
      (forall before file after loaded,
          Matching.file_list input_data = ok (before ++ file :: after) ->
          for_each Matching.load_smp before = ok loaded ->
          Matching.load_smp file = raise e ->
          Matching.smp_data_cell input_data = raise e)) /\
  (* regression fitting *)
  (forall global data formula k k0 l df before fold after k1 train test rest,
      cv_begin k = (ok tt, k0) ->
      vars k0 !! data = Some (VFrame l) ->
      heap k0 !! l = Some df ->
      KFold.k_fold_split global (len df) = ok (before ++ fold :: after) ->
      for_loop (cv_body data formula) before k0 = (ok tt, k1) ->
      iloc df (fst fold) = ok train ->
      iloc df (snd fold) = ok test ->
      ols_fit formula train = raise e ->
      cv_body data formula fold k1 = (raise e, k1) /\
      for_loop (cv_body data formula) (before ++ fold :: after) k0 = (raise e, k1) /\
      cell_kfold global data formula k = (raise e, k1) /\
      run_all (cell_kfold global data formula :: rest) k = (raise e, k1)) /\
  (* alignment scoring *)
  (forall num_tests smp g fg tests g' scaled sampled before profile after skills,
      Matching.first_guess smp = ok fg ->
      for_each_prog
        (fun x => Matching.random_stretch x Matching.MAX_STRETCH_OVERALL
                    Matching.MAX_STRETCH_LAYER)
        (replicate num_tests (Matching.num_sections (fst fg))) g = (ok tests, g') ->
      for_each (fun test => Matching.scale_profile test (Matching.distance (fst fg))
                              (Matching.density (fst fg)) Matching.L_RESAMPLE
                              Matching.H_RESAMPLE) tests = ok scaled ->
      for_each (fun dr => Matching.extract_samples (fst dr) (snd dr)
                            (Matching.relative_height (snd fg)) Matching.CUTTER_SIZE)
               scaled = ok sampled ->
      for_each (fun profile => Matching.pd_concat profile (snd fg)) sampled
        = ok (before ++ profile :: after) ->
      for_each (fun profile => Matching.calc_skill profile Matching.CUTTER_SIZE) before
        = ok skills ->
      Matching.calc_skill profile Matching.CUTTER_SIZE = raise e ->
      Matching.search_cell num_tests smp g = (raise e, g')).
Proof.
  split; [|split; [|split]].
  - intros file. unfold Matching.load_smp. repeat split.
    + intros ->. reflexivity.
    + intros p -> Hp. simpl. rewrite Hp. reflexivity.
    + intros p p' -> Hp Hg. simpl. rewrite Hp. simpl. rewrite Hg. reflexivity.
    + intros p p' ground -> Hp Hg Hs. simpl. rewrite Hp. simpl. rewrite Hg. simpl.
      rewrite Hs. reflexivity.
  - intros input_data. unfold Matching.smp_data_cell. split.
    + intros H. unfold Matching.file_list. rewrite H. reflexivity.
    + intros before file after loaded -> Hbefore Hfile. simpl.
      now apply for_each_raise with loaded.
  - intros global data formula k k0 l df before fold after k1 train test rest
      Hbegin Hv Hh Hsplit Hbefore Htrain Htest Hfit.
    destruct (cv_begin_data _ _ _ _ Hbegin Hv)
      as ((Hrmse & Hr & Herror & Hparams) & _ & _ & _).
    assert (vars k1 !! data = Some (VFrame l)) as Hv1.
    { pose proof (keeps_for_loop (fun k => vars k !! data) (cv_body data formula) before
                    (fun x => keeps_var_cv_body data formula x data
                                Hrmse Hr Herror Hparams) k0) as Hk.
      rewrite Hbefore in Hk. simpl in Hk. congruence. }
    assert (heap k1 !! l = Some df) as Hh1.
    { pose proof (keeps_for_loop heap (cv_body data formula) before
                    (keeps_heap_cv_body data formula) k0) as Hk.
      rewrite Hbefore in Hk. simpl in Hk. congruence. }
    pose proof (cv_body_fit_raises _ _ _ _ _ _ _ _ _ Hv1 Hh1 Htrain Htest Hfit) as Hbody.
    pose proof (for_loop_raise _ _ after _ _ _ _ _ Hbefore Hbody) as Hloop.
    assert (cell_kfold global data formula k = (raise e, k1)) as Hcell.
    { unfold cell_kfold, cbind. rewrite Hbegin.
      unfold frame_of, frame_ref, lookup_var, cbind, cret, lift.
      rewrite Hv. simpl. rewrite Hh. simpl. rewrite Hsplit. exact Hloop. }
    split; [assumption|]. split; [assumption|]. split; [assumption|].
    now apply run_all_raise.
  - intros num_tests smp g fg tests g' scaled sampled before profile after skills
      Hfg Htests Hscaled Hsampled Hconcat Hbefore Hskill.
    unfold Matching.search_cell, cbind, lift.
    pose proof (for_each_raise _ _ after _ _ _ Hbefore Hskill) as Hraise.
    unfold ok, raise in *.
    rewrite Hfg. cbv beta zeta iota. rewrite Htests. cbv beta zeta iota.
    rewrite Hscaled. cbv beta zeta iota. rewrite Hsampled. cbv beta zeta iota.
    rewrite Hconcat. cbv beta zeta iota. rewrite Hraise. reflexivity.
Qed.

(** ** Reproducibility *)

Lemma cell_kfold_global (g1 g2 : rng) data formula k :
  cell_kfold g1 data formula k = cell_kfold g2 data formula k.
Proof.
  unfold cell_kfold, cbind. destruct (cv_begin k) as [[e|[]] k0]; [reflexivity|].
  destruct (frame_of data k0) as [[e|df] k1]; [reflexivity|].
  unfold lift, KFold.k_fold_split.
  now rewrite (proj1 (KFold.split_seeded KFold.k_fold KFold.RANDOM_SEED (len df)
                        g1 g2 eq_refl)).
Qed.

(** C9. Two runs on the same input data give the same results whatever
    state numpy's global generator starts in: the matching notebook seeds
    it with 2019 before anything draws from it, so that the sampled stretch
    candidates, their scores, the selected candidate and the density
    estimate are the same; [KFold] shuffles with a generator of its own
    seeded with 2019, so that the fold splits are the same; and with them
    everything the recalibration notebook computes and persists. *)
Theorem runs_are_reproducible (g1 g2 : rng) :
  (forall input_data coeffs,
      Matching.annex_notebook input_data coeffs g1
      = Matching.annex_notebook input_data coeffs g2) /\
  (forall n_samples,
      KFold.k_fold_split g1 n_samples = KFold.k_fold_split g2 n_samples) /\
  (forall k, run_all (notebook g1) k = run_all (notebook g2) k).
Proof.
  split; [|split].
  - intros input_data coeffs. reflexivity.
  - intros n_samples. unfold KFold.k_fold_split.
    apply (KFold.split_seeded KFold.k_fold KFold.RANDOM_SEED n_samples g1 g2 eq_refl).
  - apply run_all_ext. unfold notebook, recalibration_a, recalibration_b. simpl.
    repeat constructor; try reflexivity; intros k; apply cell_kfold_global.
Qed.

End Notebooks.

(** ** A run of the matching notebook on an example *)

(** Stand-ins for the instrument library and for [smpfunc]: three files in
    the directory, one of which does not load; stretch factors drawn from
    the counter that stands for the generator. *)
Definition toy_random_stretch (n : nat) (overall_d layer_d : Q)
    : prog (@rng KFold.toy_random) (list Q) :=
  fun g : Z => (ok (replicate n (inject_Z (g mod 5) / 100)%Q), (g * 7 + 1)%Z).

Definition toy_smp : @Matching.SMP KFold.toy_random :=
  {| Matching.Profile := string;
     Matching.pit_frame := list Q;
     Matching.samples := list Q;
     Matching.os_listdir := fun _ => ok ["S34M0002.pnt"; "notes.txt"; "S34M0001.pnt"];
     Matching.Profile_load := fun f =>
       if String.eqb f "./data/S34M0002.pnt"
       then raise (LibraryError "not a pnt file") else ok f;
     Matching.preprocess := fun p _ => ok p;
     Matching.detect_ground := fun p => ok (0%Q, p);
     Matching.detect_surface := fun p => ok (0%Q, p);
     Matching.first_guess := fun _ =>
       ok ({| Matching.distance := [0; 1; 2]%Q;
              Matching.density := [300; 310; 320]%Q;
              Matching.force_median := [1; 2; 3]%Q;
              Matching.l := [1; 1; 1]%Q |}, [15; 45]%Q);
     Matching.relative_height := fun p => p;
     Matching.random_stretch := toy_random_stretch;
     Matching.scale_profile := fun test dist rho _ _ =>
       ok (dist, map (fun x => x + hd 0%Q test)%Q rho);
     Matching.extract_samples := fun _ rho _ _ => ok rho;
     Matching.mean_samp := fun p => p;
     Matching.pd_concat := fun p _ => ok p;
     Matching.assign_l_force_median := fun p _ _ => ok p;
     Matching.calc_skill := fun p _ =>
       ok {| Matching.r := fin (hd 0%Q p - 300);
             Matching.rmse := fin 1;
             Matching.rmse_corr := fin 1;
             Matching.mae := fin 1 |} |}.

Lemma exceptions_propagate_witness :
  @Matching.Profile_load _ toy_smp "./data/S34M0002.pnt"
    = raise (LibraryError "not a pnt file") /\
  @Matching.load_smp _ toy_smp "./data/S34M0002.pnt"
    = raise (LibraryError "not a pnt file") /\
  @Matching.smp_data_cell _ toy_smp "./data" = raise (LibraryError "not a pnt file").
Proof.
  pose proof (@exceptions_propagate KFold.toy_random toy_numpy toy_smp toy_library
                (LibraryError "not a pnt file")) as (Hload & Hdata & _).
  split; [reflexivity|]. split.
  - apply (proj1 (Hload "./data/S34M0002.pnt")). reflexivity.
  - apply (proj2 (Hdata "./data") ["./data/S34M0001.pnt"] "./data/S34M0002.pnt" []
             ["./data/S34M0001.pnt"]); reflexivity.
Defined.

Example toy_search_selects :
  let run := @Matching.search_cell _ toy_smp 5 "S34M0001" 3%Z in
  option_map (@Matching.selected_idx _ toy_smp)
    (match fst run with
     | inr s => match @Matching.selection_cell _ toy_smp s with
                | inr sel => Some sel
                | inl _ => None
                end
     | inl _ => None
     end) = Some 0.
Proof. vm_compute. reflexivity. Qed.

Lemma selected_candidate_is_best_witness :
  exists s g' sel,
    @Matching.search_cell _ toy_smp 5 "S34M0001" 3%Z = (ok s, g') /\
    @Matching.selection_cell _ toy_smp s = ok sel /\
    exists skills sk,
      Matching.retrieved_skill s = Matching.DataFrame skills /\
      length skills = length (Matching.random_tests s) /\
      length skills = 5 /\
      nth_error skills (Matching.selected_idx sel) = Some sk /\
      Matching.random_tests s !! Matching.selected_idx sel
        = Some (Matching.selected_coeff sel) /\
      forall i t, nth_error skills i = Some t -> Matching.at_least_as_good sk t.
Proof.
  eexists _, _, _.
  split; [vm_compute; reflexivity|].
  split; [vm_compute; reflexivity|].
  eapply (@Matching.selected_candidate_is_best KFold.toy_random toy_smp 5 "S34M0001" 3%Z).
  - vm_compute. reflexivity.
  - vm_compute. reflexivity.
Defined.

End Pipeline.

(** * Annex_Matching: the cells around the search *)

Module Alignment.

Import Matching.

(** ** The calibration files *)

(** What [file_list] makes of the names [os.listdir] returned. *)
Definition pnt_files (input_data : string) (names : list string) : list string :=
  map (path_join input_data)
      (filter (fun f => endswith f ".pnt" = true) (sorted names)).

(** ** The pit heights *)

(** [s.max()]: NaN for an empty series. *)
Fixpoint max_from (m : Q) (s : list Q) : Q :=
  match s with
  | [] => m
  | x :: s' => max_from (if Qle_bool m x then x else m) s'
  end.

Definition series_max (s : list Q) : float64 :=
  match s with
  | [] => nan
  | x :: s' => fin (max_from x s')
  end.

(** [np.abs(((density_df['TOP']*10) - CUTTER_SIZE)
            - density_df['TOP'].max()*10).values] *)
Definition relative_height_values (TOP : list Q) : list Q :=
  match series_max TOP with
  | nan => []
  | fin top_max =>
      map (fun top => Qabs ((top * 10 - CUTTER_SIZE) - top_max * 10)) TOP
  end.

(** ** The layers *)

(** [a.cumsum()] *)
Fixpoint cumsum_from (acc : Q) (a : list Q) : list Q :=
  match a with
  | [] => []
  | x :: a' => (acc + x)%Q :: cumsum_from (acc + x)%Q a'
  end.

Definition cumsum (a : list Q) : list Q :=
  match a with
  | [] => []
  | x :: a' => x :: cumsum_from x a'
  end.

(** [layer_thickness_scaled = L_RESAMPLE + (min_scaling_coeff * L_RESAMPLE)];
    [layer_height_scalled = layer_thickness_scaled.cumsum()]. The selected
    coefficients are a numpy array (on a list neither line would run). *)
Definition layer_thickness_scaled (min_scaling_coeff : list Q) : list Q :=
  map (fun c => L_RESAMPLE + c * L_RESAMPLE)%Q min_scaling_coeff.

Definition layer_height_scalled (min_scaling_coeff : list Q) : list Q :=
  cumsum (layer_thickness_scaled min_scaling_coeff).

(** [layer_thickness = np.repeat(L_RESAMPLE, num_sections)];
    [layer_height = layer_thickness.cumsum()] *)
Definition layer_thickness (num_sections : nat) : list Q :=
  replicate num_sections L_RESAMPLE.

Definition layer_height (num_sections : nat) : list Q :=
  cumsum (layer_thickness num_sections).

(** ** The ranking, strictly *)

Definition rmse_better (x y : float64) : Prop :=
  match x, y with
  | fin a, fin b => (a < b)%Q
  | fin _, nan => True
  | nan, _ => False
  end.

(** Higher correlation, or the same correlation and a lower
    bias-corrected RMSE. *)
Definition strictly_better (s t : skill) : Prop :=
  r_better (r s) (r t) \/ (r_same (r s) (r t) /\ rmse_better (rmse_corr s) (rmse_corr t)).

(** ** Facts: the files *)

Lemma filter_StronglySorted {A} (R : A -> A -> Prop) (P : A -> Prop)
    `{forall x, Decision (P x)} (l : list A) :
  StronglySorted R l -> StronglySorted R (filter P l).
Proof.
  induction 1 as [|x l Hl IH Hx]; [constructor|].
  rewrite filter_cons. destruct (decide (P x)); [|assumption].
  constructor; [assumption|].
  apply Forall_forall. intros y Hy. apply list_elem_of_filter in Hy as [_ Hy].
  rewrite Forall_forall in Hx. now apply Hx.
Qed.

Section Files.

Context {R : Random} {S : SMP}.

(** X1. [file_list] holds the names that end in [.pnt], each once per listing,
    in ascending order, under the directory. *)
Theorem file_list_sorted_pnt (input_data : string) (names : list string) :
  os_listdir input_data = ok names ->
  exists kept,
    file_list input_data = ok (map (path_join input_data) kept) /\
    StronglySorted String.le kept /\
    Permutation kept (filter (fun f => endswith f ".pnt" = true) names) /\
    (forall f, In f kept <-> In f names /\ endswith f ".pnt" = true) /\
    length kept <= length names.
Proof.
  intros Hls.
  exists (filter (fun f => endswith f ".pnt" = true) (sorted names)).
  assert (Permutation (filter (fun f => endswith f ".pnt" = true) (sorted names))
                      (filter (fun f => endswith f ".pnt" = true) names)) as Hperm.
  { apply filter_Permutation, Pipeline.sorted_Permutation. }
  split; [unfold file_list; rewrite Hls; reflexivity|].
  split; [apply filter_StronglySorted, Pipeline.sorted_Sorted|].
  split; [assumption|]. split.
  - intros f. rewrite <- !list_elem_of_In, Hperm, list_elem_of_filter. tauto.
  - rewrite Hperm. apply length_filter.
Qed.

(** X2. In whatever order the operating system lists the directory, the
    files come in one order. *)
Theorem file_list_order_independent (input_data : string) (names names' : list string) :
  os_listdir input_data = ok names ->
  Permutation names names' ->
  file_list input_data = ok (pnt_files input_data names').
Proof.
  intros Hls Hperm. unfold file_list, pnt_files. rewrite Hls. simpl.
  now rewrite (Pipeline.sorted_order_independent names names' Hperm).
Qed.

Context {N : NumPy}.

Lemma for_each_lookup {A B} (f : A -> result B) (xs : list A) (ys : list B) i y :
  for_each f xs = ok ys -> ys !! i = Some y ->
  exists x, xs !! i = Some x /\ f x = ok y.
Proof.
  revert ys i. induction xs as [|x xs IH]; intros ys i; simpl.
  - intros E. injection E as <-. discriminate.
  - destruct (f x) as [e|y0] eqn:Ex; simpl; [discriminate|].
    destruct (for_each f xs) as [e|ys'] eqn:Exs; simpl; [discriminate|].
    intros E. injection E as <-. destruct i as [|i]; simpl.
    + intros E. injection E as <-. eauto.
    + intros Hy. apply (IH ys' i eq_refl Hy).
Qed.

(** X3. [smp = smp_data[11]]: there is one profile per [.pnt] file; with fewer
    than twelve the notebook stops there with an IndexError, having seeded
    the generator and drawn nothing; with twelve or more it goes on with
    the profile of the twelfth file in name order. *)
Theorem twelfth_profile (input_data : string) (coeffs : list Q) (g : rng)
    (names : list string) (smp_data : list Profile) :
  os_listdir input_data = ok names ->
  smp_data_cell input_data = ok smp_data ->
  length smp_data = length (filter (fun f => endswith f ".pnt" = true) names) /\
  (length smp_data < 12 ->
   annex_notebook input_data coeffs g
   = (raise (IndexError "list index out of range"), RandomState 2019)) /\
  (forall smp, smp_data !! 11 = Some smp ->
   (exists file, pnt_files input_data names !! 11 = Some file /\
                 load_smp file = ok smp) /\
   annex_notebook input_data coeffs g
   = (let* s := search_cell (N.to_nat NUM_TESTS) smp in
      let* sel := lift (selection_cell s) in
      let* rho := lift (density_k2020 coeffs (scaled_force_median sel) (scaled_l sel)) in
      cret (s, sel, rho)) (RandomState 2019)).
Proof.
  intros Hls Hdata.
  assert (for_each load_smp (pnt_files input_data names) = ok smp_data) as Hloads.
  { unfold smp_data_cell, file_list in Hdata. rewrite Hls in Hdata. exact Hdata. }
  split; [|split].
  - rewrite (for_each_length _ _ _ Hloads). unfold pnt_files.
    rewrite length_map. apply Permutation_length, filter_Permutation.
    apply Pipeline.sorted_Permutation.
  - intros Hlen. unfold annex_notebook, cbind, seed_cell, lift, list_item.
    unfold ok in *. rewrite Hdata. cbv beta iota.
    rewrite lookup_ge_None_2 by lia. reflexivity.
  - intros smp Hsmp. split.
    + apply (for_each_lookup _ _ _ _ _ Hloads Hsmp).
    + unfold annex_notebook, cbind, seed_cell, lift, list_item.
      unfold ok in *. rewrite Hdata. cbv beta iota. rewrite Hsmp. reflexivity.
Qed.

End Files.


(** ** Facts: the pit heights *)

Lemma max_from_ge (m : Q) (s : list Q) :
  (m <= max_from m s)%Q /\ forall x, In x s -> (x <= max_from m s)%Q.
Proof.
  revert m. induction s as [|y s IH]; intros m; simpl.
  - split; [apply Qle_refl|tauto].
  - destruct (IH (if Qle_bool m y then y else m)) as [Hm Hs].
    destruct (Qle_bool m y) eqn:E.
    + apply Qle_bool_iff in E. split; [now apply Qle_trans with y|].
      intros x [<-|Hx]; [assumption|now apply Hs].
    + assert (y <= m)%Q as Hym.
      { apply Qlt_le_weak, Qnot_le_lt. intros H. apply Qle_bool_iff in H. congruence. }
      split; [assumption|].
      intros x [<-|Hx]; [now apply Qle_trans with m|now apply Hs].
Qed.

Lemma max_from_In (m : Q) (s : list Q) : In (max_from m s) (m :: s).
Proof.
  revert m. induction s as [|y s IH]; intros m; simpl.
  - now left.
  - destruct (IH (if Qle_bool m y then y else m)) as [H|H].
    + destruct (Qle_bool m y); [right; left|left]; exact H.
    + right. right. exact H.
Qed.

(** X4. The relative height of a sample is the distance of its top below the
    highest top, in mm, plus half a cutter: the absolute value never
    turns a height over, no sample is above [CUTTER_SIZE], and the highest
    sample is at [CUTTER_SIZE]. *)
Theorem relative_height_below_top (TOP : list Q) :
  length (relative_height_values TOP) = length TOP /\
  (forall i top, TOP !! i = Some top ->
     exists top_max h,
       series_max TOP = fin top_max /\
       relative_height_values TOP !! i = Some h /\
       (top <= top_max)%Q /\
       (h == 10 * (top_max - top) + CUTTER_SIZE)%Q /\
       (CUTTER_SIZE <= h)%Q) /\
  (TOP <> [] ->
     exists i h, relative_height_values TOP !! i = Some h /\ (h == CUTTER_SIZE)%Q).
Proof.
  unfold relative_height_values. destruct TOP as [|t0 TOP].
  - split; [reflexivity|]. split; [intros i top H; discriminate|congruence].
  - cbn [series_max]. set (m := max_from t0 TOP).
    destruct (max_from_ge t0 TOP) as [H0 Hs]. fold m in H0, Hs.
    assert (forall top, In top (t0 :: TOP) -> (top <= m)%Q) as Hle
      by (intros top [<-|H]; auto).
    assert (forall top, (top <= m)%Q ->
              (Qabs (top * 10 - CUTTER_SIZE - m * 10) == 10 * (m - top) + CUTTER_SIZE)%Q)
      as Habs.
    { intros top Htop. unfold CUTTER_SIZE.
      rewrite Qabs_neg by lra. lra. }
    split; [apply length_map|]. split.
    + intros i top Hi. exists m. eexists. split; [reflexivity|].
      split; [rewrite list_lookup_fmap, Hi; reflexivity|].
      assert (top <= m)%Q as Htop
        by (apply Hle, list_elem_of_In, list_elem_of_lookup; eauto).
      split; [assumption|]. split; [now apply Habs|].
      rewrite (Habs top Htop). unfold CUTTER_SIZE. lra.
    + intros _. pose proof (max_from_In t0 TOP) as Hin. fold m in Hin.
      apply list_elem_of_In, list_elem_of_lookup in Hin as [i Hi].
      exists i. eexists. split; [rewrite list_lookup_fmap, Hi; reflexivity|].
      rewrite Habs by apply Qle_refl. lra.
Qed.

(** ** Facts: the layers *)

(** X5. [num_sections] layers of [L_RESAMPLE] samples cover the resampled
    profile, and the last one is not empty. *)
Theorem num_sections_cover (smp_df : smp_frame) :
  length (distance smp_df) <= 50 * num_sections smp_df /\
  (0 < length (distance smp_df) ->
   50 * (num_sections smp_df - 1) < length (distance smp_df)).
Proof.
  unfold num_sections. set (n := length (distance smp_df)).
  assert (Qceiling (inject_Z (Z.of_nat n) / L_RESAMPLE)
          = (- (- (Z.of_nat n * 1) / 50))%Z) as -> by reflexivity.
  split.
  - assert (0 <= - (- (Z.of_nat n * 1) / 50))%Z by (Z.div_mod_to_equations; lia).
    apply Nat2Z.inj_le. rewrite Nat2Z.inj_mul, Z2Nat.id by assumption.
    Z.div_mod_to_equations. lia.
  - intros Hpos.
    assert (1 <= - (- (Z.of_nat n * 1) / 50))%Z by (Z.div_mod_to_equations; lia).
    apply Nat2Z.inj_lt. rewrite Nat2Z.inj_mul, Nat2Z.inj_sub, Z2Nat.id by lia.
    Z.div_mod_to_equations. lia.
Qed.

Lemma np_sum_from (acc : Q) (a : list Q) :
  (foldl Qplus acc a == acc + np_sum a)%Q.
Proof.
  unfold np_sum. revert acc. induction a as [|x a IH]; intros acc; simpl.
  - lra.
  - rewrite (IH (acc + x)%Q), (IH (0 + x)%Q). lra.
Qed.

Lemma np_sum_cons (x : Q) (a : list Q) : (np_sum (x :: a) == x + np_sum a)%Q.
Proof. unfold np_sum at 1. simpl. rewrite np_sum_from. lra. Qed.

Lemma cumsum_from_length acc a : length (cumsum_from acc a) = length a.
Proof. revert acc. induction a as [|x a IH]; intros acc; simpl; auto. Qed.

Lemma cumsum_length a : length (cumsum a) = length a.
Proof. destruct a; simpl; [reflexivity|]. now rewrite cumsum_from_length. Qed.

Lemma cumsum_from_lookup acc a i v :
  cumsum_from acc a !! i = Some v -> (v == acc + np_sum (take (S i) a))%Q.
Proof.
  revert acc i. induction a as [|x a IH]; intros acc i; simpl; [discriminate|].
  destruct i as [|i]; simpl.
  - intros E. injection E as <-. rewrite np_sum_cons. unfold np_sum. simpl. lra.
  - intros Hv. rewrite (IH _ _ Hv). rewrite (np_sum_cons x). lra.
Qed.

(** Entry [i] of a cumulative sum is the sum of the entries up to [i]. *)
Lemma cumsum_lookup a i v :
  cumsum a !! i = Some v -> (v == np_sum (take (S i) a))%Q.
Proof.
  destruct a as [|x a]; simpl; [discriminate|].
  destruct i as [|i]; simpl.
  - intros E. injection E as <-. unfold np_sum. simpl. lra.
  - intros Hv. rewrite (cumsum_from_lookup _ _ _ _ Hv), (np_sum_cons x). lra.
Qed.

Lemma np_sum_replicate (n : nat) (x : Q) :
  (np_sum (replicate n x) == inject_Z (Z.of_nat n) * x)%Q.
Proof.
  induction n as [|n IH].
  - change (0 == 0 * x)%Q. lra.
  - cbn [replicate]. rewrite np_sum_cons, IH, Nat2Z.inj_succ.
    unfold Z.succ. rewrite inject_Z_plus. change (inject_Z 1) with 1%Q. ring.
Qed.

Lemma np_sum_scaled (c : list Q) :
  (np_sum (layer_thickness_scaled c)
   == inject_Z (Z.of_nat (length c)) * L_RESAMPLE + L_RESAMPLE * np_sum c)%Q.
Proof.
  unfold layer_thickness_scaled. induction c as [|x c IH].
  - change (0 == 0 * L_RESAMPLE + L_RESAMPLE * 0)%Q. lra.
  - cbn [map length]. rewrite !np_sum_cons, IH, Nat2Z.inj_succ.
    unfold Z.succ. rewrite inject_Z_plus. change (inject_Z 1) with 1%Q. ring.
Qed.

(** X6. The layer boundaries: boundary [i] of the unscaled profile is at
    [(i + 1) * L_RESAMPLE]; boundary [i] of the scaled profile is that plus
    [L_RESAMPLE] times the sum of the stretch factors of the layers up to
    [i]. There is one boundary per layer. *)
Theorem layer_boundaries (num_sections : nat) (min_scaling_coeff : list Q) :
  length (layer_height num_sections) = num_sections /\
  (forall i v, layer_height num_sections !! i = Some v ->
     (v == inject_Z (Z.of_nat (S i)) * L_RESAMPLE)%Q) /\
  length (layer_height_scalled min_scaling_coeff) = length min_scaling_coeff /\
  (forall i v, layer_height_scalled min_scaling_coeff !! i = Some v ->
     (v == inject_Z (Z.of_nat (S i)) * L_RESAMPLE
           + L_RESAMPLE * np_sum (take (S i) min_scaling_coeff))%Q).
Proof.
  unfold layer_height, layer_height_scalled, layer_thickness.
  split; [now rewrite cumsum_length, length_replicate|]. split.
  - intros i v Hv.
    assert (i < num_sections) as Hi.
    { apply lookup_lt_Some in Hv. now rewrite cumsum_length, length_replicate in Hv. }
    rewrite (cumsum_lookup _ _ _ Hv), take_replicate, np_sum_replicate.
    now rewrite Nat.min_l by lia.
  - split; [unfold layer_thickness_scaled; now rewrite cumsum_length, length_map|].
    intros i v Hv.
    assert (i < length min_scaling_coeff) as Hi.
    { apply lookup_lt_Some in Hv.
      unfold layer_thickness_scaled in Hv. now rewrite cumsum_length, length_map in Hv. }
    rewrite (cumsum_lookup _ _ _ Hv). unfold layer_thickness_scaled.
    change (map (fun c => L_RESAMPLE + c * L_RESAMPLE)%Q min_scaling_coeff)
      with ((fun c => L_RESAMPLE + c * L_RESAMPLE)%Q <$> min_scaling_coeff).
    rewrite <- fmap_take.
    pose proof (np_sum_scaled (take (S i) min_scaling_coeff)) as Hs.
    unfold layer_thickness_scaled in Hs.
    change (map (fun c => L_RESAMPLE + c * L_RESAMPLE)%Q (take (S i) min_scaling_coeff))
      with ((fun c => L_RESAMPLE + c * L_RESAMPLE)%Q <$> take (S i) min_scaling_coeff) in Hs.
    rewrite Hs, length_take, Nat.min_l by lia. reflexivity.
Qed.

Lemma StronglySorted_lookup {A} (R : A -> A -> Prop) (l : list A) :
  StronglySorted R l ->
  forall i j v w, i < j -> l !! i = Some v -> l !! j = Some w -> R v w.
Proof.
  induction 1 as [|x l Hl IH Hx]; intros i j v w Hij Hv Hw; [discriminate|].
  destruct j as [|j]; [lia|]. simpl in Hw. destruct i as [|i]; simpl in Hv.
  - injection Hv as <-. rewrite Forall_forall in Hx.
    apply Hx, list_elem_of_lookup. eauto.
  - apply (IH i j); [lia|assumption|assumption].
Qed.

Lemma cumsum_from_increasing acc a :
  Forall (fun x => 0 < x)%Q a ->
  Forall (fun v => acc < v)%Q (cumsum_from acc a) /\
  StronglySorted Qlt (cumsum_from acc a).
Proof.
  intros Hpos. revert acc. induction Hpos as [|x a Hx Ha IH]; intros acc; simpl.
  - split; constructor.
  - destruct (IH (acc + x)%Q) as [Hall Hs]. split.
    + constructor; [lra|]. eapply Forall_impl; [exact Hall|]. intros v Hv. simpl in Hv. lra.
    + constructor; assumption.
Qed.

(** X7. As long as no layer is compressed to nothing (every stretch factor
    above -1; [MAX_STRETCH_LAYER] is 0.75), the scaled boundaries stay in
    order: each is below the next, and the first is above 0. *)
Theorem scaled_boundaries_increase (min_scaling_coeff : list Q) :
  Forall (fun c => - (1) < c)%Q min_scaling_coeff ->
  Forall (fun v => 0 < v)%Q (layer_height_scalled min_scaling_coeff) /\
  forall i j v w, i < j ->
    layer_height_scalled min_scaling_coeff !! i = Some v ->
    layer_height_scalled min_scaling_coeff !! j = Some w ->
    (v < w)%Q.
Proof.
  intros Hc.
  assert (Forall (fun x => 0 < x)%Q (layer_thickness_scaled min_scaling_coeff)) as Hpos.
  { unfold layer_thickness_scaled. apply Forall_forall. intros x Hx.
    apply list_elem_of_In, in_map_iff in Hx as (c & <- & Hin).
    rewrite Forall_forall in Hc. apply list_elem_of_In, Hc in Hin.
    unfold L_RESAMPLE. lra. }
  unfold layer_height_scalled.
  destruct (layer_thickness_scaled min_scaling_coeff) as [|x a]; simpl.
  - split; [constructor|]. intros i j v w _ H. discriminate.
  - inversion Hpos as [|? ? Hx Ha]; subst.
    destruct (cumsum_from_increasing x a Ha) as [Hall Hs].
    assert (StronglySorted Qlt (x :: cumsum_from x a)) as Hsorted
      by (constructor; assumption).
    split.
    + constructor; [assumption|]. eapply Forall_impl; [exact Hall|].
      intros v Hv. simpl in Hv. lra.
    + intros i j v w Hij Hv Hw.
      apply (StronglySorted_lookup Qlt _ Hsorted i j); assumption.
Qed.

(** ** Facts: the selection *)

Lemma nth_error_lookup_eq {A} (l : list A) (i : nat) : nth_error l i = l !! i.
Proof. revert i. induction l as [|x l IH]; intros [|i]; simpl; auto. Qed.

Lemma DataFrame_lookup (rows : list skill) (j : nat) (z : nat * skill) :
  DataFrame rows !! j = Some z -> fst z = j /\ rows !! j = Some (snd z).
Proof.
  unfold DataFrame. intros H.
  apply lookup_zip_with_Some in H as (i & s & -> & Hi & Hs).
  apply lookup_seq in Hi as [-> _]. auto.
Qed.

Lemma foldr_insert_row_nil cmp (df : list (nat * skill)) :
  foldr (insert_row cmp) [] df = [] -> df = [].
Proof.
  destruct df as [|x df]; [reflexivity|]. simpl. intros E.
  assert (In x []) as []. rewrite <- E. apply insert_row_In. now left.
Qed.

(** The sort is stable: what comes first in the sorted frame is strictly
    before every row that preceded it in the frame. *)
Lemma sorted_head_first cmp (df : list (nat * skill)) :
  comparison_laws cmp ->
  forall h rest, foldr (insert_row cmp) [] df = h :: rest ->
  exists pre post, df = pre ++ h :: post /\
                   forall z, In z pre -> cmp (snd h) (snd z) = Lt.
Proof.
  intros L. induction df as [|x df IH]; intros h rest E; [discriminate|].
  simpl in E. destruct (foldr (insert_row cmp) [] df) as [|y s] eqn:Es.
  - apply foldr_insert_row_nil in Es as ->. simpl in E. injection E as <- <-.
    exists [], []. split; [reflexivity|]. intros z [].
  - destruct (IH y s eq_refl) as (pre & post & -> & Hpre).
    simpl in E. destruct (cmp (snd x) (snd y)) eqn:Exy.
    + injection E as <- <-. exists [], (pre ++ y :: post).
      split; [reflexivity|]. intros z [].
    + injection E as <- <-. exists [], (pre ++ y :: post).
      split; [reflexivity|]. intros z [].
    + injection E as <- <-. exists (x :: pre), post. split; [reflexivity|].
      intros z [Hz|Hz]; [subst z|now apply Hpre].
      rewrite (cmp_opp _ L (snd x) (snd y)), Exy. reflexivity.
Qed.

Lemma ranking_before (s t : skill) :
  lex_cmp (combine [r; rmse_corr] [false; true]) s t = Lt -> strictly_better s t.
Proof.
  unfold strictly_better. simpl.
  destruct (r s) as [|a], (r t) as [|b]; simpl; try tauto; try congruence.
  - intros H. right. split; [exact I|].
    destruct (rmse_corr s) as [|c], (rmse_corr t) as [|d]; simpl in *;
      try tauto; try congruence.
    apply Qlt_alt. destruct (c ?= d)%Q; congruence.
  - destruct (b ?= a)%Q eqn:E.
    + intros H. right. split; [apply Qeq_alt in E; now symmetry|].
      destruct (rmse_corr s) as [|c], (rmse_corr t) as [|d]; simpl in *;
        try tauto; try congruence.
      apply Qlt_alt. destruct (c ?= d)%Q; congruence.
    + intros _. left. now apply Qlt_alt.
    + congruence.
Qed.

(** X8. Among candidates with the same score the first sampled is selected:
    every candidate sampled before the selected one is strictly worse
    (lower correlation, or the same and a higher bias-corrected RMSE). *)
Theorem ties_go_to_first_sampled (skills : list skill) (k : nat) :
  int_of_array (min_scaling_idx (DataFrame skills)) = ok k ->
  exists sk, nth_error skills k = Some sk /\
    forall i t, i < k -> nth_error skills i = Some t -> strictly_better sk t.
Proof.
  unfold min_scaling_idx, head_index_values.
  destruct (sort_values [r; rmse_corr] [false; true] (DataFrame skills))
    as [|[k' s] rest] eqn:E; simpl; [discriminate|].
  intros H. injection H as <-.
  destruct (sorted_head_first _ (DataFrame skills)
              (lex_cmp_laws (combine [r; rmse_corr] [false; true])) _ _ E)
    as (pre & post & Hdf & Hpre).
  assert (DataFrame skills !! length pre = Some (k', s)) as Hk
    by (rewrite Hdf; apply list_lookup_middle; reflexivity).
  apply DataFrame_lookup in Hk as [Hlen Hs]. simpl in Hlen, Hs. subst k'.
  exists s. split; [now rewrite nth_error_lookup_eq|].
  intros i t Hi Ht. apply ranking_before. apply (Hpre (i, t)).
  assert (In (i, t) (DataFrame skills)) as Hin by now apply In_DataFrame.
  apply list_elem_of_In, list_elem_of_lookup in Hin as [j Hj].
  pose proof (DataFrame_lookup _ _ _ Hj) as [Hji _]. simpl in Hji. subst j.
  rewrite Hdf, lookup_app_l in Hj by assumption.
  apply list_elem_of_In, list_elem_of_lookup. eauto.
Qed.

(** X9. A candidate whose correlation is NaN is selected only when every
    correlation is NaN; and its bias-corrected RMSE is NaN only when that
    of every candidate with the same correlation is. *)
Theorem nan_is_ranked_last (skills : list skill) (k : nat) (sk : skill) :
  int_of_array (min_scaling_idx (DataFrame skills)) = ok k ->
  nth_error skills k = Some sk ->
  (r sk = nan -> forall t, In t skills -> r t = nan) /\
  (rmse_corr sk = nan ->
   forall t, In t skills -> r_same (r sk) (r t) -> rmse_corr t = nan).
Proof.
  intros Hk Hsk. destruct (min_scaling_idx_best skills k Hk) as (s & Hs & Hbest).
  assert (s = sk) as -> by congruence.
  assert (forall t, In t skills -> at_least_as_good sk t) as Hall.
  { intros t Ht. apply In_nth_error in Ht as [i Hi]. now apply (Hbest i). }
  split.
  - intros Hnan t Ht. specialize (Hall t Ht). unfold at_least_as_good in Hall.
    rewrite Hnan in Hall. simpl in Hall.
    destruct Hall as [[]|[Hsame _]]. destruct (r t); [reflexivity|destruct Hsame].
  - intros Hnan t Ht Hsame. specialize (Hall t Ht). unfold at_least_as_good in Hall.
    rewrite Hnan in Hall. destruct Hall as [Hb|[_ Hw]].
    + destruct (r sk) as [|a], (r t) as [|b]; simpl in *; try tauto. lra.
    + simpl in Hw. destruct (rmse_corr t); [reflexivity|destruct Hw].
Qed.

(** X10. With no candidate the selection raises the TypeError of [int] on an
    empty array; with candidates it selects an index within the table,
    and the stretch factors at that index when there are that many. *)
Theorem selection_index_in_range {A} (random_tests : list A) (skills : list skill) :
  (skills = [] ->
   min_scaling_coeff random_tests (DataFrame skills)
   = raise (TypeError "only size-1 arrays can be converted to Python scalars")) /\
  (skills <> [] ->
   exists k, int_of_array (min_scaling_idx (DataFrame skills)) = ok k /\
             k < length skills /\
             (length skills <= length random_tests ->
              exists c, min_scaling_coeff random_tests (DataFrame skills) = ok c /\
                        random_tests !! k = Some c)).
Proof.
  split.
  - intros ->. reflexivity.
  - intros Hne. destruct (min_scaling_idx_total skills Hne) as [k Hk].
    destruct (min_scaling_idx_best skills k Hk) as (s & Hs & _).
    assert (k < length skills) as Hlt by (apply nth_error_Some; congruence).
    exists k. split; [assumption|]. split; [assumption|].
    intros Hlen. destruct (lookup_lt_is_Some_2 random_tests k) as [c Hc]; [lia|].
    exists c. split; [|assumption].
    unfold min_scaling_coeff. rewrite Hk. simpl. unfold list_item. now rewrite Hc.
Qed.

(** ** Facts: the density estimate on arrays of any shape *)

Lemma broadcast_shapes (f : Q -> Q -> Q) (a b : list Q) :
  (length a = length b \/ length a = 1 \/ length b = 1 ->
   exists c, broadcast f a b = ok c /\
             length c = if length a =? 1 then length b else length a) /\
  (~ (length a = length b \/ length a = 1 \/ length b = 1) ->
   broadcast f a b = raise (ValueError "operands could not be broadcast together")).
Proof.
  unfold broadcast. destruct (Nat.eqb_spec (length a) (length b)) as [E|E].
  - split; [|tauto]. intros _. eexists. split; [reflexivity|].
    rewrite length_zip_with. destruct (Nat.eqb_spec (length a) 1); lia.
  - split.
    + intros [H|[H|H]]; [contradiction| |].
      * destruct a as [|x [|]]; try discriminate. eexists. split; [reflexivity|].
        simpl. apply length_map.
      * destruct b as [|y [|]]; try discriminate.
        destruct a as [|x [|x' a]]; try (simpl in E; congruence);
          eexists; (split; [reflexivity|]); simpl; rewrite ?length_map; reflexivity.
    + intros H. destruct a as [|x [|x' a]], b as [|y [|y' b]]; simpl in *;
        try reflexivity; exfalso; apply H; auto.
Qed.

(** X11. [density_k2020] needs four coefficients and arrays that broadcast
    (equal lengths, or one of them a single value): with both it gives
    one estimate per sample of the longer array, with too few
    coefficients an IndexError, with incompatible arrays the ValueError
    of numpy. *)
Theorem density_k2020_shapes {N : NumPy} (coeffs force l : list Q) :
  (4 <= length coeffs ->
   length force = length l \/ length force = 1 \/ length l = 1 ->
   exists rho, density_k2020 coeffs force l = ok rho /\
               length rho = if length force =? 1 then length l else length force) /\
  (length coeffs < 4 ->
   length force = length l \/ length force = 1 \/ length l = 1 ->
   density_k2020 coeffs force l = raise (IndexError "list index out of range")) /\
  (3 <= length coeffs ->
   ~ (length force = length l \/ length force = 1 \/ length l = 1) ->
   density_k2020 coeffs force l
   = raise (ValueError "operands could not be broadcast together")).
Proof.
  assert (forall c0 c1 c2,
            length force = length l \/ length force = 1 \/ length l = 1 ->
            exists s2,
              (let! t2 := broadcast Qmult (map (fun f => c2 * np_log f)%Q force) l in
               broadcast Qplus (map (fun f => c0 + c1 * np_log f)%Q force) t2) = ok s2 /\
              length s2 = (if length force =? 1 then length l else length force) /\
              (length s2 = length l \/ length s2 = 1 \/ length l = 1)) as Hmid.
  { intros c0 c1 c2 Hc.
    destruct (proj1 (broadcast_shapes Qmult (map (fun f => c2 * np_log f)%Q force) l))
      as (t2 & Et2 & Ht2); [now rewrite length_map|].
    rewrite length_map in Ht2. rewrite Et2. simpl.
    destruct (proj1 (broadcast_shapes Qplus
                       (map (fun f => c0 + c1 * np_log f)%Q force) t2))
      as (s2 & Es2 & Hs2).
    { rewrite length_map, Ht2. destruct (Nat.eqb_spec (length force) 1); lia. }
    rewrite length_map in Hs2. exists s2. split; [assumption|].
    rewrite Hs2, Ht2. destruct (Nat.eqb_spec (length force) 1); lia. }
  split; [|split].
  - intros Hlen Hc.
    destruct coeffs as [|c0 [|c1 [|c2 [|c3 rest]]]]; simpl in Hlen; try lia.
    destruct (Hmid c0 c1 c2 Hc) as (s2 & Es2 & Hs2 & Hcompat).
    destruct (proj1 (broadcast_shapes Qplus s2 (map (Qmult c3) l)))
      as (rho & Erho & Hrho); [now rewrite length_map|].
    rewrite length_map in Hrho.
    exists rho. split.
    + unfold density_k2020. simpl.
      destruct (broadcast Qmult (map (fun f => c2 * np_log f)%Q force) l) as [e|t2];
        simpl in *; [discriminate|].
      rewrite Es2. simpl. exact Erho.
    + rewrite Hrho, Hs2. destruct (Nat.eqb_spec (length force) 1) as [E|E].
      * destruct (Nat.eqb_spec (length l) 1); lia.
      * rewrite (proj2 (Nat.eqb_neq _ _) E). reflexivity.
  - intros Hlen Hc.
    destruct coeffs as [|c0 [|c1 [|c2 [|c3 rest]]]]; simpl in Hlen; try lia;
      try reflexivity.
    destruct (Hmid c0 c1 c2 Hc) as (s2 & Es2 & _).
    unfold density_k2020. simpl.
    destruct (broadcast Qmult (map (fun f => c2 * np_log f)%Q force) l) as [e|t2];
      simpl in *; [discriminate|].
    rewrite Es2. reflexivity.
  - intros Hlen Hc.
    destruct coeffs as [|c0 [|c1 [|c2 rest]]]; simpl in Hlen; try lia.
    unfold density_k2020. simpl.
    rewrite (proj2 (broadcast_shapes Qmult (map (fun f => c2 * np_log f)%Q force) l))
      by now rewrite length_map.
    reflexivity.
Qed.

(** ** The facts on examples *)

Lemma file_list_sorted_pnt_witness :
  exists kept,
    @file_list _ Pipeline.toy_smp "./data" = ok (map (path_join "./data") kept) /\
    StronglySorted String.le kept /\
    Permutation kept
      (filter (fun f => endswith f ".pnt" = true)
              ["S34M0002.pnt"; "notes.txt"; "S34M0001.pnt"]) /\
    (forall f, In f kept <->
       In f ["S34M0002.pnt"; "notes.txt"; "S34M0001.pnt"] /\ endswith f ".pnt" = true) /\
    length kept <= 3.
Proof.
  apply (@file_list_sorted_pnt _ Pipeline.toy_smp "./data"
           ["S34M0002.pnt"; "notes.txt"; "S34M0001.pnt"]).
  reflexivity.
Defined.

Lemma file_list_order_independent_witness :
  @file_list _ Pipeline.toy_smp "./data"
  = ok (pnt_files "./data" ["notes.txt"; "S34M0001.pnt"; "S34M0002.pnt"]).
Proof.
  apply (@file_list_order_independent _ Pipeline.toy_smp "./data"
           ["S34M0002.pnt"; "notes.txt"; "S34M0001.pnt"]).
  - reflexivity.
  - exact (Permutation_cons_append ["notes.txt"; "S34M0001.pnt"] "S34M0002.pnt").
Defined.

(** A directory with two profiles: the notebook stops at [smp_data[11]]. *)
Lemma twelfth_profile_witness :
  @annex_notebook _ Recalibration.toy_numpy Pipeline.toy_smp "./other" [] 0%Z
  = (raise (IndexError "list index out of range"), 2019%Z).
Proof.
  refine (proj1 (proj2 (@twelfth_profile _ Pipeline.toy_smp Recalibration.toy_numpy
                          "./other" [] 0%Z
                          ["S34M0002.pnt"; "notes.txt"; "S34M0001.pnt"]
                          ["./other/S34M0001.pnt"; "./other/S34M0002.pnt"] _ _)) _).
  - reflexivity.
  - vm_compute. reflexivity.
  - simpl. lia.
Defined.

Lemma scaled_boundaries_increase_witness :
  Forall (fun v => 0 < v)%Q (layer_height_scalled [1 # 2; - (1 # 2); 0]%Q) /\
  forall i j v w, i < j ->
    layer_height_scalled [1 # 2; - (1 # 2); 0]%Q !! i = Some v ->
    layer_height_scalled [1 # 2; - (1 # 2); 0]%Q !! j = Some w ->
    (v < w)%Q.
Proof.
  apply (scaled_boundaries_increase [1 # 2; - (1 # 2); 0]%Q).
  repeat constructor.
Defined.

(** Candidates 1 and 2 have the same score; candidate 1 is selected. *)
Definition tied_skills : list skill :=
  [ {| r := fin (1#2); rmse := fin 40; rmse_corr := fin 30; mae := fin 25 |};
    {| r := fin (9#10); rmse := fin 30; rmse_corr := fin 21; mae := fin 18 |};
    {| r := fin (9#10); rmse := fin 30; rmse_corr := fin 21; mae := fin 18 |} ].

Lemma ties_go_to_first_sampled_witness :
  exists sk, nth_error tied_skills 1 = Some sk /\
    forall i t, i < 1 -> nth_error tied_skills i = Some t -> strictly_better sk t.
Proof. apply (ties_go_to_first_sampled tied_skills 1). reflexivity. Defined.

(** No candidate has a correlation: the one with a bias-corrected RMSE
    is selected. *)
Definition scored : skill :=
  {| r := nan; rmse := fin 30; rmse_corr := fin 21; mae := fin 18 |}.

Definition nan_skills : list skill :=
  [ {| r := nan; rmse := nan; rmse_corr := nan; mae := nan |}; scored ].

Lemma nan_is_ranked_last_witness :
  (r scored = nan -> forall t, In t nan_skills -> r t = nan) /\
  (rmse_corr scored = nan ->
   forall t, In t nan_skills -> r_same (r scored) (r t) -> rmse_corr t = nan).
Proof. apply (nan_is_ranked_last nan_skills 1 scored); reflexivity. Defined.

End Alignment.

(** * Recalibration: what the cells do on any kernel *)

Module Runs.

Import Recalibration.

(** [pickle.load(open(filename, 'rb'))]: the object that was dumped. *)
Definition pickle_load (filename : string) : cell pickled :=
  fun k =>
    match files k !! filename with
    | Some obj => (ok obj, k)
    | None => (raise (FileNotFoundError filename), k)
    end.

(** Every column is as long as the index. *)
Definition columns_aligned (df : frame) : Prop :=
  forall name c, num_cols df !! name = Some c -> length c = len df.

(** ** Running a statement forwards *)

Lemma frame_of_run x k l df :
  vars k !! x = Some (VFrame l) -> heap k !! l = Some df ->
  frame_of x k = (ok df, k).
Proof.
  intros Hv Hh. unfold frame_of, frame_ref, lookup_var, cbind, cret.
  rewrite Hv. simpl. rewrite Hh. reflexivity.
Qed.

Lemma column_of_run x col k l df c :
  vars k !! x = Some (VFrame l) -> heap k !! l = Some df ->
  getitem df col = ok c ->
  column_of x col k = (ok c, k).
Proof.
  intros Hv Hh Hc. unfold column_of, cbind, lift.
  rewrite (frame_of_run _ _ _ _ Hv Hh). simpl. rewrite Hc. reflexivity.
Qed.

Lemma series_of_run x k s :
  vars k !! x = Some (VSeries s) -> series_of x k = (ok s, k).
Proof. intros Hv. unfold series_of, lookup_var, cbind, cret. rewrite Hv. reflexivity. Qed.

Lemma setitem_of_run x col values k l df :
  vars k !! x = Some (VFrame l) -> heap k !! l = Some df ->
  length values = len df ->
  setitem_of x col values k
  = (ok tt, {| heap := <[l := {| index := index df;
                                 num_cols := <[col := values]> (num_cols df);
                                 txt_cols := txt_cols df |}]> (heap k);
               vars := vars k;
               files := files k |}).
Proof.
  intros Hv Hh Hlen. unfold setitem_of, frame_ref, lookup_var, cbind, lift, store, setitem.
  rewrite Hv. simpl. rewrite Hh. simpl.
  rewrite (proj2 (Nat.eqb_eq _ _) Hlen). reflexivity.
Qed.

Lemma zip_with_same_length {A B C} (f : A -> B -> C) a b c :
  zip_with_same f a b = ok c -> length a = length b /\ length c = length a.
Proof.
  revert b c. induction a as [|x a IH]; intros [|y b] c; simpl; try discriminate.
  - intros E. injection E as <-. auto.
  - destruct (zip_with_same f a b) as [e|r] eqn:Er; simpl; [discriminate|].
    intros E. injection E as <-. destruct (IH b r Er). simpl. auto.
Qed.

(** ** Facts: loading the comparisons *)

(** X12. The first cell: it stops with FileNotFoundError when the pickle of
    Part 1 is missing (nothing is bound); with KeyError when the frame
    has no [force_median] ([result] is bound by then); otherwise [result]
    is a new object, the pickled frame with [force_log] added, and no
    object that was there is touched. *)
Theorem cell_load_outcomes {N : NumPy} (k : kernel) :
  (files k !! smp_pit_filtered = None ->
   cell_load k = (raise (FileNotFoundError smp_pit_filtered), k)) /\
  (forall df, files k !! smp_pit_filtered = Some (PFrame df) ->
     let l := fresh (dom (heap k)) in
     let bound := {| heap := <[l := df]> (heap k);
                     vars := <["result" := VFrame l]> (vars k);
                     files := files k |} in
     heap k !! l = None /\
     (num_cols df !! "force_median" = None ->
      cell_load k = (raise (KeyError "force_median"), bound)) /\
     (forall force_median,
        num_cols df !! "force_median" = Some force_median ->
        length force_median = len df ->
        cell_load k
        = (ok tt,
           {| heap := <[l := {| index := index df;
                                num_cols := <["force_log" := map np_log force_median]>
                                              (num_cols df);
                                txt_cols := txt_cols df |}]> (heap k);
              vars := <["result" := VFrame l]> (vars k);
              files := files k |}))).
Proof.
  split.
  - intros Hf. unfold cell_load, cbind, read_pickle. rewrite Hf. reflexivity.
  - intros df Hf l bound.
    assert (heap k !! l = None) as Hfresh by apply not_elem_of_dom, is_fresh.
    assert (vars bound !! "result" = Some (VFrame l)) as Hv by apply lookup_insert_eq.
    assert (heap bound !! l = Some df) as Hh by apply lookup_insert_eq.
    assert (forall m : cell unit,
              (let* df := read_pickle smp_pit_filtered in
               let* l := alloc df in
               let* _ := assign "result" (VFrame l) in m) k = m bound) as Hstart.
    { intros m. unfold cbind, read_pickle, alloc, assign. rewrite Hf. reflexivity. }
    split; [assumption|]. split.
    + intros Hc. unfold cell_load. rewrite Hstart.
      unfold column_of, cbind, lift. rewrite (frame_of_run _ _ _ _ Hv Hh). simpl.
      unfold getitem. rewrite Hc. reflexivity.
    + intros fm Hc Hlen. unfold cell_load. rewrite Hstart. unfold cbind.
      rewrite (column_of_run _ _ _ _ _ fm Hv Hh) by (unfold getitem; now rewrite Hc).
      unfold ok. cbv beta iota. fold (@ok unit tt).
      rewrite (setitem_of_run _ _ _ _ _ _ Hv Hh) by (now rewrite length_map).
      unfold bound. simpl. rewrite insert_insert_eq. reflexivity.
Qed.

(** ** Facts: the files *)

Lemma keeps_file_of_files {A} (f : string) (m : cell A) :
  keeps files m -> keeps (fun k => files k !! f) m.
Proof. intros H k. simpl. now rewrite H. Qed.

Lemma keeps_file_cell_coeff {N : NumPy} (f name filename : string) :
  f <> filename -> keeps (fun k => files k !! f) (cell_coeff name filename).
Proof.
  intros Hne. unfold cell_coeff.
  repeat (apply keeps_cbind; [apply keeps_file_of_files; repeat keeps_step|intros ?]).
  intros k. simpl. now apply lookup_insert_ne.
Qed.


(** ** Facts: the error columns of the last cells *)

Lemma cbind_run {S A B} (m : prog S A) (f : A -> prog S B) k a k1 :
  m k = (ok a, k1) -> cbind m f k = f a k1.
Proof. intros E. unfold cbind. rewrite E. reflexivity. Qed.

Lemma lift_run {S A} (m : result A) (k : S) (a : A) :
  m = ok a -> lift m k = (ok a, k).
Proof. intros ->. reflexivity. Qed.


(** ** Facts: too few comparisons for ten folds *)

Lemma k_fold_split_below_ten {R : Random} (global : rng) (n_samples : nat) :
  n_samples < 10 ->
  KFold.k_fold_split global n_samples
  = raise (ValueError "Cannot have number of splits greater than the number of samples").
Proof.
  intros H. unfold KFold.k_fold_split, KFold.split. simpl.
  destruct (Nat.ltb_spec n_samples 10); [reflexivity|lia].
Qed.

(** X15. On a frame of fewer than ten rows the K-fold cell raises the
    ValueError of the splitter: the accumulators are empty by then,
    [params] is [None] and no file is written; the coefficient cell, run
    on the kernel this leaves, raises a TypeError before it binds or
    writes anything. *)
Theorem too_few_rows_for_ten_folds {R : Random} {N : NumPy} {L : Library}
    (global : rng) (data formula : string) (k k0 : kernel) (l : loc) (df : frame) :
  cv_begin k = (ok tt, k0) ->
  vars k0 !! data = Some (VFrame l) ->
  heap k0 !! l = Some df ->
  len df < 10 ->
  cell_kfold global data formula k
  = (raise (ValueError "Cannot have number of splits greater than the number of samples"),
     k0) /\
  vars k0 !! "rmse" = Some (VList []) /\
  vars k0 !! "params" = Some VNone /\
  files k0 = files k /\
  forall name filename,
    cell_coeff name filename k0
    = (raise (TypeError "'NoneType' object is not subscriptable"), k0).
Proof.
  intros Hbegin Hv Hh Hlen.
  destruct (cv_begin_data _ _ _ _ Hbegin Hv) as (_ & _ & _ & Hparams).
  split; [|split; [|split; [|split]]].
  - unfold cell_kfold. rewrite (cbind_run _ _ _ _ _ Hbegin).
    rewrite (cbind_run _ _ _ _ _ (frame_of_run _ _ _ _ Hv Hh)).
    unfold cbind, lift. now rewrite k_fold_split_below_ten.
  - apply cv_begin_inv in Hbegin as ->. simpl.
    rewrite !lookup_insert_ne by discriminate. apply lookup_insert_eq.
  - assumption.
  - apply cv_begin_inv in Hbegin as ->. reflexivity.
  - intros name filename.
    assert (params_of "params" k0 = (ok None, k0)) as Hp.
    { unfold params_of, cbind, lookup_var, cret. rewrite Hparams. reflexivity. }
    unfold cell_coeff. rewrite (cbind_run _ _ _ _ _ Hp). reflexivity.
Qed.

(** ** Facts: the rounding of the coefficients *)

Lemma rint_close (s : Q) : (Qabs (inject_Z (rint s) - s) <= 1 # 2)%Q.
Proof.
  unfold rint. pose proof (Qfloor_le s) as Hlo. pose proof (Qlt_floor s) as Hhi.
  rewrite inject_Z_plus in Hhi. change (inject_Z 1) with 1%Q in Hhi.
  apply Qabs_Qle_condition.
  destruct (s - inject_Z (Qfloor s) ?= 1 # 2)%Q eqn:E.
  - apply Qeq_alt in E. destruct (Z.even (Qfloor s)).
    + lra.
    + rewrite inject_Z_plus. change (inject_Z 1) with 1%Q. lra.
  - apply Qlt_alt in E. lra.
  - apply Qgt_alt in E. rewrite inject_Z_plus. change (inject_Z 1) with 1%Q. lra.
Qed.

Lemma rint_comp (x y : Q) : (x == y)%Q -> rint x = rint y.
Proof.
  intros H. unfold rint. rewrite (Qfloor_comp _ _ H).
  assert ((x - inject_Z (Qfloor y) ?= 1 # 2) = (y - inject_Z (Qfloor y) ?= 1 # 2))%Q
    as -> by now rewrite H.
  reflexivity.
Qed.

Lemma rint_inject_Z (z : Z) : rint (inject_Z z) = z.
Proof.
  unfold rint. rewrite Qfloor_Z.
  assert ((inject_Z z - inject_Z z ?= 1 # 2) = Lt)%Q as ->; [|reflexivity].
  apply (proj1 (Qlt_alt _ _)). generalize (inject_Z z). intros q. lra.
Qed.

Lemma np_round_2 (x : Q) :
  np_round x 2 = Qred (inject_Z (rint (x * 100)) / 100)%Q.
Proof. reflexivity. Qed.

Lemma np_round_close (x : Q) : (Qabs (np_round x 2 - x) <= 1 # 200)%Q.
Proof.
  rewrite np_round_2, Qred_correct.
  pose proof (rint_close (x * 100)) as H.
  apply Qabs_Qle_condition in H. apply Qabs_Qle_condition.
  unfold Qdiv. change (/ 100)%Q with (1 # 100)%Q.
  set (r := inject_Z (rint (x * 100))) in *. clearbody r. lra.
Qed.

Lemma np_round_idempotent (x : Q) : np_round (np_round x 2) 2 = np_round x 2.
Proof.
  rewrite (np_round_2 (np_round x 2)), (np_round_2 x).
  f_equal. f_equal. f_equal.
  rewrite <- (rint_inject_Z (rint (x * 100))) at 2. apply rint_comp.
  rewrite Qred_correct. field.
Qed.


(** ** Facts: from the coefficient file to the density estimate *)

Lemma bilinear_agree {N : NumPy} (c0 c1 c2 c3 : Q) (force l : list Q) :
  length force = length l ->
  Forall2 Qeq
    (zip_with Qplus
       (zip_with Qplus (map (fun f => c0 + c1 * np_log f)%Q force)
                       (zip_with Qmult (map (fun f => c2 * np_log f)%Q force) l))
       (map (Qmult c3) l))
    (zip_with (fun f li => c0 * 1 + c1 * f + c3 * li + c2 * (f * li))%Q
              (map np_log force) l).
Proof.
  revert l. induction force as [|f force IH]; intros [|li l] Hlen; simpl in *;
    try discriminate; constructor.
  - ring.
  - apply IH. lia.
Qed.


(** ** Facts: how many comparisons the outlier cell removes *)

Lemma count_if_lt_length (p : Q -> bool) (s : list Q) (x : Q) :
  In x s -> p x = false -> count_if p s < length s.
Proof.
  unfold count_if. induction s as [|y s IH]; [intros []|].
  intros [<-|Hin] Hp; simpl.
  - rewrite Hp. pose proof (List.filter_length_le p s). lia.
  - destruct (p y); simpl; [|pose proof (List.filter_length_le p s); lia].
    apply -> Nat.succ_lt_mono. now apply IH.
Qed.

(** The 0.95 quantile is at most the largest value. *)
Lemma quantile_below_max (s : list Q) :
  s <> [] ->
  exists v, quantile (95 # 100) s = fin v /\
            (v <= nth (length s - 1) (np_sort s) 0)%Q.
Proof.
  intros Hne. rewrite (quantile_nonempty _ _ Hne). cbv zeta.
  assert (0 < length s) as Hpos by (destruct s; [congruence|simpl; lia]).
  set (m := Z.of_nat (length s - 1)).
  set (h := (inject_Z m * (95 # 100))%Q).
  assert (Qfloor h = (m * 95 / 100)%Z) as Hfl by reflexivity.
  assert (0 <= Qfloor h <= m)%Z as Hlo.
  { rewrite Hfl. split; [apply Z.div_pos; lia|].
    apply Z.div_le_upper_bound; lia. }
  eexists. split; [reflexivity|].
  set (x_lo := nth (Z.to_nat (Qfloor h)) (np_sort s) 0%Q).
  set (x_hi := nth (Nat.min (Z.to_nat (Qfloor h) + 1) (length s - 1)) (np_sort s) 0%Q).
  set (x_max := nth (length s - 1) (np_sort s) 0%Q).
  assert (length (np_sort s) = length s) as Hlen
    by apply Permutation_length, np_sort_Permutation.
  assert (x_lo <= x_hi)%Q as Hx
    by (apply sorted_nth_le; [apply np_sort_Sorted|rewrite Hlen; lia]).
  assert (x_hi <= x_max)%Q as Hm
    by (apply sorted_nth_le; [apply np_sort_Sorted|rewrite Hlen; lia]).
  pose proof (Qfloor_le h) as Hg. pose proof (Qlt_floor h) as Hg'.
  rewrite inject_Z_plus in Hg'. change (inject_Z 1) with 1%Q in Hg'.
  set (g := (h - inject_Z (Qfloor h))%Q).
  assert (0 <= g <= 1)%Q as Hgb by (unfold g; generalize dependent (inject_Z (Qfloor h));
                                    intros; lra).
  assert ((x_hi - x_lo) * g <= (x_hi - x_lo) * 1)%Q as Hprod.
  { rewrite !(Qmult_comm (x_hi - x_lo)). apply Qmult_le_compat_r; lra. }
  lra.
Qed.

(** What the outlier cell computes, in numbers: the rows it keeps are
    those whose absolute error is strictly below the quantile. *)
Lemma cell_outliers_counts (k k' : kernel) :
  cell_outliers k = (ok tt, k') ->
  exists l df k20a_rho RHO diff q_95 l_lim kept,
    vars k !! "result" = Some (VFrame l) /\ heap k !! l = Some df /\
    vars k !! "k20a_rho" = Some (VSeries k20a_rho) /\
    getitem df "RHO" = ok RHO /\
    zip_with_same Qminus k20a_rho RHO = ok diff /\
    quantile (95 # 100) (map Qabs diff) = fin q_95 /\
    vars k' !! "result_lim" = Some (VFrame l_lim) /\ heap k' !! l_lim = Some kept /\
    length (map Qabs diff) = len df /\
    len kept = count_if (fun e => float_lt e (fin q_95)) (map Qabs diff) /\
    vars k' !! "n_removed" = Some (VInt (Z.of_nat (len df) - Z.of_nat (len kept))).
Proof.
  intros E.
  apply cell_outliers_ok in E
    as (l & df & f_l & rho & RHO & diff & q & l_kept & kept
        & Hv & Hh & Hs & HR & Hd & Hq & Hfilter & Hne & Hh1 & Hkept & Hvars).
  apply filter_rows_ok_inv in Hfilter as [Hlen Hk].
  exists l, df, rho, RHO, diff, q, l_kept, kept.
  repeat split; try assumption.
  - rewrite Hvars, lookup_insert_ne, lookup_insert_eq by discriminate. reflexivity.
  - unfold len in *. simpl in *. rewrite length_map in Hlen. congruence.
  - rewrite Hk. unfold len in *. simpl in *. rewrite length_map in Hlen.
    apply select_map_length. congruence.
  - rewrite Hvars, lookup_insert_eq. reflexivity.
Qed.

(** X18. Whenever the outlier cell runs to its end it has removed at least
    one comparison: the filtered frame is strictly shorter than [result],
    and [n_removed] is bound to the difference, which is at least 1. *)
Theorem outlier_removal_removes_some (k k' : kernel) :
  cell_outliers k = (ok tt, k') ->
  exists l df l_lim kept,
    vars k !! "result" = Some (VFrame l) /\ heap k !! l = Some df /\
    vars k' !! "result_lim" = Some (VFrame l_lim) /\ heap k' !! l_lim = Some kept /\
    len kept < len df /\
    vars k' !! "n_removed" = Some (VInt (Z.of_nat (len df) - Z.of_nat (len kept))) /\
    (1 <= Z.of_nat (len df) - Z.of_nat (len kept))%Z.
Proof.
  intros E.
  apply cell_outliers_counts in E
    as (l & df & rho & RHO & diff & q & l_lim & kept
        & Hv & Hh & _ & _ & _ & Hq & Hv' & Hh' & Hlen & Hkept & Hn).
  assert (len kept < len df) as Hlt.
  { rewrite Hkept, <- Hlen.
    assert (map Qabs diff <> []) as Hs
      by (intros Hs; rewrite Hs in Hq; discriminate).
    destruct (quantile_below_max _ Hs) as (v & Hv0 & Hmax).
    rewrite Hq in Hv0. injection Hv0 as <-.
    apply (count_if_lt_length _ _ (nth (length (map Qabs diff) - 1)
                                       (np_sort (map Qabs diff)) 0%Q)).
    - apply (Permutation_in _ (np_sort_Permutation _)). apply nth_In.
      rewrite (Permutation_length (np_sort_Permutation _)).
      destruct (map Qabs diff); [congruence|simpl; lia].
    - simpl. apply negb_false_iff, Qle_bool_iff. assumption. }
  exists l, df, l_lim, kept. repeat split; try assumption. lia.
Qed.


Lemma select_below (q : Q) (a : list Q) :
  Forall (fun e => e < q)%Q (select a (map (fun e => float_lt e (fin q)) a)).
Proof.
  induction a as [|x a IH]; simpl; [constructor|].
  destruct (Qle_bool q x) eqn:E; simpl; [assumption|].
  constructor; [|assumption].
  apply Qnot_le_lt. intros H. apply Qle_bool_iff in H. congruence.
Qed.

(** X19. The rows the outlier cell keeps are the rows of [result] whose
    absolute error is strictly below the quantile it bound to [q_95], in
    their order: the index and every column are filtered by that one
    mask, and every error left in the frame is below the quantile. *)
Theorem outliers_kept_below_quantile (k k' : kernel) :
  cell_outliers k = (ok tt, k') ->
  exists l df l_lim kept abs_error q_95 mask,
    vars k !! "result" = Some (VFrame l) /\ heap k !! l = Some df /\
    vars k' !! "result_lim" = Some (VFrame l_lim) /\ heap k' !! l_lim = Some kept /\
    vars k' !! "q_95" = Some (VFloat (fin q_95)) /\
    length abs_error = len df /\
    mask = map (fun e => float_lt e (fin q_95)) abs_error /\
    index kept = select (index df) mask /\
    num_cols kept !! "abs_error" = Some (select abs_error mask) /\
    Forall (fun e => e < q_95)%Q (select abs_error mask) /\
    (forall name c, num_cols df !! name = Some c ->
       name <> "f_l" -> name <> "abs_error" ->
       num_cols kept !! name = Some (select c mask)) /\
    (forall name c, txt_cols df !! name = Some c ->
       txt_cols kept !! name = Some (select c mask)).
Proof.
  intros E.
  apply cell_outliers_ok in E
    as (l & df & f_l & rho & RHO & diff & q & l_kept & kept
        & Hv & Hh & _ & _ & _ & _ & Hfilter & Hne & Hh1 & Hkept & Hvars).
  apply filter_rows_ok_inv in Hfilter as [Hlen Hk].
  exists l, df, l_kept, kept, (map Qabs diff), q,
    (map (fun e => float_lt e (fin q)) (map Qabs diff)).
  rewrite Hk in *. clear Hk. simpl.
  repeat split; try assumption.
  - rewrite Hvars, lookup_insert_ne, lookup_insert_eq by discriminate. reflexivity.
  - rewrite Hvars, !lookup_insert_ne, lookup_insert_eq by discriminate. reflexivity.
  - unfold len in *. simpl in *. rewrite length_map in Hlen. congruence.
  - rewrite lookup_fmap, lookup_insert_eq. reflexivity.
  - apply select_below.
  - intros name c Hc Hn1 Hn2.
    rewrite lookup_fmap, !lookup_insert_ne, Hc by congruence. reflexivity.
  - intros name c Hc. rewrite lookup_fmap, Hc. reflexivity.
Qed.

(** ** Facts: the removal when no two errors are equal *)

Lemma sorted_strict (l : list Q) :
  StronglySorted Qle l -> SetoidList.NoDupA Qeq l -> StronglySorted Qlt l.
Proof.
  induction 1 as [|x l Hl IH Hx]; intros Hnd; [constructor|].
  inversion Hnd as [|? ? Hnotin Hnd']; subst.
  constructor; [now apply IH|].
  rewrite Forall_forall in Hx. apply Forall_forall. intros y Hy.
  pose proof (Hx y Hy) as Hle.
  destruct (Qlt_le_dec x y) as [Hlt|Hge]; [assumption|].
  exfalso. apply Hnotin. apply SetoidList.InA_alt. exists y.
  split; [apply Qle_antisym; assumption|]. apply list_elem_of_In. exact Hy.
Qed.

Lemma np_sort_strict (s : list Q) :
  SetoidList.NoDupA Qeq s -> StronglySorted Qlt (np_sort s).
Proof.
  intros Hnd. apply sorted_strict; [apply np_sort_Sorted|].
  apply (SetoidPermutation.PermutationA_preserves_NoDupA Q_Setoid)
    with (l₁ := s); [|assumption].
  apply SetoidPermutation.Permutation_PermutationA; [apply Q_Setoid|].
  apply Permutation_sym, np_sort_Permutation.
Qed.

Lemma sorted_nth_lt (l : list Q) :
  StronglySorted Qlt l ->
  forall i j, i < j < length l -> (nth i l 0 < nth j l 0)%Q.
Proof.
  induction 1 as [|y l Hl IH Hy]; intros i j Hij; simpl in *.
  - lia.
  - destruct i as [|i], j as [|j]; try lia.
    + rewrite Forall_forall in Hy. apply Hy, list_elem_of_In, nth_In. lia.
    + apply IH. lia.
Qed.

(** The values before position [i] are below the bound: at most the
    values from [i] on are not. *)
Lemma count_not_below (l : list Q) (i : nat) (v : Q) :
  i <= length l ->
  (forall j, j < i -> (nth j l 0 < v)%Q) ->
  count_if (fun e => negb (float_lt e (fin v))) l <= length l - i.
Proof.
  intros Hi Hv.
  rewrite <- (firstn_skipn i l) at 1. rewrite count_if_app.
  rewrite count_if_none.
  - pose proof (count_if_le (fun e => negb (float_lt e (fin v))) (skipn i l)) as H.
    rewrite length_skipn in H. lia.
  - intros x Hx. simpl. rewrite negb_involutive.
    apply (In_nth _ _ 0%Q) in Hx as (j & Hj & <-).
    rewrite length_firstn in Hj.
    rewrite nth_firstn. destruct (Nat.ltb_spec j i); [|lia].
    destruct (Qle_bool v (nth j l 0%Q)) eqn:E; [|reflexivity].
    apply Qle_bool_iff in E. specialize (Hv j ltac:(lia)). lra.
Qed.

(** With pairwise different values, the values that are not strictly
    below the 0.95 quantile are at most [ceil(0.05 * n)]. *)
Lemma distinct_values_within_bound (s : list Q) :
  SetoidList.NoDupA Qeq s ->
  (Z.of_nat (count_if (fun e => negb (float_lt e (quantile (95 # 100) s))) s)
   <= removal_bound (length s))%Z.
Proof.
  intros Hnd. destruct (decide (s = [])) as [->|Hne]; [vm_compute; discriminate|].
  rewrite (quantile_nonempty _ _ Hne). cbv zeta.
  assert (0 < length s) as Hpos by (destruct s; [congruence|simpl; lia]).
  assert (removal_bound (length s) = (- (- (5 * Z.of_nat (length s)) / 100))%Z) as ->
    by reflexivity.
  rewrite (count_if_Permutation _ _ _ (Permutation_sym (np_sort_Permutation s))).
  pose proof (np_sort_strict s Hnd) as Hstrict.
  pose proof (np_sort_Sorted s) as Hsorted.
  assert (length (np_sort s) = length s) as Hlen
    by apply Permutation_length, np_sort_Permutation.
  set (sorted := np_sort s) in *.
  set (n := length s) in *.
  set (m := Z.of_nat (n - 1)).
  set (h := (inject_Z m * (95 # 100))%Q).
  assert (Qfloor h = (m * 95 / 100)%Z) as Hfl by reflexivity.
  assert (0 <= m)%Z as Hm by lia.
  assert (0 <= Qfloor h <= m)%Z as Hlo.
  { rewrite Hfl. split; [apply Z.div_pos; lia|].
    apply Z.div_le_upper_bound; lia. }
  set (lo := Z.to_nat (Qfloor h)).
  set (x_lo := nth lo sorted 0%Q).
  set (x_hi := nth (Nat.min (lo + 1) (n - 1)) sorted 0%Q).
  set (g := (h - inject_Z (Qfloor h))%Q).
  pose proof (Qfloor_le h) as Hfloor.
  assert (0 <= g)%Q as Hg0 by (unfold g; generalize dependent (inject_Z (Qfloor h));
                               intros; lra).
  destruct (Qlt_le_dec 0 g) as [Hg|Hg].
  - (* the quantile falls between two values *)
    assert (inject_Z (Qfloor h) < h)%Q as Hlt
      by (unfold g in Hg; generalize dependent (inject_Z (Qfloor h)); intros; lra).
    assert (m * 95 / 100 * 100 < m * 95)%Z as Hz.
    { rewrite Hfl in Hlt. unfold Qlt, h in Hlt. simpl in Hlt. lia. }
    assert (lo + 1 <= n - 1) as Hhi.
    { unfold lo. rewrite Hfl. apply Nat2Z.inj_le.
      rewrite Nat2Z.inj_add, Z2Nat.id by (apply Z.div_pos; lia).
      fold m. Z.div_mod_to_equations. lia. }
    assert (x_lo < x_hi)%Q as Hx.
    { unfold x_lo, x_hi. rewrite Nat.min_l by assumption.
      apply sorted_nth_lt; [assumption|]. rewrite Hlen. fold n. lia. }
    assert (0 < (x_hi - x_lo) * g)%Q as Hprod
      by (apply Qmult_lt_0_compat; [lra|assumption]).
    pose proof (count_not_below sorted (S lo) (x_lo + (x_hi - x_lo) * g)%Q) as Hc.
    rewrite Hlen in Hc. fold n in Hc.
    assert (count_if (fun e => negb (float_lt e (fin (x_lo + (x_hi - x_lo) * g)%Q)))
              sorted <= n - S lo) as Hcount.
    { apply Hc; [lia|]. intros j Hj.
      assert (nth j sorted 0 <= x_lo)%Q
        by (apply sorted_nth_le; [assumption|rewrite Hlen; fold n; lia]).
      lra. }
    assert (Z.of_nat lo = (m * 95 / 100)%Z) as Hlo'
      by (unfold lo; rewrite Hfl, Z2Nat.id; [reflexivity|apply Z.div_pos; lia]).
    assert (m = Z.of_nat n - 1)%Z as Hmn by (unfold m; lia).
    apply Z.le_trans with (Z.of_nat (n - S lo)); [lia|].
    rewrite Nat2Z.inj_sub by lia. rewrite Nat2Z.inj_succ, Hlo', Hmn.
    Z.div_mod_to_equations. lia.
  - (* the quantile falls on a value *)
    assert (g == 0)%Q as Hgz by lra.
    assert (m * 95 / 100 * 100 = m * 95)%Z as Hz.
    { assert (h == inject_Z (Qfloor h))%Q as Heq
        by (unfold g in Hgz; generalize dependent (inject_Z (Qfloor h)); intros; lra).
      rewrite Hfl in Heq. unfold Qeq, h in Heq. simpl in Heq. lia. }
    assert (x_lo + (x_hi - x_lo) * g == x_lo)%Q as Hq by (rewrite Hgz; ring).
    pose proof (count_not_below sorted lo (x_lo + (x_hi - x_lo) * g)%Q) as Hc.
    rewrite Hlen in Hc. fold n in Hc.
    assert (lo <= n - 1) as Hlon by (unfold lo; lia).
    assert (count_if (fun e => negb (float_lt e (fin (x_lo + (x_hi - x_lo) * g)%Q)))
              sorted <= n - lo) as Hcount.
    { apply Hc; [lia|]. intros j Hj. rewrite Hq.
      apply sorted_nth_lt; [assumption|]. rewrite Hlen. fold n. lia. }
    assert (Z.of_nat lo = (m * 95 / 100)%Z) as Hlo'
      by (unfold lo; rewrite Hfl, Z2Nat.id; [reflexivity|apply Z.div_pos; lia]).
    assert (m = Z.of_nat n - 1)%Z as Hmn by (unfold m; lia).
    apply Z.le_trans with (Z.of_nat (n - lo)); [lia|].
    rewrite Nat2Z.inj_sub by lia. rewrite Hlo', Hmn in *.
    Z.div_mod_to_equations. lia.
Qed.



(** A decision procedure for pairwise different values. *)
Fixpoint distinctb (s : list Q) : bool :=
  match s with
  | [] => true
  | x :: s' => forallb (fun y => negb (Qeq_bool x y)) s' && distinctb s'
  end.

Lemma distinctb_NoDupA (s : list Q) :
  distinctb s = true -> SetoidList.NoDupA Qeq s.
Proof.
  induction s as [|x s IH]; simpl; intros H; [constructor|].
  apply andb_true_iff in H as [Hx Hs]. constructor; [|now apply IH].
  intros Hin. apply SetoidList.InA_alt in Hin as (y & Hxy & Hy).
  rewrite forallb_forall in Hx. specialize (Hx y Hy).
  apply negb_true_iff in Hx. apply Qeq_bool_iff in Hxy. congruence.
Qed.

(** ** Facts: the sizes of the folds *)

Lemma slice_length {A} (indices : list A) (start stop : nat) :
  start <= stop -> stop <= length indices ->
  length (KFold.slice indices start stop) = stop - start.
Proof.
  intros H1 H2. unfold KFold.slice. rewrite length_firstn, length_skipn. lia.
Qed.

Lemma iter_chunks_lengths (indices : list nat) (current : nat) (sizes : list nat) :
  current + list_sum sizes <= length indices ->
  map length (KFold.iter_chunks indices current sizes) = sizes.
Proof.
  revert current. induction sizes as [|sz rest IH]; intros current H; simpl in *.
  - reflexivity.
  - rewrite slice_length by lia. rewrite IH by lia. f_equal. lia.
Qed.

Lemma concat_NoDup_each (chunks : list (list nat)) :
  List.NoDup (concat chunks) ->
  forall j c, nth_error chunks j = Some c -> List.NoDup c.
Proof.
  induction chunks as [|c0 chunks IH]; intros Hnd j c Hj.
  - destruct j; discriminate.
  - simpl in Hnd. apply NoDup_ListNoDup, NoDup_app in Hnd as (Hc & _ & Hrest).
    destruct j as [|j]; simpl in Hj.
    + injection Hj as <-. now apply NoDup_ListNoDup.
    + apply (IH (proj1 (NoDup_ListNoDup _) Hrest) j c Hj).
Qed.

Lemma select_partition_length {A} (a : list A) (mask : list bool) :
  length mask = length a ->
  length (select a mask) + length (select a (map negb mask)) = length a.
Proof.
  revert mask. induction a as [|x a IH]; intros [|b mask] Hlen; simpl in *;
    try discriminate; auto.
  destruct b; simpl; rewrite <- (IH mask) by lia; lia.
Qed.

Lemma test_idx_length (n_samples : nat) (chunk : list nat) :
  List.NoDup chunk -> (forall i, In i chunk -> i < n_samples) ->
  length (select (seq 0 n_samples) (KFold.test_mask n_samples chunk)) = length chunk.
Proof.
  intros Hnd Hrange. apply Permutation_length, NoDup_Permutation.
  - apply NoDup_ListNoDup, KFold.select_NoDup, List.seq_NoDup.
  - now apply NoDup_ListNoDup.
  - intros i. rewrite !list_elem_of_In, KFold.In_test_idx.
    split; [tauto|]. intros H. split; [now apply Hrange|assumption].
Qed.

Section FoldSizes.

Context {R : Random}.

(** Which permutation a shuffle gives depends on the generator; that it
    is one does not. *)
Hypothesis rng_shuffle_Permutation :
  forall g l, Permutation (fst (rng_shuffle g l)) l.

Lemma chunk_lengths (global : rng) (n_samples : nat) :
  map length (KFold.iter_test_indices KFold.k_fold global n_samples)
  = KFold.fold_sizes 10 n_samples.
Proof.
  unfold KFold.iter_test_indices. apply iter_chunks_lengths.
  rewrite (Permutation_length
             (KFold.arranged_Permutation rng_shuffle_Permutation _ _ _)).
  rewrite length_seq. change (KFold.n_splits KFold.k_fold) with 10.
  rewrite KFold.fold_sizes_sum by lia. lia.
Qed.

Lemma fold_lengths (global : rng) (n_samples : nat) folds :
  KFold.k_fold_split global n_samples = ok folds ->
  map (fun fold => length (snd fold)) folds = KFold.fold_sizes 10 n_samples.
Proof.
  intros Hs. rewrite <- (chunk_lengths global).
  apply KFold.split_ok_inv in Hs as [_ ->].
  assert (forall j chunk,
            nth_error (KFold.iter_test_indices KFold.k_fold global n_samples) j
            = Some chunk ->
            List.NoDup chunk /\ forall i, In i chunk -> i < n_samples) as Hchunks.
  { intros j chunk Hj. split.
    - apply (concat_NoDup_each (KFold.iter_test_indices KFold.k_fold global n_samples))
        with j; [|assumption].
      rewrite (KFold.iter_test_indices_concat rng_shuffle_Permutation)
        by (unfold KFold.k_fold; cbn [KFold.n_splits]; lia).
      apply (KFold.arranged_NoDup rng_shuffle_Permutation).
    - intros i Hi.
      apply (KFold.chunk_in_range rng_shuffle_Permutation KFold.k_fold global
               n_samples j chunk i);
        [unfold KFold.k_fold; cbn [KFold.n_splits]; lia|assumption|assumption]. }
  set (chunks := KFold.iter_test_indices KFold.k_fold global n_samples) in *.
  clearbody chunks.
  rewrite map_map. apply map_ext_in. intros chunk Hin. cbn [snd].
  apply In_nth_error in Hin as [j Hj]. destruct (Hchunks j chunk Hj).
  now apply test_idx_length.
Qed.

Lemma fold_sizes_lookup (n_splits n_samples j : nat) :
  j < n_splits ->
  KFold.fold_sizes n_splits n_samples !! j
  = Some (n_samples / n_splits + (if j <? n_samples mod n_splits then 1 else 0)).
Proof.
  intros Hj. unfold KFold.fold_sizes.
  change (map ?f ?l) with (f <$> l).
  rewrite list_lookup_fmap, lookup_seq_lt by assumption. reflexivity.
Qed.

(** X21. "10 roughly equal groups": the test set of fold [j] has
    [n // 10] rows, one more in the first [n % 10] folds, and the
    training set has all the other rows. *)
Theorem folds_are_balanced (global : rng) (n_samples : nat) folds j tr te :
  KFold.k_fold_split global n_samples = ok folds ->
  nth_error folds j = Some (tr, te) ->
  length te = n_samples / 10 + (if j <? n_samples mod 10 then 1 else 0) /\
  length tr + length te = n_samples.
Proof.
  intros Hs Hj. split.
  - pose proof (fold_lengths global n_samples folds Hs) as Hl.
    assert (j < 10) as Hlt.
    { assert (length folds = 10) as Hlen.
      { apply (f_equal (@length nat)) in Hl.
        rewrite length_map in Hl. rewrite Hl.
        unfold KFold.fold_sizes. now rewrite length_map, length_seq. }
      rewrite <- Hlen. apply nth_error_Some. congruence. }
    assert (map (fun fold => length (snd fold)) folds !! j = Some (length te)) as Hte.
    { change (map ?f ?l) with (f <$> l).
      rewrite list_lookup_fmap, <- Alignment.nth_error_lookup_eq, Hj. reflexivity. }
    rewrite Hl, (fold_sizes_lookup 10 n_samples j Hlt) in Hte. congruence.
  - destruct (KFold.split_lookup _ _ _ _ _ _ _ Hs Hj) as (chunk & _ & -> & ->).
    rewrite Nat.add_comm. rewrite select_partition_length.
    + apply length_seq.
    + rewrite KFold.test_mask_length, length_seq. reflexivity.
Qed.

End FoldSizes.

(** ** Facts: what the K-fold loop accumulates *)

(** The name [x] holds the one-dimensional array [a]. *)
Definition bound_array (x : string) (a : list Q) (k : kernel) : Prop :=
  fst (array_of x k) = ok a.

Lemma bound_array_ext x a k k2 :
  vars k2 !! x = vars k !! x -> bound_array x a k -> bound_array x a k2.
Proof.
  unfold bound_array, array_of, cbind, lookup_var. intros ->.
  destruct (vars k !! x) as [[| | | | |[]|]|]; simpl; auto.
Qed.

Lemma bound_array_lookup x a k :
  vars k !! x = Some (VArray (Arr1 a)) -> bound_array x a k.
Proof. unfold bound_array, array_of, cbind, lookup_var. intros ->. reflexivity. Qed.

Lemma bound_array_inv x a a' k k' :
  bound_array x a k -> array_of x k = (ok a', k') -> a' = a.
Proof.
  unfold bound_array. intros H E. rewrite E in H. simpl in H.
  unfold ok in H. congruence.
Qed.

Lemma gather_length {A} (a : list A) (idx : list nat) :
  forallb (fun i => i <? length a) idx = true -> length (gather a idx) = length idx.
Proof.
  unfold gather. induction idx as [|i idx IH]; simpl; [reflexivity|].
  intros H. apply andb_true_iff in H as [Hi Hidx]. apply Nat.ltb_lt in Hi.
  destruct (lookup_lt_is_Some_2 a i Hi) as [x Hx].
  cbn [omap list_omap]. rewrite Hx. simpl. f_equal. now apply IH.
Qed.

Lemma iloc_column_length (df test : frame) (idx : list nat) (col : string) (c : list Q) :
  columns_aligned df -> iloc df idx = ok test -> getitem test col = ok c ->
  length c = length idx.
Proof.
  intros Hal Hiloc Hc. unfold iloc in Hiloc.
  destruct (forallb (fun i => i <? len df) idx) eqn:Hidx; [|discriminate].
  injection Hiloc as <-. unfold getitem in Hc. simpl in Hc.
  rewrite lookup_fmap in Hc.
  destruct (num_cols df !! col) as [c0|] eqn:Ec0; simpl in Hc; [|discriminate].
  injection Hc as <-. apply gather_length. now rewrite (Hal col c0 Ec0).
Qed.

Section Accumulators.

Context {R : Random} {N : NumPy} {L : Library}.

Variable global : rng.

Hypothesis rng_shuffle_Permutation :
  forall g l, Permutation (fst (rng_shuffle g l)) l.

(** One iteration appends one value to [rmse] and to [r], and one error
    per test row to [error]. *)
Lemma cv_body_appends data formula fold k k' l df a_rmse a_r a_error :
  vars k !! data = Some (VFrame l) ->
  heap k !! l = Some df ->
  columns_aligned df ->
  bound_array "rmse" a_rmse k -> bound_array "r" a_r k ->
  bound_array "error" a_error k ->
  cv_body data formula fold k = (ok tt, k') ->
  exists b_rmse b_r b_error,
    bound_array "rmse" b_rmse k' /\ length b_rmse = S (length a_rmse) /\
    bound_array "r" b_r k' /\ length b_r = S (length a_r) /\
    bound_array "error" b_error k' /\
    length b_error = length a_error + length (snd fold).
Proof.
  intros Hv Hh Hal Hrmse Hr Herror E. unfold cv_body in E.
  apply cbind_ok_inv in E as (df1 & k1 & E1 & E).
  apply frame_of_ok_inv in E1 as (-> & l1 & Hv1 & Hh1).
  assert (df1 = df) as -> by congruence.
  apply cbind_ok_inv in E as (train & k1 & E1 & E).
  apply lift_ok_inv in E1 as [-> Htrain].
  apply cbind_ok_inv in E as (df2 & k1 & E1 & E).
  apply frame_of_ok_inv in E1 as (-> & l2 & Hv2 & Hh2).
  assert (df2 = df) as -> by congruence.
  apply cbind_ok_inv in E as (test & k1 & E1 & E).
  apply lift_ok_inv in E1 as [-> Htest].
  apply cbind_ok_inv in E as (model & k1 & E1 & E).
  apply lift_ok_inv in E1 as [-> Hfit].
  apply cbind_ok_inv in E as (fl & k1 & E1 & E). apply lift_ok_inv in E1 as [-> _].
  apply cbind_ok_inv in E as (lc & k1 & E1 & E). apply lift_ok_inv in E1 as [-> _].
  apply cbind_ok_inv in E as (pr & k1 & E1 & E). apply lift_ok_inv in E1 as [-> _].
  apply cbind_ok_inv in E as (rmse & k1 & E1 & E).
  pose proof (bound_array_inv _ _ _ _ _ Hrmse E1) as ->.
  apply (reads_ok_inv _ _ _ _ (reads_array_of _)) in E1 as ->.
  apply cbind_ok_inv in E as (rho & k1 & E1 & E). apply lift_ok_inv in E1 as [-> _].
  apply cbind_ok_inv in E as (diff & k1 & E1 & E). apply lift_ok_inv in E1 as [-> _].
  apply cbind_ok_inv in E as ([] & k1 & E1 & E). apply assign_inv in E1 as ->.
  apply cbind_ok_inv in E as (r & k1 & E1 & E).
  assert (r = a_r) as ->.
  { refine (bound_array_inv _ _ _ _ _ (bound_array_ext "r" a_r k _ _ Hr) E1).
    simpl. now rewrite lookup_insert_ne by discriminate. }
  apply (reads_ok_inv _ _ _ _ (reads_array_of _)) in E1 as ->.
  apply cbind_ok_inv in E as (rho1 & k1 & E1 & E). apply lift_ok_inv in E1 as [-> _].
  apply cbind_ok_inv in E as ([] & k1 & E1 & E). apply assign_inv in E1 as ->.
  apply cbind_ok_inv in E as (error & k1 & E1 & E).
  assert (error = a_error) as ->.
  { refine (bound_array_inv _ _ _ _ _ (bound_array_ext "error" a_error k _ _ Herror) E1).
    simpl. now rewrite !lookup_insert_ne by discriminate. }
  apply (reads_ok_inv _ _ _ _ (reads_array_of _)) in E1 as ->.
  apply cbind_ok_inv in E as (rho2 & k1 & E1 & E). apply lift_ok_inv in E1 as [-> Hrho2].
  apply cbind_ok_inv in E as (diff2 & k1 & E1 & E). apply lift_ok_inv in E1 as [-> Hdiff2].
  apply cbind_ok_inv in E as ([] & k1 & E1 & E). apply assign_inv in E1 as ->.
  apply cbind_ok_inv in E as (params & k1 & E1 & E).
  apply params_of_ok_inv in E1 as [-> _].
  assert (vars k' !! "rmse"
          = Some (VArray (Arr1 (a_rmse ++ [np_sqrt (np_mean (map (fun d => d ^ 2)%Q diff))])))
          /\ vars k' !! "r" = Some (VArray (Arr1 (a_r ++ [np_corrcoef pr rho1])))
          /\ vars k' !! "error" = Some (VArray (Arr1 (a_error ++ diff2)))) as (H1 & H2 & H3).
  { destruct params as [p|].
    - apply cbind_ok_inv in E as (stacked & k1 & E1 & E).
      apply lift_ok_inv in E1 as [-> _]. apply assign_inv in E as ->. simpl.
      split; [|split]; rewrite !lookup_insert_ne by discriminate;
        apply lookup_insert_eq.
    - apply assign_inv in E as ->. simpl.
      split; [|split]; rewrite !lookup_insert_ne by discriminate;
        apply lookup_insert_eq. }
  eexists _, _, _.
  split; [apply bound_array_lookup, H1|]. split; [rewrite length_app; simpl; lia|].
  split; [apply bound_array_lookup, H2|]. split; [rewrite length_app; simpl; lia|].
  split; [apply bound_array_lookup, H3|].
  rewrite length_app. f_equal.
  destruct (zip_with_same_length _ _ _ _ Hdiff2) as [Hpr ->].
  rewrite Hpr. apply (iloc_column_length df test (snd fold) "RHO"); assumption.
Qed.

Lemma for_loop_appends data formula l df folds :
  data <> "rmse" -> data <> "r" -> data <> "error" -> data <> "params" ->
  columns_aligned df ->
  forall k k' a_rmse a_r a_error,
    vars k !! data = Some (VFrame l) ->
    heap k !! l = Some df ->
    bound_array "rmse" a_rmse k -> bound_array "r" a_r k ->
    bound_array "error" a_error k ->
    for_loop (cv_body data formula) folds k = (ok tt, k') ->
    exists b_rmse b_r b_error,
      bound_array "rmse" b_rmse k' /\ length b_rmse = length a_rmse + length folds /\
      bound_array "r" b_r k' /\ length b_r = length a_r + length folds /\
      bound_array "error" b_error k' /\
      length b_error
      = length a_error + list_sum (map (fun fold => length (snd fold)) folds).
Proof.
  intros Hn1 Hn2 Hn3 Hn4 Hal.
  induction folds as [|fold folds IH]; intros k k' a1 a2 a3 Hv Hh H1 H2 H3 E;
    simpl in E.
  - apply cret_inv in E as [-> _]. exists a1, a2, a3. simpl.
    repeat split; try assumption; lia.
  - apply cbind_ok_inv in E as ([] & k1 & E1 & E).
    pose proof (keeps_var_cv_body data formula fold data Hn1 Hn2 Hn3 Hn4 k) as Hv1.
    pose proof (keeps_heap_cv_body data formula fold k) as Hh1.
    rewrite E1 in Hv1, Hh1. simpl in Hv1, Hh1.
    destruct (cv_body_appends _ _ _ _ _ _ _ _ _ _ Hv Hh Hal H1 H2 H3 E1)
      as (b1 & b2 & b3 & B1 & L1 & B2 & L2 & B3 & L3).
    destruct (IH k1 k' b1 b2 b3) as (c1 & c2 & c3 & C1 & M1 & C2 & M2 & C3 & M3);
      try assumption; try congruence.
    exists c1, c2, c3. simpl. repeat split; try assumption; lia.
Qed.

Lemma bound_array_run x a k : bound_array x a k -> array_of x k = (ok a, k).
Proof.
  unfold bound_array. intros H. pose proof (reads_array_of x k) as Hk.
  destruct (array_of x k) as [res k1]. simpl in *. congruence.
Qed.

(** X22. After the K-fold cell, on a frame whose columns are as long as its
    index: [rmse] and [r] are arrays of ten values, one per fold, and
    [error] is an array of as many prediction errors as the frame has
    rows. *)
Theorem kfold_accumulators (data formula : string) (k k' : kernel)
    (l : loc) (df : frame) :
  vars k !! data = Some (VFrame l) ->
  heap k !! l = Some df ->
  columns_aligned df ->
  cell_kfold global data formula k = (ok tt, k') ->
  exists rmse r error,
    array_of "rmse" k' = (ok rmse, k') /\ length rmse = 10 /\
    array_of "r" k' = (ok r, k') /\ length r = 10 /\
    array_of "error" k' = (ok error, k') /\ length error = len df.
Proof.
  intros Hv Hh Hal E. unfold cell_kfold in E.
  apply cbind_ok_inv in E as ([] & k0 & E0 & E).
  apply cbind_ok_inv in E as (df0 & k1 & E1 & E).
  apply frame_of_ok_inv in E1 as (-> & l0 & Hv0 & Hh0).
  destruct (cv_begin_data _ _ _ _ E0 Hv0)
    as ((Hn1 & Hn2 & Hn3 & Hn4) & Hvk & Hheap & _).
  assert (l0 = l) as -> by congruence.
  assert (df0 = df) as -> by (rewrite Hheap in Hh0; congruence).
  apply cbind_ok_inv in E as (folds & k1 & E1 & E).
  apply lift_ok_inv in E1 as [-> Hfolds].
  pose proof (fold_lengths rng_shuffle_Permutation global (len df) folds Hfolds) as Hsizes.
  assert (length folds = 10) as Hten.
  { apply (f_equal (@length nat)) in Hsizes. rewrite length_map in Hsizes.
    rewrite Hsizes. unfold KFold.fold_sizes. now rewrite length_map, length_seq. }
  assert (bound_array "rmse" [] k0 /\ bound_array "r" [] k0 /\ bound_array "error" [] k0)
    as (B1 & B2 & B3).
  { apply cv_begin_inv in E0 as ->.
    unfold bound_array, array_of, cbind, lookup_var. simpl.
    rewrite !(lookup_insert_ne _ "params") by discriminate.
    repeat split.
    - rewrite !lookup_insert_ne by discriminate. rewrite lookup_insert_eq. reflexivity.
    - rewrite lookup_insert_eq. reflexivity.
    - rewrite lookup_insert_ne by discriminate. rewrite lookup_insert_eq. reflexivity. }
  destruct (for_loop_appends data formula l df folds Hn1 Hn2 Hn3 Hn4 Hal
              k0 k' [] [] [] Hv0 Hh0 B1 B2 B3 E)
    as (c1 & c2 & c3 & C1 & M1 & C2 & M2 & C3 & M3).
  exists c1, c2, c3.
  split; [now apply bound_array_run|]. split; [simpl in M1; lia|].
  split; [now apply bound_array_run|]. split; [simpl in M2; lia|].
  split; [now apply bound_array_run|].
  rewrite M3, Hsizes, KFold.fold_sizes_sum by lia. reflexivity.
Qed.

End Accumulators.

(** ** The facts on examples *)

(** Two comparisons, as after the second recalibration. *)
Definition two_rows : frame :=
  {| index := [0; 1];
     num_cols := {[ "RHO" := [300; 320]%Q ]};
     txt_cols := ∅ |}.

Definition two_rows_kernel : kernel :=
  {| heap := {[ 0 := two_rows ]};
     vars := {[ "result_lim" := VFrame 0; "k20b_rho" := VSeries [310; 315]%Q ]};
     files := ∅ |}.


Lemma too_few_rows_for_ten_folds_witness :
  @cell_kfold KFold.toy_random toy_numpy toy_library 0%Z "result_lim" formula_b
    two_rows_kernel
  = (raise (ValueError "Cannot have number of splits greater than the number of samples"),
     snd (cv_begin two_rows_kernel)) /\
  vars (snd (cv_begin two_rows_kernel)) !! "rmse" = Some (VList []) /\
  vars (snd (cv_begin two_rows_kernel)) !! "params" = Some VNone /\
  files (snd (cv_begin two_rows_kernel)) = files two_rows_kernel /\
  forall name filename,
    @cell_coeff toy_numpy name filename (snd (cv_begin two_rows_kernel))
    = (raise (TypeError "'NoneType' object is not subscriptable"),
       snd (cv_begin two_rows_kernel)).
Proof.
  apply (@too_few_rows_for_ten_folds KFold.toy_random toy_numpy toy_library 0%Z
           "result_lim" formula_b two_rows_kernel (snd (cv_begin two_rows_kernel))
           0 two_rows).
  - reflexivity.
  - vm_compute. reflexivity.
  - vm_compute. reflexivity.
  - unfold len. simpl. lia.
Defined.

(** The kernel of the sample run after the outlier cell. *)
Definition sample_after_outliers : kernel :=
  snd (cell_outliers sample_before_outliers).


Lemma outlier_removal_removes_some_witness :
  exists l df l_lim kept,
    vars sample_before_outliers !! "result" = Some (VFrame l) /\
    heap sample_before_outliers !! l = Some df /\
    vars sample_after_outliers !! "result_lim" = Some (VFrame l_lim) /\
    heap sample_after_outliers !! l_lim = Some kept /\
    len kept < len df /\
    vars sample_after_outliers !! "n_removed"
    = Some (VInt (Z.of_nat (len df) - Z.of_nat (len kept))) /\
    (1 <= Z.of_nat (len df) - Z.of_nat (len kept))%Z.
Proof.
  apply (outlier_removal_removes_some sample_before_outliers
           sample_after_outliers).
  vm_compute. reflexivity.
Defined.

Lemma outliers_kept_below_quantile_witness :
  exists l df l_lim kept abs_error q_95 mask,
    vars sample_before_outliers !! "result" = Some (VFrame l) /\
    heap sample_before_outliers !! l = Some df /\
    vars sample_after_outliers !! "result_lim" = Some (VFrame l_lim) /\
    heap sample_after_outliers !! l_lim = Some kept /\
    vars sample_after_outliers !! "q_95" = Some (VFloat (fin q_95)) /\
    length abs_error = len df /\
    mask = map (fun e => float_lt e (fin q_95)) abs_error /\
    index kept = select (index df) mask /\
    num_cols kept !! "abs_error" = Some (select abs_error mask) /\
    Forall (fun e => e < q_95)%Q (select abs_error mask) /\
    (forall name c, num_cols df !! name = Some c ->
       name <> "f_l" -> name <> "abs_error" ->
       num_cols kept !! name = Some (select c mask)) /\
    (forall name c, txt_cols df !! name = Some c ->
       txt_cols kept !! name = Some (select c mask)).
Proof.
  apply (outliers_kept_below_quantile sample_before_outliers sample_after_outliers).
  vm_compute. reflexivity.
Defined.

(** Twenty comparisons with errors 1, 2, ..., 20. *)
Definition distinct_result : frame :=
  {| index := seq 0 20;
     num_cols :=
       {[ "RHO" := [301; 302; 303; 304; 305; 306; 307; 308; 309; 310;
                    311; 312; 313; 314; 315; 316; 317; 318; 319; 320]%Q;
          "force_log" := replicate 20 0%Q;
          "l" := replicate 20 1%Q ]};
     txt_cols := ∅ |}.

Definition distinct_kernel : kernel :=
  {| heap := {[ 0 := distinct_result ]};
     vars := {[ "result" := VFrame 0; "k20a_rho" := VSeries (replicate 20 300%Q) ]};
     files := ∅ |}.


Lemma folds_are_balanced_witness :
  exists folds tr te,
    @KFold.k_fold_split KFold.toy_random 0%Z 12 = ok folds /\
    nth_error folds 0 = Some (tr, te) /\
    length te = 2 /\ length tr + length te = 12.
Proof.
  eexists _, _, _.
  split; [vm_compute; reflexivity|]. split; [reflexivity|].
  eapply (@folds_are_balanced KFold.toy_random KFold.toy_shuffle_Permutation 0%Z 12 _ 0).
  - vm_compute. reflexivity.
  - reflexivity.
Defined.

Lemma sample_result_aligned : columns_aligned sample_result.
Proof.
  intros name c.
  apply (bool_decide_unpack
           (map_Forall (fun _ c => length c = len sample_result) (num_cols sample_result))).
  vm_compute. exact I.
Qed.

Lemma kfold_accumulators_witness :
  exists k' rmse r error,
    @cell_kfold KFold.toy_random toy_numpy toy_library 0%Z "result" formula_a sample_kernel
    = (ok tt, k') /\
    array_of "rmse" k' = (ok rmse, k') /\ length rmse = 10 /\
    array_of "r" k' = (ok r, k') /\ length r = 10 /\
    array_of "error" k' = (ok error, k') /\ length error = 12.
Proof.
  eexists. 
  assert (@cell_kfold KFold.toy_random toy_numpy toy_library 0%Z "result" formula_a
            sample_kernel
          = (ok tt, snd (@cell_kfold KFold.toy_random toy_numpy toy_library 0%Z "result"
                           formula_a sample_kernel))) as E
    by (vm_compute; reflexivity).
  destruct (@kfold_accumulators KFold.toy_random toy_numpy toy_library 0%Z
              KFold.toy_shuffle_Permutation "result" formula_a sample_kernel _ 0
              sample_result eq_refl eq_refl sample_result_aligned E)
    as (rmse & r & error & H).
  exists rmse, r, error. split; [exact E|exact H].
Defined.

End Runs.
